(** * ShareGPT Cloudflare Worker: ingestion, sanitising, ID allocation, rate limiting

    A shallow embedding of [src/worker.js].  JavaScript strings are sequences
    of UTF-16 code units, so a string is a [list N]; the regular expressions of
    the source are kept as syntax trees and run by a backtracking matcher that
    follows the ECMAScript pattern semantics (continuation passing, greedy and
    lazy quantifiers, capture groups, [^]/[$] under the [m] flag, lookahead). *)

From Stdlib Require Import ZArith NArith Lia List Bool String Ascii QArith Qround.
From stdpp Require Import base option list gmap.
Import ListNotations.

Set Default Proof Using "Type".
Local Open Scope N_scope.

(** ** Strings *)

Abbreviation jsstring := (list N).

Definition str (s : string) : jsstring :=
  map N_of_ascii (list_ascii_of_string s).
Arguments str s%_string.

(** [dq s] is [str s] with every apostrophe turned into a double quote, to
    write string constants of the source that contain double quotes. *)
Definition dq (s : string) : jsstring :=
  map (fun c => if c =? 39 then 34 else c) (str s).
Arguments dq s%_string.

Definition jsstring_eqb (a b : jsstring) : bool := bool_decide (a = b).

(** ECMAScript LineTerminator and WhiteSpace code units. *)
Definition is_line_terminator (c : N) : bool :=
  (c =? 10) || (c =? 13) || (c =? 0x2028) || (c =? 0x2029).

Definition is_white_space (c : N) : bool :=
  (c =? 9) || (c =? 11) || (c =? 12) || (c =? 32) || (c =? 160) ||
  (c =? 0x1680) || ((0x2000 <=? c) && (c <=? 0x200A)) ||
  (c =? 0x202F) || (c =? 0x205F) || (c =? 0x3000) || (c =? 0xFEFF).

(** [\s], and the set [String.prototype.trim] strips. *)
Definition is_space (c : N) : bool := is_white_space c || is_line_terminator c.

Definition is_digit (c : N) : bool := (48 <=? c) && (c <=? 57).
Definition is_upper (c : N) : bool := (65 <=? c) && (c <=? 90).
Definition is_lower (c : N) : bool := (97 <=? c) && (c <=? 122).
(** [\w] *)
Definition is_word (c : N) : bool :=
  is_upper c || is_lower c || is_digit c || (c =? 95).

Definition ascii_lower (c : N) : N := if is_upper c then c + 32 else c.
Definition ascii_upper (c : N) : N := if is_lower c then c - 32 else c.

(** [String.prototype.toLowerCase] on the Basic Latin block.  Code units
    outside it are left as they are: the only lowercase results the program
    inspects are compared with (or searched for) the ASCII words [user] and
    [human], and no code unit outside Basic Latin lowercases to one of their
    letters. *)
Definition toLowerCase (s : jsstring) : jsstring := map ascii_lower s.

Fixpoint starts_with (p s : jsstring) : bool :=
  match p, s with
  | [], _ => true
  | a :: p', b :: s' => (a =? b) && starts_with p' s'
  | _ :: _, [] => false
  end.

(** [String.prototype.includes] *)
Fixpoint includes (s p : jsstring) : bool :=
  starts_with p s ||
  match s with
  | [] => false
  | _ :: s' => includes s' p
  end.

Fixpoint drop_space (s : jsstring) : jsstring :=
  match s with
  | c :: s' => if is_space c then drop_space s' else s
  | [] => []
  end.

(** [String.prototype.trim] *)
Definition trim (s : jsstring) : jsstring :=
  rev (drop_space (rev (drop_space s))).

(** ** Regular expressions *)

Inductive cset :=
| CChar (c : N)
| CRange (lo hi : N)
| CSpace
| CNotSpace
| CDigit
| CWord.

Inductive regex :=
| Eps
| Chr (c : N)
| Dot
| Class (negated : bool) (items : list cset)
| Seq (r1 r2 : regex)
| Alt (r1 r2 : regex)
| Quant (min : nat) (max : option nat) (greedy : bool) (r : regex)
| Group (idx : nat) (r : regex)
| Bol
| Eol
| Lookahead (r : regex).

Record flags := Flags { icase : bool; multiline : bool }.

Record mstate := MState {
  m_prev : option N;                 (* the code unit before the position *)
  m_rest : jsstring;                 (* the input from the position on *)
  m_caps : list (nat * jsstring)     (* capture groups that took part *)
}.

Definition cset_has (i : cset) (c : N) : bool :=
  match i with
  | CChar a => a =? c
  | CRange lo hi => (lo <=? c) && (c <=? hi)
  | CSpace => is_space c
  | CNotSpace => negb (is_space c)
  | CDigit => is_digit c
  | CWord => is_word c
  end.

(** Membership under the flags.  With [i] (and no [u]) the standard compares
    canonicalised code units; canonicalisation never maps a code unit above
    127 to one below 128, and the sets of the source name only ASCII letters,
    so a code unit is in a set iff it or its ASCII case twin is. *)
Definition cset_match (fl : flags) (i : cset) (c : N) : bool :=
  cset_has i c ||
  (icase fl && (cset_has i (ascii_lower c) || cset_has i (ascii_upper c))).

Definition class_match (fl : flags) (neg : bool) (items : list cset) (c : N) : bool :=
  xorb neg (existsb (fun i => cset_match fl i c) items).

Definition chr_match (fl : flags) (a c : N) : bool := cset_match fl (CChar a) c.

Fixpoint groups (r : regex) : list nat :=
  match r with
  | Seq a b | Alt a b => groups a ++ groups b
  | Quant _ _ _ a | Lookahead a => groups a
  | Group i a => i :: groups a
  | _ => []
  end.

Definition clear_caps (gs : list nat) (st : mstate) : mstate :=
  MState (m_prev st) (m_rest st)
         (List.filter (fun p => negb (existsb (Nat.eqb (fst p)) gs)) (m_caps st)).

Definition step (st : mstate) (ok : N -> bool)
    (k : mstate -> option mstate) : option mstate :=
  match m_rest st with
  | c :: s => if ok c then k (MState (Some c) s (m_caps st)) else None
  | [] => None
  end.

Definition at_bol (fl : flags) (st : mstate) : bool :=
  match m_prev st with
  | None => true
  | Some c => multiline fl && is_line_terminator c
  end.

Definition at_eol (fl : flags) (st : mstate) : bool :=
  match m_rest st with
  | [] => true
  | c :: _ => multiline fl && is_line_terminator c
  end.

Definition orelse {A} (x : option A) (y : option A) : option A :=
  match x with Some _ => x | None => y end.

(** The text between two positions of one input. *)
Definition between (x y : mstate) : jsstring :=
  firstn (length (m_rest x) - length (m_rest y))%nat (m_rest x).

(** RepeatMatcher of the standard, for a body matcher [mr] whose capture
    groups are [gs]: at least [mn] and at most [mx] rounds of [mr], then the
    continuation [k]; greedy loops try another round first, lazy ones try [k]
    first.  A round that is not needed ([mn = 0]) and consumes nothing is
    refused, so every round lowers [mn] or the remaining length, and their sum
    bounds the rounds: [fuel] starts above it. *)
Fixpoint repeat_matcher (mr : (mstate -> option mstate) -> mstate -> option mstate)
    (gs : list nat) (g : bool) (k : mstate -> option mstate)
    (fuel : nat) (mn : nat) (mx : option nat) (x : mstate)
    {struct fuel} : option mstate :=
  match fuel with
  | O => None
  | S fuel' =>
      match mx with
      | Some O => k x
      | _ =>
          let d := fun y =>
            if Nat.eqb mn 0 &&
               Nat.eqb (length (m_rest y)) (length (m_rest x))
            then None
            else repeat_matcher mr gs g k fuel' (Nat.pred mn)
                                (option_map Nat.pred mx) y in
          let xr := clear_caps gs x in
          if negb (Nat.eqb mn 0) then mr d xr
          else if g then orelse (mr d xr) (k x)
          else orelse (k x) (mr d xr)
      end
  end.

(** The matcher of the standard: [m fl r k st] runs [r] at [st] and hands every
    way of matching it, in priority order, to the continuation [k]. *)
Fixpoint m (fl : flags) (r : regex) (k : mstate -> option mstate)
    (st : mstate) {struct r} : option mstate :=
  match r with
  | Eps => k st
  | Chr a => step st (chr_match fl a) k
  | Dot => step st (fun c => negb (is_line_terminator c)) k
  | Class neg items => step st (class_match fl neg items) k
  | Seq r1 r2 => m fl r1 (m fl r2 k) st
  | Alt r1 r2 => orelse (m fl r1 k st) (m fl r2 k st)
  | Quant mn mx g r' =>
      repeat_matcher (m fl r') (groups r') g k
                     (mn + S (length (m_rest st)))%nat mn mx st
  | Group i r' =>
      m fl r' (fun y => k (MState (m_prev y) (m_rest y)
                                  ((i, between st y) ::
                                   List.filter (fun p => negb (Nat.eqb (fst p) i)) (m_caps y)))) st
  | Bol => if at_bol fl st then k st else None
  | Eol => if at_eol fl st then k st else None
  | Lookahead r' =>
      match m fl r' Some st with
      | Some y => k (MState (m_prev st) (m_rest st) (m_caps y))
      | None => None
      end
  end.

(** One match attempt at a position: the length of the match and its
    captures. *)
Definition exec (fl : flags) (r : regex) (prev : option N) (s : jsstring)
    : option (nat * list (nat * jsstring)) :=
  match m fl r Some (MState prev s []) with
  | Some y => Some ((length s - length (m_rest y))%nat, m_caps y)
  | None => None
  end.

(** [s.replace(/r/g, repl)] for a replacement without [$] patterns: scan from
    the left; at a match emit [repl] and resume after it (one code unit further
    when the match is empty); [skip] counts the code units of the current
    match still to be dropped. *)
Fixpoint replace_go (fl : flags) (r : regex) (repl : jsstring)
    (skip : nat) (prev : option N) (s : jsstring) {struct s} : jsstring :=
  match skip with
  | S n =>
      match s with
      | [] => []
      | c :: s' => replace_go fl r repl n (Some c) s'
      end
  | O =>
      match exec fl r prev s with
      | None =>
          match s with
          | [] => []
          | c :: s' => c :: replace_go fl r repl 0 (Some c) s'
          end
      | Some (O, _) =>
          repl ++ match s with
                  | [] => []
                  | c :: s' => c :: replace_go fl r repl 0 (Some c) s'
                  end
      | Some (S n, _) =>
          repl ++ match s with
                  | [] => []
                  | c :: s' => replace_go fl r repl n (Some c) s'
                  end
      end
  end.

Definition replace_all (fl : flags) (r : regex) (repl s : jsstring) : jsstring :=
  replace_go fl r repl 0 None s.

(** [s.replace(/r/, repl)] without the [g] flag: the first match only. *)
Fixpoint replace_first_go (fl : flags) (r : regex) (repl : jsstring)
    (prev : option N) (s : jsstring) {struct s} : jsstring :=
  match exec fl r prev s with
  | Some (n, _) => repl ++ skipn n s
  | None =>
      match s with
      | [] => []
      | c :: s' => c :: replace_first_go fl r repl (Some c) s'
      end
  end.

Definition replace_first (fl : flags) (r : regex) (repl s : jsstring) : jsstring :=
  replace_first_go fl r repl None s.

(** [[...s.matchAll(/r/g)]]: every match with its text and captures. *)
Record rmatch := RMatch { m_text : jsstring; m_groups : list (nat * jsstring) }.

Fixpoint matchAll_go (fl : flags) (r : regex)
    (skip : nat) (prev : option N) (s : jsstring) {struct s} : list rmatch :=
  match skip with
  | S n =>
      match s with
      | [] => []
      | c :: s' => matchAll_go fl r n (Some c) s'
      end
  | O =>
      match exec fl r prev s with
      | None =>
          match s with
          | [] => []
          | c :: s' => matchAll_go fl r 0 (Some c) s'
          end
      | Some (n, caps) =>
          RMatch (firstn n s) caps ::
          match s with
          | [] => []
          | c :: s' => matchAll_go fl r (Nat.pred n) (Some c) s'
          end
      end
  end.

Definition matchAll (fl : flags) (r : regex) (s : jsstring) : list rmatch :=
  matchAll_go fl r 0 None s.

(** [match[i]]: [None] is [undefined]. *)
Definition group (mt : rmatch) (i : nat) : option jsstring :=
  match i with
  | O => Some (m_text mt)
  | _ => snd <$> List.find (fun p => Nat.eqb (fst p) i) (m_groups mt)
  end.

(** Pattern builders. *)
Definition lit (s : jsstring) : regex := fold_right (fun c r => Seq (Chr c) r) Eps s.
Definition seqs (rs : list regex) : regex := fold_right Seq Eps rs.
Definition star (r : regex) : regex := Quant 0 None true r.
Definition plus (r : regex) : regex := Quant 1 None true r.
Definition lazy_star (r : regex) : regex := Quant 0 None false r.
Definition opt (r : regex) : regex := Quant 0 (Some 1%nat) true r.
Definition at_least (n : nat) (r : regex) : regex := Quant n None true r.
Definition one_of (s : jsstring) : regex := Class false (map CChar s).
Definition none_of (s : jsstring) : regex := Class true (map CChar s).
Definition any_char : regex := Class false [CSpace; CNotSpace].   (* [\s\S] *)
Definition space : regex := Class false [CSpace].                 (* \s *)
Definition word : regex := Class false [CWord].                   (* \w *)
Definition digit : regex := Class false [CDigit].                 (* \d *)

Definition fl_g : flags := Flags false false.
Definition fl_gi : flags := Flags true false.
Definition fl_gm : flags := Flags false true.
Definition fl_gmi : flags := Flags true true.

(** ** Sanitizer and cleaner *)

(** [<tag[^>]*>[\s\S]*?</tag>], a block with its content. *)
Definition re_block (tag : jsstring) : regex :=
  seqs [lit (str "<" ++ tag); star (none_of (str ">")); lit (str ">");
        lazy_star any_char; lit (str "</" ++ tag ++ str ">")].

(** An inline event handler: white space, [on], word characters, [=] and a
    value between two [quote] marks (double quotes or apostrophes). *)
Definition re_handler (quote : jsstring) : regex :=
  seqs [plus space; lit (str "on"); plus word; lit (str "=" ++ quote);
        star (none_of quote); lit quote].

Definition sanitize_passes : list (jsstring -> jsstring) :=
  [ replace_all fl_gi (re_block (str "script")) [];
    replace_all fl_gi (re_block (str "style")) [];
    replace_all fl_gi (re_block (str "iframe")) [];
    replace_all fl_gi (re_block (str "noscript")) [];
    replace_all fl_gi (re_handler (dq "'")) [];
    replace_all fl_gi (re_handler (str "'")) [];
    replace_all fl_gi (lit (str "javascript:")) [] ].

Definition run_passes (ps : list (jsstring -> jsstring)) (s : jsstring) : jsstring :=
  fold_left (fun acc p => p acc) ps s.

(** JavaScript values as far as the program tells them apart: what
    [JSON.parse] returns, and [undefined]. *)
#[local] Set Warnings "-register-all".
Inductive jsval :=
| VUndefined
| VNull
| VBool (b : bool)
| VNum (q : Q)
| VStr (s : jsstring)
| VArr (items : list jsval)
| VObj (fields : list (jsstring * jsval)).

Definition truthy (v : jsval) : bool :=
  match v with
  | VUndefined | VNull => false
  | VBool b => b
  | VNum q => negb (Qeq_bool q 0)
  | VStr s => negb (jsstring_eqb s [])
  | VArr _ | VObj _ => true
  end.

(** [sanitizeHtmlContent]: everything that is not a non-empty string gives
    the empty string. *)
Definition sanitizeHtmlContent (html : jsval) : jsstring :=
  match html with
  | VStr s => if truthy html then run_passes sanitize_passes s else []
  | _ => []
  end.

(** The HTML entities [cleanHtmlContent] decodes, in the order of the
    source. *)
Definition clean_entities : list (jsstring * jsstring) :=
  [ (str "&nbsp;", str " ");
    (str "&lt;", str "<");
    (str "&gt;", str ">");
    (str "&amp;", str "&");
    (dq "&quot;", dq "'");
    (str "&#x27;", str "'");
    (str "&#x2F;", str "/");
    (str "&#39;", str "'");
    (str "&hellip;", str "...");
    (str "&mdash;", [0x2014]);
    (str "&ndash;", [0x2013]) ].

Definition clean_passes : list (jsstring -> jsstring) :=
  [ (* multipart form boundaries *)
    replace_all fl_gm (seqs [Bol; at_least 10 (Chr 45); at_least 10 digit;
                             Quant 0 (Some 2%nat) true (Chr 45); Eol]) [];
    replace_all fl_gm (seqs [Bol; lit (str "Content-"); lazy_star Dot; Eol]) [];
    replace_all fl_gm (seqs [Bol; lit (str "boundary="); lazy_star Dot; Eol]) [];
    (* dangerous blocks *)
    replace_all fl_gi (re_block (str "script")) [];
    replace_all fl_gi (re_block (str "style")) [];
    replace_all fl_gi (re_block (str "iframe")) [];
    replace_all fl_gi (re_block (str "noscript")) [];
    (* structural tags to text *)
    replace_all fl_gi (seqs [lit (str "<br"); star space; opt (Chr 47); lit (str ">")]) [10];
    replace_all fl_gi (lit (str "</p>")) [10; 10];
    replace_all fl_gi (lit (str "</div>")) [10];
    replace_all fl_gi (seqs [lit (str "</h"); Class false [CRange 49 54]; lit (str ">")]) [10; 10];
    replace_all fl_gi (seqs [lit (str "<li"); star (none_of (str ">")); lit (str ">")]) [0x2022; 32];
    replace_all fl_gi (lit (str "</li>")) [10];
    (* all remaining tags *)
    replace_all fl_g (seqs [lit (str "<"); star (none_of (str ">")); lit (str ">")]) [] ]
  ++ map (fun e => replace_all fl_g (lit (fst e)) (snd e)) clean_entities ++
  [ (* white space *)
    replace_all fl_g (lit [13; 10]) [10];
    replace_all fl_g (lit [13]) [10];
    replace_all fl_g (at_least 3 (Chr 10)) [10; 10];
    replace_all fl_g (plus (one_of [32; 9])) [32];
    replace_all fl_gm (seqs [Bol; plus (Chr 32)]) [];
    replace_all fl_gm (seqs [plus (Chr 32); Eol]) [];
    replace_first fl_g (seqs [Bol; plus (Chr 10)]) [];
    replace_first fl_g (seqs [plus (Chr 10); Eol]) [];
    (* zero-width characters, other white space *)
    replace_all fl_g (Class false [CRange 0x200B 0x200D; CChar 0xFEFF]) [];
    replace_all fl_g (plus (Class true [CNotSpace; CChar 10])) [32];
    trim ].

(** [cleanHtmlContent] *)
Definition cleanHtmlContent (content : jsval) : jsstring :=
  match content with
  | VStr s => if truthy content then run_passes clean_passes s else []
  | _ => []
  end.

(** [preprocessContent] *)
Definition preprocess_passes : list (jsstring -> jsstring) :=
  [ replace_all fl_gm (seqs [Bol; at_least 20 (Chr 45); at_least 15 digit;
                             Quant 0 (Some 2%nat) true (Chr 45); Eol]) [];
    replace_all fl_gm (seqs [Bol; lit (str "Content-Disposition:"); star Dot; Eol]) [];
    replace_all fl_gm (seqs [Bol; lit (str "Content-Type:"); star Dot; Eol]) [];
    replace_all fl_gm (seqs [Bol; lit (str "Content-Length:"); star Dot; Eol]) [];
    replace_all fl_gm (seqs [Bol; lit (str "boundary="); star Dot; Eol]) [];
    replace_all fl_gm (seqs [Bol; lit (dq "name='"); lazy_star Dot; lit (dq "'"); Eol]) [];
    replace_all fl_gm (seqs [Bol; star space; Eol]) [];
    replace_all fl_g (at_least 3 (Chr 10)) [10; 10];
    trim ].

Definition preprocessContent (content : jsval) : jsstring :=
  match content with
  | VStr s => if truthy content then run_passes preprocess_passes s else []
  | _ => []
  end.

(** ** Messages and parse results *)

Record Message := mkMessage { role : jsstring; content : jsstring }.

(** The object the parser returns.  [messageCount] and [error] are fields
    that some of the object literals of the source leave out. *)
Record ParseResult := mkParseResult {
  messages : list Message;
  format : jsstring;
  messageCount : option nat;
  error : option jsstring
}.

(** The object literal of the two [catch] handlers. *)
Definition fallback_result (raw : jsstring) (msg : jsstring) : ParseResult :=
  {| messages := [mkMessage (str "unknown") (cleanHtmlContent (VStr raw))];
     format := str "fallback";
     messageCount := None;
     error := Some msg |}.

(** [v.key] for a property that no prototype defines: own properties of
    objects, [undefined] on everything else.  (On [null] and [undefined] the
    access throws; the callers test for these first.) *)
Fixpoint assoc (key : jsstring) (fields : list (jsstring * jsval)) : jsval :=
  match fields with
  | [] => VUndefined
  | (k, v) :: fs => if jsstring_eqb k key then v else assoc key fs
  end.

Definition get_prop (v : jsval) (key : jsstring) : jsval :=
  match v with
  | VObj fields => assoc key fields
  | _ => VUndefined
  end.

Definition is_nullish (v : jsval) : bool :=
  match v with VUndefined | VNull => true | _ => false end.

Definition is_object (v : jsval) : bool :=           (* typeof v === 'object' *)
  match v with VNull | VArr _ | VObj _ => true | _ => false end.

Definition is_string (v : jsval) : bool :=           (* typeof v === 'string' *)
  match v with VStr _ => true | _ => false end.

Definition str_is (v : jsval) (s : jsstring) : bool :=  (* v === 's' *)
  match v with VStr t => jsstring_eqb t s | _ => false end.

(** The callback of [data.every] in [isValidConversationJSON]. *)
Definition valid_item (item : jsval) : bool :=
  truthy item && is_object item &&
  is_string (get_prop item (str "from")) &&
  is_string (get_prop item (str "value")) &&
  (str_is (get_prop item (str "from")) (str "human") ||
   str_is (get_prop item (str "from")) (str "gpt") ||
   str_is (get_prop item (str "from")) (str "user") ||
   str_is (get_prop item (str "from")) (str "assistant")).

(** The callback of [data.map] in [parseJSONConversation]. *)
Definition message_of_item (item : jsval) : Message :=
  {| role := if str_is (get_prop item (str "from")) (str "human") ||
                str_is (get_prop item (str "from")) (str "user")
             then str "user" else str "assistant";
     content := sanitizeHtmlContent (get_prop item (str "value")) |}.

(** ** The structured extractor *)

Inductive track :=
| userMessages | assistantMessages | messageTexts | userTexts | assistantTexts.

#[local] Instance track_eq_dec : EqDecision track.
Proof. solve_decision. Defined.

(** What the streaming rewriter of the host delivers: the element handler
    registered for a track fires, or the document handler receives a chunk of
    text.  The document's end follows the last event. *)
Inductive rw_event :=
| EvElement (t : track)
| EvText (text : jsstring) (lastInTextNode : bool).

(** [DocumentHandler.decodeHtmlEntities] *)
Definition decodeHtmlEntities (text : jsstring) : jsstring :=
  run_passes
    [ replace_all fl_g (lit (str "&amp;")) (str "&");
      replace_all fl_g (lit (str "&lt;")) (str "<");
      replace_all fl_g (lit (str "&gt;")) (str ">");
      replace_all fl_g (lit (dq "&quot;")) (dq "'");
      replace_all fl_g (lit (str "&#x27;")) (str "'");
      replace_all fl_g (lit (str "&#x2F;")) (str "/") ] text.

(** The [DocumentHandler] fields together with the [result] object that the
    callbacks of [parseWithHTMLRewriter] write to. *)
Record rw_state := mkRw {
  rw_result : track -> option jsstring;
  rw_buffer : jsstring;
  rw_doOnText : bool;
  rw_onText : option track
}.

Definition rw_init : rw_state := mkRw (fun _ => None) [] false None.

Definition rw_set (res : track -> option jsstring) (t : track) (x : jsstring)
    : track -> option jsstring :=
  fun t' => if bool_decide (t' = t) then Some x else res t'.

(** Every track of [tracks] has no attribute (absent or [null]), so each gets
    the handler of [TextHandlerFactory]: the element handler arms [onText];
    [DocumentHandler.text] collects chunks while armed. *)
Definition rw_step (st : rw_state) (e : rw_event) : rw_state :=
  match e with
  | EvElement t => mkRw (rw_result st) (rw_buffer st) true (Some t)
  | EvText text last =>
      if rw_doOnText st then
        let buffer := rw_buffer st ++ text in
        if last then
          mkRw (match rw_onText st with
                | Some t => rw_set (rw_result st) t (decodeHtmlEntities buffer)
                | None => rw_result st
                end) [] false (rw_onText st)
        else mkRw (rw_result st) buffer true (rw_onText st)
      else st
  end.

Definition rw_run (events : list rw_event) : track -> option jsstring :=
  rw_result (fold_left rw_step events rw_init).

Definition truthy_str (o : option jsstring) : bool :=
  match o with Some (_ :: _) => true | _ => false end.

(** ** The regex tier *)

Definition role_labels : regex :=
  Alt (lit (str "User")) (Alt (lit (str "Human"))
      (Alt (lit (str "Assistant")) (lit (str "AI")))).

Definition pattern_a : regex :=
  seqs [lit (str "<div"); star (none_of (str ">"));
        lit (dq "data-message-author-role='");
        Group 1 (Alt (lit (str "user")) (lit (str "assistant")));
        lit (dq "'"); star (none_of (str ">")); lit (str ">");
        Group 2 (lazy_star any_char); lit (str "</div>")].

Definition pattern_b : regex :=
  seqs [lit (str "<div"); star (none_of (str ">"));
        lit (dq "class='"); star (none_of (dq "'")); lit (str "message");
        star (none_of (dq "'")); lit (dq "'");
        star (none_of (str ">")); lit (str ">");
        Group 1 (lazy_star any_char); lit (str "</div>")].

Definition pattern_c : regex :=
  seqs [Bol; Group 1 role_labels; lit (str ":"); star space;
        Group 2 (lazy_star any_char);
        Lookahead (Alt (seqs [Bol; role_labels; lit (str ":")]) Eol)].

Definition patterns : list (flags * regex) :=
  [(fl_gi, pattern_a); (fl_gi, pattern_b); (fl_gmi, pattern_c)].

(** The body of [for (const match of matches)]. *)
Definition message_of_match (mt : rmatch) : list Message :=
  match group mt 1, group mt 2 with
  | Some ((_ :: _) as g1), Some ((_ :: _) as g2) =>
      [mkMessage (toLowerCase g1) (cleanHtmlContent (VStr g2))]
  | Some ((_ :: _) as g1), _ =>
      let whole := toLowerCase (m_text mt) in
      [mkMessage (if includes whole (str "user") || includes whole (str "human")
                  then str "user" else str "assistant")
                 (cleanHtmlContent (VStr g1))]
  | _, _ => []
  end.

(** [for (const pattern of patterns)]: the first pattern with a match
    supplies the messages, the others are not tried. *)
Fixpoint regex_tier (ps : list (flags * regex)) (html : jsstring) : list Message :=
  match ps with
  | [] => []
  | (fl, r) :: ps' =>
      match matchAll fl r html with
      | [] => regex_tier ps' html
      | ms => flat_map message_of_match ms
      end
  end.

(** The object [handlePost] stores. *)
Record ConversationData := mkConversationData {
  cd_id : jsstring;
  cd_parsed : ParseResult;
  cd_raw : jsstring;
  cd_format : jsstring;
  cd_created : jsstring;
  cd_size : nat;
  cd_ip : jsstring
}.

(** The built-ins of the host that the program calls and that are functions
    of their argument.
    - [JSON_parse] is [JSON.parse]: the value, or the message of the
      SyntaxError it throws.
    - [HTMLRewriter_events] is [HTMLRewriter] run over a document with the
      selectors of [tracks]: the events in document order, or [None] when the
      transform throws.
    - [JSON_stringify] is [JSON.stringify] on the stored object. *)
Class Host := {
  JSON_parse : jsstring -> jsval + jsstring;
  HTMLRewriter_events : jsstring -> option (list rw_event);
  JSON_stringify : ConversationData -> jsstring
}.

Section Parse.
Context `{Host}.

(** [isValidConversationJSON] *)
Definition isValidConversationJSON (content : jsstring) : bool :=
  match JSON_parse content with
  | inl (VArr ((_ :: _) as data)) => forallb valid_item data
  | _ => false
  end.

(** [parseJSONConversation].  Inside [try]: [JSON.parse] may throw, [data.map]
    throws a TypeError when [data] is not an array, and the callback throws
    one when it reads [from] of [null]. *)
Definition parseJSONConversation (content : jsstring) : ParseResult :=
  match JSON_parse content with
  | inl (VArr data) =>
      match List.find is_nullish data with
      | Some _ =>
          fallback_result content (str "Cannot read properties of null (reading 'from')")
      | None =>
          let messages := map message_of_item data in
          {| messages := messages;
             format := str "json";
             messageCount := Some (length messages);
             error := None |}
      end
  | inl VNull =>
      fallback_result content (str "Cannot read properties of null (reading 'map')")
  | inl _ => fallback_result content (str "data.map is not a function")
  | inr msg => fallback_result content msg
  end.

(** [parseWithHTMLRewriter]: [None] is a rejected promise. *)
Definition parseWithHTMLRewriter (html : jsstring) : option (track -> option jsstring) :=
  rw_run <$> HTMLRewriter_events html.

(** The second tier of [parseHtmlContent], [None] when it falls through to
    the regex tier. *)
Definition structured_tier (html : jsstring) : option ParseResult :=
  if includes html (str "data-message-author-role") ||
     includes html (str "message-content")
  then
    match parseWithHTMLRewriter html with
    | Some res =>
        if truthy_str (res userTexts) || truthy_str (res assistantTexts) then
          let messages :=
            (if truthy_str (res userTexts)
             then [mkMessage (str "user")
                     (cleanHtmlContent (VStr (default [] (res userTexts))))]
             else []) ++
            (if truthy_str (res assistantTexts)
             then [mkMessage (str "assistant")
                     (cleanHtmlContent (VStr (default [] (res assistantTexts))))]
             else []) in
          if Nat.ltb 0 (length messages)
          then Some {| messages := messages;
                       format := str "htmlrewriter";
                       messageCount := Some (length messages);
                       error := None |}
          else None
        else None
    | None => None     (* caught by the inner [catch], logged *)
    end
  else None.

(** The [try] block of [parseHtmlContent]: the result it returns, or the
    message of the exception that leaves it. *)
Definition parse_try (html : jsstring) : ParseResult + jsstring :=
  if isValidConversationJSON html then inl (parseJSONConversation html)
  else
    match structured_tier html with
    | Some r => inl r
    | None =>
        let found := regex_tier patterns html in
        let messages :=
          if Nat.eqb (length found) 0
          then [mkMessage (str "unknown") (cleanHtmlContent (VStr html))]
          else found in
        inl {| messages := messages;
               format := str "parsed";
               messageCount := Some (length messages);
               error := None |}
    end.

(** [parseHtmlContent] *)
Definition parseHtmlContent (html : jsstring) : ParseResult :=
  match parse_try html with
  | inl r => r
  | inr msg => fallback_result html msg
  end.

End Parse.

(** ** The host: key-value store, random source, clock *)

(** What a handler does to the host, in the order it does it: reads and
    writes of the store, calls of [Math.random], and the calls of
    [parseHtmlContent] (with the text handed over). *)
Inductive event :=
| EvGet (key : jsstring)
| EvPut (key value : jsstring) (ttl : option N)
| EvRandom
| EvParse (html : jsstring).

(** The state of the host that a request handler can observe or change.
    [kv] is the namespace [env.sharegpt] (each value with the
    [expirationTtl] it was written with); [random] lists the values that
    [Math.random] is going to return, [drawn] of which are used up;
    [kv_ops] counts the store operations so far and [kv_fails n] tells
    whether operation number [n] throws; [trace] is what has happened. *)
Record World := mkWorld {
  kv : gmap jsstring (jsstring * option N);
  random : nat -> Q;
  drawn : nat;
  clock : jsstring;
  kv_fails : nat -> bool;
  kv_ops : nat;
  trace : list event
}.

(** A computation that may throw an [Error] with a message. *)
Definition M (A : Type) : Type := World -> (A + jsstring) * World.

Definition ret {A} (a : A) : M A := fun w => (inl a, w).
Definition throw {A} (msg : jsstring) : M A := fun w => (inr msg, w).
Definition lift {A} (r : A + jsstring) : M A := fun w => (r, w).
Definition bind {A B} (c : M A) (f : A -> M B) : M B :=
  fun w => match c w with
           | (inl a, w') => f a w'
           | (inr e, w') => (inr e, w')
           end.

Notation "'let*' x ':=' c 'in' k" := (bind c (fun x => k))
  (at level 10, x name, c at level 100, k at level 200).

Definition emit (e : event) (w : World) : World :=
  mkWorld (kv w) (random w) (drawn w) (clock w) (kv_fails w) (kv_ops w)
          (trace w ++ [e]).

Definition kv_error : jsstring := str "KV operation failed".

(** One store operation: recorded, then it throws or runs. *)
Definition kv_op {A} (e : event) (run : World -> A * World) : M A :=
  fun w =>
    let w1 := emit e w in
    let w2 := mkWorld (kv w1) (random w1) (drawn w1) (clock w1) (kv_fails w1)
                      (S (kv_ops w1)) (trace w1) in
    if kv_fails w (kv_ops w) then (inr kv_error, w2)
    else let '(a, w3) := run w2 in (inl a, w3).

(** [env.sharegpt.get(key)] *)
Definition kv_get (key : jsstring) : M (option jsstring) :=
  kv_op (EvGet key) (fun w => (fst <$> kv w !! key, w)).

(** [env.sharegpt.put(key, value, { expirationTtl })] *)
Definition kv_put (key value : jsstring) (ttl : option N) : M unit :=
  kv_op (EvPut key value ttl)
        (fun w => (tt, mkWorld (<[key := (value, ttl)]> (kv w)) (random w) (drawn w)
                               (clock w) (kv_fails w) (kv_ops w) (trace w))).

(** [Math.random()] *)
Definition math_random : M Q :=
  fun w => (inl (random w (drawn w)),
            emit EvRandom (mkWorld (kv w) (random w) (S (drawn w)) (clock w)
                                   (kv_fails w) (kv_ops w) (trace w))).

(** [new Date().toISOString()] *)
Definition now : M jsstring := fun w => (inl (clock w), w).

(** ** Unique identifiers *)

Definition chars : jsstring :=
  str "abcdefghijkmnpqrstuvwxyzABCDEFGHJKMNPQRSTUVWXYZ23456789".

Definition maxAttempts : nat := 10.

(** [chars[Math.floor(x * chars.length)]]; an index outside the string gives
    [undefined], which [+=] appends as the word.  The product is taken
    exactly here; the code rounds it to a Number, which moves the index up by
    one for a value just below a multiple of 1/55. *)
Definition pick (x : Q) : jsstring :=
  let i := Qfloor (x * inject_Z (Z.of_nat (length chars))) in
  if (i <? 0)%Z then str "undefined"
  else match chars !! Z.to_nat i with
       | Some c => [c]
       | None => str "undefined"
       end.

(** [for (let i = 0; i < 8; i++) id += ...], with [n] rounds to go. *)
Fixpoint random_id (n : nat) (id : jsstring) : M jsstring :=
  match n with
  | O => ret id
  | S n' => let* x := math_random in random_id n' (id ++ pick x)
  end.

(** [while (attempts < maxAttempts)], with [remaining = maxAttempts -
    attempts] rounds to go. *)
Fixpoint generate_loop (remaining : nat) : M jsstring :=
  match remaining with
  | O => throw (str "Failed to generate unique ID")
  | S n =>
      let* id := random_id 8 [] in
      let* existing := kv_get id in
      if negb (truthy_str existing) then ret id else generate_loop n
  end.

(** [generateUniqueId] *)
Definition generateUniqueId : M jsstring := generate_loop maxAttempts.

(** ** Rate limiting *)

Definition digit_value (radix : Z) (c : N) : option Z :=
  let v := if is_digit c then Some (Z.of_N c - 48)%Z
           else if is_lower c then Some (Z.of_N c - 87)%Z
           else if is_upper c then Some (Z.of_N c - 55)%Z
           else None in
  match v with
  | Some d => if (d <? radix)%Z then Some d else None
  | None => None
  end.

(** The longest prefix of digits, as a number; [None] when there is none. *)
Fixpoint parse_digits (radix : Z) (acc : option Z) (s : jsstring) : option Z :=
  match s with
  | c :: s' =>
      match digit_value radix c with
      | Some d => parse_digits radix (Some (default 0%Z acc * radix + d)%Z) s'
      | None => acc
      end
  | [] => acc
  end.

(** [parseInt(s)] without a radix; [None] is [NaN].  Numbers are integers
    here, which is what [parseInt] returns up to the precision of a double. *)
Definition parseInt (s : jsstring) : option Z :=
  let s1 := drop_space s in
  let '(sign, s2) :=
    match s1 with
    | 45 :: t => ((-1)%Z, t)
    | 43 :: t => (1%Z, t)
    | _ => (1%Z, s1)
    end in
  let '(radix, s3) :=
    match s2 with
    | 48 :: 120 :: t | 48 :: 88 :: t => (16%Z, t)
    | _ => (10%Z, s2)
    end in
  Z.mul sign <$> parse_digits radix None s3.

Fixpoint uint_digits (u : Decimal.uint) : jsstring :=
  match u with
  | Decimal.Nil => []
  | Decimal.D0 u' => 48 :: uint_digits u'
  | Decimal.D1 u' => 49 :: uint_digits u'
  | Decimal.D2 u' => 50 :: uint_digits u'
  | Decimal.D3 u' => 51 :: uint_digits u'
  | Decimal.D4 u' => 52 :: uint_digits u'
  | Decimal.D5 u' => 53 :: uint_digits u'
  | Decimal.D6 u' => 54 :: uint_digits u'
  | Decimal.D7 u' => 55 :: uint_digits u'
  | Decimal.D8 u' => 56 :: uint_digits u'
  | Decimal.D9 u' => 57 :: uint_digits u'
  end.

(** [String(n)] for an integer. *)
Definition String_of_int (n : Z) : jsstring :=
  match n with
  | Z0 => str "0"
  | Zpos p => uint_digits (Pos.to_uint p)
  | Zneg p => 45 :: uint_digits (Pos.to_uint p)
  end.

Definition limit : Z := 10.

Definition rate_key (ip : jsstring) : jsstring := str "rate_limit:" ++ ip.

Definition rate_limit_error : jsstring :=
  str "Rate limit exceeded. Please try again later.".

(** [checkRateLimit].  [parseInt(null)] is [NaN], like [parseInt] of any
    text without a leading number. *)
Definition checkRateLimit (ip : jsstring) : M unit :=
  let key := rate_key ip in
  let* current := kv_get key in
  let count := match current with Some c => parseInt c | None => None end in
  if truthy_str current &&
     match count with Some n => (limit <=? n)%Z | None => false end
  then throw rate_limit_error
  else
    let newCount :=
      (match count with Some n => n | None => 0 end + 1)%Z in
    kv_put key (String_of_int newCount) (Some 3600).

(** ** Submissions *)

Record Request := mkRequest {
  cf_connecting_ip : option jsstring;     (* header CF-Connecting-IP *)
  content_type : option jsstring;         (* header Content-Type *)
  body : jsstring;
  origin : jsstring                       (* new URL(request.url).origin *)
}.

Inductive ResponseBody :=
| BodyText (text : jsstring)
| BodyShare (id url : jsstring).          (* { success: true, id, url } *)

Record Response := mkResponse { status : N; payload : ResponseBody }.

(** [x || d] for strings that may be [null]. *)
Definition or_default (x : option jsstring) (d : jsstring) : jsstring :=
  match x with Some ((_ :: _) as s) => s | _ => d end.

Definition max_size : nat := 1024 * 1024.

(** [request.headers.get('CF-Connecting-IP') || 'unknown'] *)
Definition client_ip (request : Request) : jsstring :=
  or_default (cf_connecting_ip request) (str "unknown").

Section Submit.
Context `{Host}.

(** The text to normalise: [body.html || body.content] of [await
    request.json()] when the content type names JSON, [await request.text()]
    otherwise; or the message of the exception ([JSON.parse] fails; the body
    is [null], which has no properties). *)
Definition request_content (request : Request) : jsval + jsstring :=
  let contentType := or_default (content_type request) [] in
  if includes contentType (str "application/json") then
    match JSON_parse (body request) with
    | inr msg => inr msg
    | inl b =>
        if is_nullish b
        then inr (str "Cannot read properties of null (reading 'html')")
        else inl (if truthy (get_prop b (str "html"))
                  then get_prop b (str "html")
                  else get_prop b (str "content"))
    end
  else inl (VStr (body request)).

(** [await parseHtmlContent(htmlContent)], recorded in the trace. *)
Definition call_parse (html : jsstring) : M ParseResult :=
  fun w => (inl (parseHtmlContent html), emit (EvParse html) w).

(** [handlePost] *)
Definition handlePost (request : Request) : M Response :=
  let clientIP := client_ip request in
  let* _ := checkRateLimit clientIP in
  let* htmlContent := lift (request_content request) in
  let htmlContent := preprocessContent htmlContent in
  if Nat.eqb (length htmlContent) 0 then
    ret (mkResponse 400 (BodyText (str "No content provided")))
  else if Nat.ltb max_size (length htmlContent) then
    ret (mkResponse 413 (BodyText (str "Content too large (max 1MB)")))
  else
    let* id := generateUniqueId in
    let* parsedContent := call_parse htmlContent in
    let* created := now in
    let conversationData :=
      {| cd_id := id;
         cd_parsed := parsedContent;
         cd_raw := htmlContent;
         cd_format := or_default (Some (format parsedContent)) (str "raw");
         cd_created := created;
         cd_size := length htmlContent;
         cd_ip := clientIP |} in
    let* _ := kv_put id (JSON_stringify conversationData) None in
    ret (mkResponse 200 (BodyShare id (origin request ++ str "/" ++ id))).

End Submit.

(** ** A JSON reader

    A host instance to run the program on concrete inputs: the JSON grammar
    of ECMA-404, numbers read exactly (a double's rounding, overflow and
    underflow are not modelled), a repeated key keeping its last value. *)

Fixpoint json_ws (s : jsstring) : jsstring :=
  match s with
  | c :: s' => if (c =? 32) || (c =? 9) || (c =? 10) || (c =? 13)
               then json_ws s' else s
  | [] => []
  end.

Definition hex4 (a b c d : N) : option N :=
  match digit_value 16 a, digit_value 16 b, digit_value 16 c, digit_value 16 d with
  | Some x, Some y, Some z, Some t => Some (Z.to_N (((x * 16 + y) * 16 + z) * 16 + t))
  | _, _, _, _ => None
  end.

(** The characters of a string literal after its opening quote. *)
Fixpoint json_chars (s : jsstring) (fuel : nat) : option (jsstring * jsstring) :=
  match fuel with
  | O => None
  | S fuel' =>
      match s with
      | 34 :: t => Some ([], t)
      | 92 :: 117 :: a :: b :: c :: d :: t =>
          match hex4 a b c d, json_chars t fuel' with
          | Some u, Some (r, t') => Some (u :: r, t')
          | _, _ => None
          end
      | 92 :: e :: t =>
          let u := if e =? 34 then Some 34 else if e =? 92 then Some 92
                   else if e =? 47 then Some 47 else if e =? 98 then Some 8
                   else if e =? 102 then Some 12 else if e =? 110 then Some 10
                   else if e =? 114 then Some 13 else if e =? 116 then Some 9
                   else None in
          match u, json_chars t fuel' with
          | Some u, Some (r, t') => Some (u :: r, t')
          | _, _ => None
          end
      | c :: t =>
          if c <? 32 then None
          else match json_chars t fuel' with
               | Some (r, t') => Some (c :: r, t')
               | None => None
               end
      | [] => None
      end
  end.

Fixpoint take_digits (s : jsstring) : jsstring * jsstring :=
  match s with
  | c :: s' => if is_digit c
               then let '(d, r) := take_digits s' in (c :: d, r)
               else ([], s)
  | [] => ([], [])
  end.

Definition digits_value (d : jsstring) : Z :=
  fold_left (fun acc c => (acc * 10 + (Z.of_N c - 48))%Z) d 0%Z.

Definition json_number (s : jsstring) : option (Q * jsstring) :=
  let '(neg, s1) := match s with 45 :: t => (true, t) | _ => (false, s) end in
  let '(ip, s2) := take_digits s1 in
  match ip with
  | [] => None
  | 48 :: _ :: _ => None
  | _ =>
      let frac :=
        match s2 with
        | 46 :: t => let '(fp, s3) := take_digits t in
                     match fp with [] => None | _ => Some (fp, s3) end
        | _ => Some ([], s2)
        end in
      match frac with
      | None => None
      | Some (fp, s3) =>
          let ex :=
            match s3 with
            | 101 :: t | 69 :: t =>
                let '(eneg, t1) := match t with
                                   | 45 :: u => (true, u)
                                   | 43 :: u => (false, u)
                                   | _ => (false, t)
                                   end in
                let '(ed, s4) := take_digits t1 in
                match ed with
                | [] => None
                | _ => Some (if eneg then (- digits_value ed)%Z else digits_value ed, s4)
                end
            | _ => Some (0%Z, s3)
            end in
          match ex with
          | None => None
          | Some (e, s4) =>
              let mant := inject_Z (digits_value (ip ++ fp)) in
              let scale := (e - Z.of_nat (length fp))%Z in
              let v := (mant * Qpower (inject_Z 10) scale)%Q in
              Some (if neg then Qopp v else v, s4)
          end
      end
  end.

Fixpoint obj_set (key : jsstring) (v : jsval) (fields : list (jsstring * jsval))
    : list (jsstring * jsval) :=
  match fields with
  | [] => [(key, v)]
  | (k, x) :: fs => if jsstring_eqb k key then (k, v) :: fs
                    else (k, x) :: obj_set key v fs
  end.

Fixpoint json_value (fuel : nat) (s : jsstring) : option (jsval * jsstring) :=
  match fuel with
  | O => None
  | S f =>
      match json_ws s with
      | 123 :: t =>
          match json_ws t with
          | 125 :: t' => Some (VObj [], t')
          | _ => json_members f [] t
          end
      | 91 :: t =>
          match json_ws t with
          | 93 :: t' => Some (VArr [], t')
          | _ => json_elements f [] t
          end
      | 34 :: t =>
          match json_chars t (S (length t)) with
          | Some (r, t') => Some (VStr r, t')
          | None => None
          end
      | 116 :: 114 :: 117 :: 101 :: t => Some (VBool true, t)
      | 102 :: 97 :: 108 :: 115 :: 101 :: t => Some (VBool false, t)
      | 110 :: 117 :: 108 :: 108 :: t => Some (VNull, t)
      | s' =>
          match json_number s' with
          | Some (q, t) => Some (VNum q, t)
          | None => None
          end
      end
  end
with json_elements (fuel : nat) (acc : list jsval) (s : jsstring)
    : option (jsval * jsstring) :=
  match fuel with
  | O => None
  | S f =>
      match json_value f s with
      | Some (v, t) =>
          match json_ws t with
          | 44 :: t' => json_elements f (acc ++ [v]) t'
          | 93 :: t' => Some (VArr (acc ++ [v]), t')
          | _ => None
          end
      | None => None
      end
  end
with json_members (fuel : nat) (acc : list (jsstring * jsval)) (s : jsstring)
    : option (jsval * jsstring) :=
  match fuel with
  | O => None
  | S f =>
      match json_ws s with
      | 34 :: t =>
          match json_chars t (S (length t)) with
          | Some (key, t1) =>
              match json_ws t1 with
              | 58 :: t2 =>
                  match json_value f t2 with
                  | Some (v, t3) =>
                      match json_ws t3 with
                      | 44 :: t4 => json_members f (obj_set key v acc) t4
                      | 125 :: t4 => Some (VObj (obj_set key v acc), t4)
                      | _ => None
                      end
                  | None => None
                  end
              | _ => None
              end
          | None => None
          end
      | _ => None
      end
  end.

Definition json_read (s : jsstring) : jsval + jsstring :=
  match json_value (2 * length s + 2) s with
  | Some (v, t) =>
      match json_ws t with
      | [] => inl v
      | _ => inr (str "Unexpected non-whitespace character after JSON")
      end
  | None => inr (str "Unexpected token in JSON")
  end.

(** A host whose rewriter finds nothing to report and whose serialiser
    writes the identifier and the raw text. *)
Definition plain_host : Host :=
  {| JSON_parse := json_read;
     HTMLRewriter_events := fun _ => Some [];
     JSON_stringify := fun d => cd_id d ++ str ":" ++ cd_raw d |}.

(** ** The statements in the words of the specification *)

(** *** The parse cascade *)

(** The synonym set of the JSON tier. *)
Definition recognised (f : jsstring) : Prop :=
  f = str "human" \/ f = str "gpt" \/ f = str "user" \/ f = str "assistant".

(** An element of a valid conversation array: an object with string fields
    [from] (a recognised label) and [value]. *)
Definition conversation_item (item : jsval) (f v : jsstring) : Prop :=
  (exists fields, item = VObj fields) /\
  get_prop item (str "from") = VStr f /\
  get_prop item (str "value") = VStr v /\
  recognised f.

(** The role the synonym table gives a label. *)
Definition role_of_label (f : jsstring) : jsstring :=
  if bool_decide (f = str "human" \/ f = str "user")
  then str "user" else str "assistant".

(** The invariant of a parse result. *)
Definition count_invariant (r : ParseResult) : Prop :=
  messageCount r = Some (length (messages r)).

(** No pattern of the regex tier has a match. *)
Definition no_pattern_match (html : jsstring) : Prop :=
  Forall (fun p => matchAll (fst p) (snd p) html = []) patterns.

(** *** The host *)

(** No store operation throws. *)
Definition no_faults (w : World) : Prop := forall n, kv_fails w n = false.

(** [Math.random] keeps its contract: every value is in [0, 1). *)
Definition random_ok (w : World) : Prop :=
  forall n, (0 <= random w n)%Q /\ (random w n < 1)%Q.

(** What a computation appended to the trace. *)
Definition new_events (w w' : World) : list event :=
  skipn (length (trace w)) (trace w').

Definition is_get (e : event) : bool :=
  match e with EvGet _ => true | _ => false end.

(** The number of existence checks (store reads) among events. *)
Definition count_gets (evs : list event) : nat := length (List.filter is_get evs).

(** The keys of the existence checks (store reads) among events, in order:
    the identifiers that [generateUniqueId] generated and checked. *)
Definition checked (evs : list event) : list jsstring :=
  flat_map (fun e => match e with EvGet key => [key] | _ => [] end) evs.

(** The store holds a truthy value under the key. *)
Definition collides (w : World) (id : jsstring) : bool :=
  truthy_str (fst <$> kv w !! id).

Definition allocation_error : jsstring := str "Failed to generate unique ID".

(** The counter of a client as the store holds it, the number
    [parseInt(current) || 0] read from it, and the test of [checkRateLimit]. *)
Definition counter (w : World) (ip : jsstring) : option jsstring :=
  fst <$> kv w !! rate_key ip.

Definition count_of (current : option jsstring) : Z :=
  match current with
  | Some c => default 0%Z (parseInt c)
  | None => 0%Z
  end.

Definition limited (current : option jsstring) : bool :=
  truthy_str current &&
  match current with
  | Some c => match parseInt c with Some n => (limit <=? n)%Z | None => false end
  | None => false
  end.

(** [n] requests of one client, one after the other, with the outcome of
    each. *)
Fixpoint admit_many (n : nat) (ip : jsstring) (w : World)
    : list (unit + jsstring) * World :=
  match n with
  | O => ([], w)
  | S n' =>
      let '(r, w1) := checkRateLimit ip w in
      let '(rs, w2) := admit_many n' ip w1 in
      (r :: rs, w2)
  end.

(** The store holds the counter of a client who was admitted [j] times:
    nothing at first, then the number with its time to live. *)
Definition counter_is (w : World) (ip : jsstring) (j : nat) : Prop :=
  kv w !! rate_key ip =
  match j with
  | O => None
  | S _ => Some (String_of_int (Z.of_nat j), Some 3600)
  end.

(** The worlds right after the read and after the write of
    [checkRateLimit]. *)
Definition after_get (key : jsstring) (w : World) : World :=
  mkWorld (kv w) (random w) (drawn w) (clock w) (kv_fails w) (S (kv_ops w))
          (trace w ++ [EvGet key]).

Definition after_put (key value : jsstring) (ttl : option N) (stored : bool)
    (w : World) : World :=
  mkWorld (if stored then <[key := (value, ttl)]> (kv w) else kv w)
          (random w) (drawn w) (clock w) (kv_fails w) (S (kv_ops w))
          (trace w ++ [EvPut key value ttl]).

(** The characters the specification calls visually ambiguous. *)
Definition ambiguous : jsstring := str "0O1lI".

(** Two more characters that the alphabet of the source leaves out. *)
Definition also_left_out : jsstring := str "oL".

(** The world after [n] calls of [Math.random], and what [n] calls of [pick]
    give. *)
Definition skip_random (n : nat) (w : World) : World :=
  mkWorld (kv w) (random w) (drawn w + n) (clock w) (kv_fails w) (kv_ops w)
          (trace w ++ repeat EvRandom n).

Definition draws (w : World) (n : nat) : jsstring :=
  flat_map (fun j => pick (random w (drawn w + j))) (seq 0 n).

(** The world after one attempt of [generateUniqueId]. *)
Definition after_attempt (w : World) : World :=
  mkWorld (kv w) (random w) (drawn w + 8) (clock w) (kv_fails w) (S (kv_ops w))
          (trace w ++ repeat EvRandom 8 ++ [EvGet (draws w 8)]).

(** The object that [handlePost] builds for the identifier [id] and the
    normalised text [html], and the responses it sends. *)
Definition record_of `{Host} (request : Request) (w : World) (id html : jsstring)
    : ConversationData :=
  {| cd_id := id;
     cd_parsed := parseHtmlContent html;
     cd_raw := html;
     cd_format := or_default (Some (format (parseHtmlContent html))) (str "raw");
     cd_created := clock w;
     cd_size := length html;
     cd_ip := client_ip request |}.

Definition no_content : Response :=
  mkResponse 400 (BodyText (str "No content provided")).

Definition too_large : Response :=
  mkResponse 413 (BodyText (str "Content too large (max 1MB)")).

Definition shared (request : Request) (id : jsstring) : Response :=
  mkResponse 200 (BodyShare id (origin request ++ str "/" ++ id)).

(** A computation handed the text to [parseHtmlContent]. *)
Definition parse_invoked (w w' : World) : Prop :=
  exists html, In (EvParse html) (new_events w w').

(** ** Text in normal form

    The shape of text on which none of the cleaner's passes has anything left
    to do.  It is stated position by position: [prev] is the code unit before
    the position ([None] at the start) and [s] the text from it on. *)

Definition is_zero_width (c : N) : bool :=
  ((0x200B <=? c) && (c <=? 0x200D)) || (c =? 0xFEFF).

(** Not a zero-width character, and no white space other than the space and
    the line feed. *)
Definition plain_char (c : N) : bool :=
  negb (is_zero_width c) &&
  (negb (is_space c) || (c =? 32) || (c =? 10)).

(** The text starts with one of the entities that the cleaner decodes. *)
Definition entity_start (s : jsstring) : bool :=
  existsb (fun e => starts_with (fst e) s) clean_entities.

(** A code unit that is there and is not white space. *)
Definition solid (o : option N) : bool :=
  match o with Some c => negb (is_space c) | None => false end.

Definition line_start (prev : option N) : bool :=
  match prev with None => true | Some c => is_line_terminator c end.

(** The length of the longest prefix whose code units satisfy [p]. *)
Fixpoint run_length (p : N -> bool) (s : jsstring) : nat :=
  match s with
  | c :: s' => if p c then S (run_length p s') else O
  | [] => O
  end.

(** At least ten hyphens and then at least ten digits: the start of a
    multipart boundary. *)
Definition boundary_start (s : jsstring) : bool :=
  Nat.leb 10 (run_length (N.eqb 45) s) &&
  Nat.leb 10 (run_length is_digit (skipn (run_length (N.eqb 45) s) s)).

(** The beginning of a line that one of the first three passes may delete. *)
Definition artefact_start (s : jsstring) : bool :=
  starts_with (str "Content-") s || starts_with (str "boundary=") s ||
  boundary_start s.

Definition position_ok (prev : option N) (s : jsstring) : bool :=
  match s with
  | [] => match prev with None => true | Some _ => solid prev end
  | c :: s' =>
      plain_char c &&
      (* a space stands between two code units that are not white space *)
      (if c =? 32 then solid prev && solid (head s') else true) &&
      (* a line feed is neither first nor last nor the first of three *)
      (if c =? 10
       then match prev with None => false | Some _ => true end &&
            match s' with [] => false | _ :: _ => true end &&
            negb (starts_with [10; 10] s')
       else true) &&
      (if line_start prev then negb (artefact_start s) else true) &&
      (* a [<] opens no tag: no [>] comes after it *)
      (if c =? 60 then negb (existsb (N.eqb 62) s') else true) &&
      (* a [&] starts no entity of the table *)
      (if c =? 38 then negb (entity_start s) else true)
  end.

Fixpoint normal_from (prev : option N) (s : jsstring) : bool :=
  position_ok prev s &&
  match s with
  | [] => true
  | c :: s' => normal_from (Some c) s'
  end.

Definition normal (s : jsstring) : bool := normal_from None s.

(** The position after the code units [pre], with [post] still to come. *)
Definition after (x : mstate) (pre post : jsstring) : mstate :=
  MState (fold_left (fun _ c => Some c) pre (m_prev x)) post (m_caps x).

(** A matcher looks at its continuation only at positions that are not
    before its own. *)
Definition forward (mr : (mstate -> option mstate) -> mstate -> option mstate) : Prop :=
  forall k k' x,
    (forall y, (length (m_rest y) <= length (m_rest x))%nat -> k y = k' y) ->
    mr k x = mr k' x.

(** A pattern that cannot match unless the next code unit satisfies [p]. *)
Definition needs_first (fl : flags) (r : regex) (p : N -> bool) : Prop :=
  forall k st,
    match m_rest st with c :: _ => p c = false | [] => True end ->
    m fl r k st = None.

(** A pattern that cannot match unless the code unit [a] is still to come. *)
Definition needs_unit (fl : flags) (r : regex) (a : N) : Prop :=
  forall k st, m fl r k st <> None -> existsb (chr_match fl a) (m_rest st) = true.

(** The cleaner as a function from strings to strings. *)
Definition clean (x : jsstring) : jsstring := cleanHtmlContent (VStr x).

(** A pass leaves normal text as it is. *)
Definition fixes (pass : jsstring -> jsstring) : Prop :=
  forall s, normal s = true -> pass s = s.

(** ** Inputs used below *)

Definition two_turns : jsstring :=
  dq "[{'from':'human','value':'hi'},{'from':'gpt','value':'<b>hello</b>'}]".

Definition two_turns_data : list jsval :=
  [VObj [(str "from", VStr (str "human")); (str "value", VStr (str "hi"))];
   VObj [(str "from", VStr (str "gpt")); (str "value", VStr (str "<b>hello</b>"))]].

Definition nested_script : jsstring :=
  str "<scr<script></script>ipt>alert(1)</script>".

Definition bare_handler : jsstring := str "<img src=x onerror=alert(1)>".

Definition nested_scheme : jsstring := str "<a href=javajavascript:script:alert(1)>".

(** A store that holds the identifier which a random source stuck at zero
    draws, and an empty store with a source that moves. *)
Definition colliding_world : World :=
  mkWorld {[ str "aaaaaaaa" := (str "{}", None) ]} (fun _ => 0%Q) 0 (str "2025-01-01T00:00:00.000Z")
          (fun _ => false) 0 [].

Definition fresh_world : World :=
  mkWorld ∅ (fun n => (Z.of_nat n # 60)%Q) 0 (str "2025-01-01T00:00:00.000Z")
          (fun _ => false) 0 [].

(** A store that holds the first identifier drawn from a random source that
    runs through the sixty-fourths below one again and again, so that the
    second identifier is the one returned. *)
Definition cycling_world : World :=
  mkWorld {[ str "aabcdefg" := (str "{}", None) ]}
          (fun n => (Z.of_nat (n mod 64) # 64)%Q) 0 (str "2025-01-01T00:00:00.000Z")
          (fun _ => false) 0 [].

(** Submissions: plain text; a body announced as JSON that is not JSON. *)
Definition hello_request : Request :=
  mkRequest (Some (str "203.0.113.7")) (Some (str "text/plain"))
            (str "hello") (str "https://share.example").

Definition bad_json_request : Request :=
  mkRequest (Some (str "203.0.113.7")) (Some (str "application/json"))
            (str "oops") (str "https://share.example").

(** ** Retrieval

    [handleGet], [generateConversationHtml] and the router [handleRequest]. *)

(** [r.test(s)] for a pattern without the [g] and [y] flags: the match may
    start at any position, the positions being tried from the left. *)
Fixpoint test_go (fl : flags) (r : regex) (prev : option N) (s : jsstring)
    {struct s} : bool :=
  match exec fl r prev s with
  | Some _ => true
  | None =>
      match s with
      | [] => false
      | c :: s' => test_go fl r (Some c) s'
      end
  end.

Definition test (fl : flags) (r : regex) (s : jsstring) : bool :=
  test_go fl r None s.

Definition no_flags : flags := Flags false false.

(** [/^[a-zA-Z0-9]{8}$/] *)
Definition id_pattern : regex :=
  seqs [Bol;
        Quant 8 (Some 8%nat) true
              (Class false [CRange 97 122; CRange 65 90; CRange 48 57]);
        Eol].

(** The header objects of the source, as lists of fields. *)
Definition corsHeaders : list (jsstring * jsstring) :=
  [ (str "Access-Control-Allow-Origin", str "*");
    (str "Access-Control-Allow-Methods", str "GET, POST, OPTIONS");
    (str "Access-Control-Allow-Headers", str "Content-Type") ].

Definition json_headers : list (jsstring * jsstring) :=
  corsHeaders ++ [ (str "Content-Type", str "application/json") ].

Definition form_headers : list (jsstring * jsstring) :=
  corsHeaders ++ [ (str "Content-Type", str "text/html") ].

Definition page_headers : list (jsstring * jsstring) :=
  corsHeaders ++ [ (str "Content-Type", str "text/html; charset=utf-8");
                   (str "Cache-Control", str "public, max-age=3600") ].

(** The conversions of a value to text that the program leaves to the
    host, each with the message of the TypeError it may throw (an object
    whose [toString] and [valueOf] are not functions has no primitive value):
    - [ToString] is the conversion that a template literal and the
      constructor of a response body apply to a value that is not a string;
    - [Date_toLocaleString v] is [new Date(v).toLocaleString()];
    - [Math_round_kb v] is the text of [Math.round(v / 1024)]. *)
Class Conversions := {
  ToString : jsval -> jsstring + jsstring;
  Date_toLocaleString : jsval -> jsstring + jsstring;
  Math_round_kb : jsval -> jsstring + jsstring
}.

(** The page that [generateConversationHtml] returns is a fixed text with six
    holes; a page is given by the texts that fill them: the identifier (used
    twice), the blocks of the messages, the time of creation, the number of
    messages and the size in kilobytes. *)
Record Page := mkPage {
  page_id : jsstring;
  page_messages : jsstring;
  page_created : jsstring;
  page_count : nat;
  page_kb : jsstring
}.

(** The body of a response: none, a text or the share object (the bodies
    of [handlePost]), the conversation page, or the text of
    [getUploadForm()]. *)
Inductive Body :=
| BodyNull
| BodyOf (b : ResponseBody)
| BodyPage (page : Page)
| BodyForm.

Record Reply := mkReply {
  reply_status : N;
  reply_body : Body;
  reply_headers : list (jsstring * jsstring)
}.

Definition text_reply (status : N) (text : jsstring) : Reply :=
  mkReply status (BodyOf (BodyText text)) corsHeaders.

(** The message of the TypeError for [v.prop] when [v] is [null] or
    [undefined]. *)
Definition cannot_read (v : jsval) (prop : jsstring) : jsstring :=
  str "Cannot read properties of " ++
  (match v with VNull => str "null" | _ => str "undefined" end) ++
  str " (reading '" ++ prop ++ str "')".

(** [v.prop] *)
Definition read (v : jsval) (prop : jsstring) : jsval + jsstring :=
  if is_nullish v then inr (cannot_read v prop) else inl (get_prop v prop).

Definition is_high_surrogate (c : N) : bool := (0xD800 <=? c) && (c <=? 0xDBFF).
Definition is_low_surrogate (c : N) : bool := (0xDC00 <=? c) && (c <=? 0xDFFF).

(** The strings that iterating over a string yields: its code points. *)
Fixpoint code_points (s : jsstring) : list jsstring :=
  match s with
  | [] => []
  | a :: s' =>
      match s' with
      | b :: s'' =>
          if is_high_surrogate a && is_low_surrogate b
          then [a; b] :: code_points s''
          else [a] :: code_points s'
      | [] => [[a]]
      end
  end.

(** The text that one round of [for (const message of messages)] appends. *)
Definition message_html (user : bool) (content : jsstring) : jsstring :=
  [10] ++
  dq "      <div class='message " ++
  (if user then str "user-message" else str "assistant-message") ++ dq "'>" ++ [10] ++
  dq "        <div class='role-label'>" ++
  (if user then str "User" else str "Assistant") ++ str "</div>" ++ [10] ++
  dq "        <div class='content'>" ++ content ++ str "</div>" ++ [10] ++
  str "      </div>" ++ [10] ++
  str "    ".

(** One round of the loop: [message.role] throws when the element is [null]. *)
Definition message_block (message : jsval) : jsstring + jsstring :=
  if is_nullish message then inr (cannot_read message (str "role"))
  else inl (message_html (str_is (get_prop message (str "role")) (str "user"))
                         (sanitizeHtmlContent (get_prop message (str "content")))).

Fixpoint message_blocks (items : list jsval) (messagesHtml : jsstring)
    : jsstring + jsstring :=
  match items with
  | [] => inl messagesHtml
  | message :: rest =>
      match message_block message with
      | inl block => message_blocks rest (messagesHtml ++ block)
      | inr e => inr e
      end
  end.

(** What [for ... of] runs over, with [messages.length]: the elements of an
    array, the code points of a string; anything else is not iterable. *)
Definition iterate (messages : jsval) : list jsval * nat + jsstring :=
  match messages with
  | VArr items => inl (items, length items)
  | VStr s => inl (map VStr (code_points s), length s)
  | _ => inr (str "messages is not iterable")
  end.

Section Render.
Context `{Conversions}.

(** The text of a value in a template literal. *)
Definition to_text (v : jsval) : jsstring + jsstring :=
  match v with
  | VStr s => inl s
  | _ => ToString v
  end.

(** [new Response(v, ...)]: no body for [null] and [undefined], the text of
    any other value. *)
Definition response_body (v : jsval) : Body + jsstring :=
  match v with
  | VUndefined | VNull => inl BodyNull
  | _ => match to_text v with
         | inl text => inl (BodyOf (BodyText text))
         | inr e => inr e
         end
  end.

(** [generateConversationHtml] *)
Definition generateConversationHtml (conversationData : jsval) : Page + jsstring :=
  match read conversationData (str "content") with
  | inr e => inr e
  | inl content =>
      if is_nullish content
      then inr (str "Cannot destructure property 'parsed' of 'conversationData.content' as it is " ++
                match content with VNull => str "null" | _ => str "undefined" end ++ str ".")
      else
        let parsed := get_prop content (str "parsed") in
        let metadata := get_prop content (str "metadata") in
        match read parsed (str "messages") with
        | inr e => inr e
        | inl found =>
            let messages := if truthy found then found else VArr [] in
            match iterate messages with
            | inr e => inr e
            | inl (items, count) =>
                match message_blocks items [] with
                | inr e => inr e
                | inl messagesHtml =>
                    match to_text (get_prop conversationData (str "id")) with
                    | inr e => inr e
                    | inl id =>
                        match read metadata (str "created") with
                        | inr e => inr e
                        | inl created =>
                            match Date_toLocaleString created with
                            | inr e => inr e
                            | inl date =>
                                match Math_round_kb (get_prop metadata (str "size")) with
                                | inr e => inr e
                                | inl kb =>
                                    inl {| page_id := id;
                                           page_messages := messagesHtml;
                                           page_created := date;
                                           page_count := count;
                                           page_kb := kb |}
                                end
                            end
                        end
                    end
                end
            end
        end
  end.

End Render.

(** The request as [handleRequest] sees it: its method, the path name of its
    URL, and the parts that [handlePost] reads. *)
Record Incoming := mkIncoming {
  method : jsstring;
  pathname : jsstring;
  submission : Request
}.

(** The response of [handlePost] with the headers it is given there. *)
Definition reply_of_post (r : Response) : Reply :=
  mkReply (status r) (BodyOf (payload r))
          (match payload r with
           | BodyText _ => corsHeaders
           | BodyShare _ _ => json_headers
           end).

(** [try { ... } catch (error) { ... }] of [handleRequest]: an exception
    becomes the answer with status 500 (the line that [console.error]
    writes is not part of the model, as for the other handlers). *)
Definition caught (c : M Reply) : M Reply :=
  fun w =>
    match c w with
    | (inl r, w') => (inl r, w')
    | (inr message, w') => (inl (text_reply 500 (str "Error: " ++ message)), w')
    end.

Section Retrieve.
Context `{Host} `{Conversions}.

(** [handleGet] *)
Definition handleGet (id : jsstring) (rawMode : bool) : M Reply :=
  if negb (test no_flags id_pattern id) then
    ret (text_reply 400 (str "Invalid conversation ID"))
  else
    let* data := kv_get id in
    if negb (truthy_str data) then
      ret (text_reply 404 (str "Conversation not found"))
    else
      let* conversationData := lift (JSON_parse (default [] data)) in
      let* content := lift (read conversationData (str "content")) in
      let* raw_wanted :=
        if rawMode then ret true
        else let* format := lift (read content (str "format")) in
             ret (str_is format (str "raw")) in
      if raw_wanted : bool then
        let* raw := lift (read content (str "raw")) in
        let* body := lift (response_body raw) in
        ret (mkReply 200 body page_headers)
      else
        let* page := lift (generateConversationHtml conversationData) in
        ret (mkReply 200 (BodyPage page) page_headers).

(** The [try] block of [handleRequest]. *)
Definition route (request : Incoming) : M Reply :=
  let path := pathname request in
  if jsstring_eqb (method request) (str "POST") && jsstring_eqb path (str "/") then
    let* r := handlePost (submission request) in ret (reply_of_post r)
  else if jsstring_eqb (method request) (str "GET") && starts_with (str "/raw/") path then
    handleGet (skipn 5 path) true
  else if jsstring_eqb (method request) (str "GET") && Nat.ltb 1 (length path) then
    handleGet (skipn 1 path) false
  else if jsstring_eqb (method request) (str "GET") && jsstring_eqb path (str "/") then
    ret (mkReply 200 BodyForm form_headers)
  else
    ret (text_reply 404 (str "Not Found")).

(** [handleRequest] *)
Definition handleRequest (request : Incoming) : M Reply :=
  if jsstring_eqb (method request) (str "OPTIONS") then
    ret (mkReply 200 BodyNull corsHeaders)
  else
    caught (route request).

End Retrieve.

(** ** The stored record as a value

    The object [conversationData] of [handlePost], field by field: what
    [JSON.parse] gives back for the text that [JSON.stringify] wrote.
    Fields whose value is [undefined] are not written. *)

Definition nat_value (n : nat) : jsval := VNum (inject_Z (Z.of_nat n)).

Definition message_value (m : Message) : jsval :=
  VObj [ (str "role", VStr (role m)); (str "content", VStr (content m)) ].

Definition parsed_value (r : ParseResult) : jsval :=
  VObj ([ (str "messages", VArr (map message_value (messages r)));
          (str "format", VStr (format r)) ] ++
        match messageCount r with
        | Some n => [ (str "messageCount", nat_value n) ]
        | None => []
        end ++
        match error r with
        | Some e => [ (str "error", VStr e) ]
        | None => []
        end).

Definition metadata_value (d : ConversationData) : jsval :=
  VObj [ (str "created", VStr (cd_created d));
         (str "size", nat_value (cd_size d));
         (str "ip", VStr (cd_ip d)) ].

Definition content_value (d : ConversationData) : jsval :=
  VObj [ (str "parsed", parsed_value (cd_parsed d));
         (str "raw", VStr (cd_raw d));
         (str "format", VStr (cd_format d));
         (str "metadata", metadata_value d) ].

Definition record_value (d : ConversationData) : jsval :=
  VObj [ (str "id", VStr (cd_id d)); (str "content", content_value d) ].

(** The contract of the serialiser that retrieval relies on, at one
    record: the text is not empty and is read back as the record. *)
Definition reads_back `{Host} (d : ConversationData) : Prop :=
  JSON_stringify d <> [] /\
  JSON_parse (JSON_stringify d) = inl (record_value d).

(** ** A JSON writer

    [JSON.stringify] on the stored record, for a host that runs both
    handlers on concrete inputs. *)

Definition hex_digit (d : N) : N := if d <? 10 then 48 + d else 87 + d.

Definition unicode_escape (c : N) : jsstring :=
  [92; 117; hex_digit (c / 4096); hex_digit ((c / 256) mod 16);
   hex_digit ((c / 16) mod 16); hex_digit (c mod 16)].

Definition json_escape (c : N) : jsstring :=
  if c =? 34 then [92; 34]
  else if c =? 92 then [92; 92]
  else if c =? 8 then [92; 98]
  else if c =? 12 then [92; 102]
  else if c =? 10 then [92; 110]
  else if c =? 13 then [92; 114]
  else if c =? 9 then [92; 116]
  else if c <? 32 then unicode_escape c
  else [c].

(** The characters of a string literal: surrogate pairs as they are, lone
    surrogates escaped. *)
Fixpoint json_quote_chars (s : jsstring) : jsstring :=
  match s with
  | [] => []
  | a :: s' =>
      if is_high_surrogate a then
        match s' with
        | b :: s'' =>
            if is_low_surrogate b then a :: b :: json_quote_chars s''
            else unicode_escape a ++ json_quote_chars s'
        | [] => unicode_escape a
        end
      else if is_low_surrogate a then unicode_escape a ++ json_quote_chars s'
      else json_escape a ++ json_quote_chars s'
  end.

Definition json_string (s : jsstring) : jsstring := [34] ++ json_quote_chars s ++ [34].

Fixpoint json_join (items : list jsstring) : jsstring :=
  match items with
  | [] => []
  | [x] => x
  | x :: rest => x ++ [44] ++ json_join rest
  end.

Definition json_array (items : list jsstring) : jsstring :=
  [91] ++ json_join items ++ [93].

Definition json_object (fields : list (jsstring * jsstring)) : jsstring :=
  [123] ++ json_join (map (fun f => json_string (fst f) ++ [58] ++ snd f) fields) ++ [125].

Definition json_nat (n : nat) : jsstring := String_of_int (Z.of_nat n).

Definition write_message (m : Message) : jsstring :=
  json_object [ (str "role", json_string (role m));
                (str "content", json_string (content m)) ].

Definition write_parsed (r : ParseResult) : jsstring :=
  json_object ([ (str "messages", json_array (map write_message (messages r)));
                 (str "format", json_string (format r)) ] ++
               match messageCount r with
               | Some n => [ (str "messageCount", json_nat n) ]
               | None => []
               end ++
               match error r with
               | Some e => [ (str "error", json_string e) ]
               | None => []
               end).

Definition write_record (d : ConversationData) : jsstring :=
  json_object
    [ (str "id", json_string (cd_id d));
      (str "content",
       json_object
         [ (str "parsed", write_parsed (cd_parsed d));
           (str "raw", json_string (cd_raw d));
           (str "format", json_string (cd_format d));
           (str "metadata",
            json_object [ (str "created", json_string (cd_created d));
                          (str "size", json_nat (cd_size d));
                          (str "ip", json_string (cd_ip d)) ]) ]) ].

(** A host that writes records as JSON and reads JSON; its rewriter finds
    nothing to report. *)
Definition json_host : Host :=
  {| JSON_parse := json_read;
     HTMLRewriter_events := fun _ => Some [];
     JSON_stringify := write_record |}.

(** Conversions for the values of a stored record: the locale shows a time
    as it is stored, and [Math.round] rounds half up.  Numbers, arrays and
    objects are given no text here; the pages of stored records ask for
    none. *)
Definition plain_conversions : Conversions :=
  {| ToString := fun v =>
       match v with
       | VUndefined => inl (str "undefined")
       | VNull => inl (str "null")
       | VBool b => inl (if b then str "true" else str "false")
       | _ => inr (str "Cannot convert object to primitive value")
       end;
     Date_toLocaleString := fun v =>
       match v with
       | VStr s => inl s
       | _ => inl (str "Invalid Date")
       end;
     Math_round_kb := fun v =>
       match v with
       | VNum q => inl (String_of_int (Qfloor (q / 1024 + 1 / 2)))
       | _ => inl (str "NaN")
       end |}.

(** ** More statements and inputs *)

(** The least number of rounds of a loop, and the least number of code
    units that a match of a pattern takes. *)
Definition least_rounds (mn : nat) (mx : option nat) : nat :=
  match mx with
  | Some m => Nat.min mn m
  | None => mn
  end.

Fixpoint min_length (r : regex) : nat :=
  match r with
  | Eps | Bol | Eol | Lookahead _ => 0
  | Chr _ | Dot | Class _ _ => 1
  | Seq a b => min_length a + min_length b
  | Alt a b => Nat.min (min_length a) (min_length b)
  | Quant mn mx _ a => least_rounds mn mx * min_length a
  | Group _ a => min_length a
  end.

(** The texts that a pattern can match, read off its syntax: what the
    matcher consumes between the start of a match of the pattern and its
    end.  Assertions consume nothing; a loop consumes the texts of its
    rounds. *)
Fixpoint lang (fl : flags) (r : regex) (t : jsstring) {struct r} : Prop :=
  match r with
  | Eps | Bol | Eol | Lookahead _ => t = []
  | Chr a => exists c, t = [c] /\ chr_match fl a c = true
  | Dot => exists c, t = [c] /\ is_line_terminator c = false
  | Class neg items => exists c, t = [c] /\ class_match fl neg items c = true
  | Seq a b => exists t1 t2, t = t1 ++ t2 /\ lang fl a t1 /\ lang fl b t2
  | Alt a b => lang fl a t \/ lang fl b t
  | Quant _ _ _ a => exists ts, t = concat ts /\ Forall (lang fl a) ts
  | Group _ a => lang fl a t
  end.

(** The capture groups of a pattern with their bodies. *)
Fixpoint subgroups (r : regex) : list (nat * regex) :=
  match r with
  | Seq a b | Alt a b => subgroups a ++ subgroups b
  | Quant _ _ _ a | Lookahead a => subgroups a
  | Group i a => (i, a) :: subgroups a
  | _ => []
  end.

(** Every capture is one that was there or the text of a group of the
    pattern. *)
Definition caps_from (fl : flags) (r : regex) (old new : list (nat * jsstring)) : Prop :=
  forall i g, In (i, g) new ->
    In (i, g) old \/ exists r', In (i, r') (subgroups r) /\ lang fl r' g.

(** The roles that [parseHtmlContent] gives to messages. *)
Definition known_roles : list jsstring :=
  [str "user"; str "assistant"; str "human"; str "ai"; str "unknown"].

(** A pass that never returns more code units than it was given. *)
Definition shrinking (pass : jsstring -> jsstring) : Prop :=
  forall s, (length (pass s) <= length s)%nat.

(** A pass that only deletes. *)
Definition deleting (pass : jsstring -> jsstring) : Prop :=
  forall s, sublist (pass s) s.

(** A run of code units that satisfy [p] becomes one space; [in_run] tells
    whether the code unit before belonged to such a run. *)
Fixpoint squeeze (p : N -> bool) (in_run : bool) (s : jsstring) : jsstring :=
  match s with
  | [] => []
  | c :: s' =>
      if p c then (if in_run then squeeze p true s' else 32 :: squeeze p true s')
      else c :: squeeze p false s'
  end.

Definition is_alnum (c : N) : bool := is_lower c || is_upper c || is_digit c.

(** The identifier has the form that [handleGet] asks for. *)
Definition well_formed_id (id : jsstring) : Prop :=
  length id = 8%nat /\ forallb is_alnum id = true.

(** No two neighbours are both spaces. *)
Fixpoint single_spaced (s : jsstring) : bool :=
  match s with
  | a :: ((b :: _) as s') => negb ((a =? 32) && (b =? 32)) && single_spaced s'
  | _ => true
  end.

(** The blocks of the messages of a parse result. *)
Definition blocks_of (r : ParseResult) : jsstring :=
  flat_map (fun m => message_html (jsstring_eqb (role m) (str "user"))
                                  (sanitizeHtmlContent (VStr (content m))))
           (messages r).

(** An empty store with a random source stuck at zero. *)
Definition empty_world : World :=
  mkWorld ∅ (fun _ => 0%Q) 0 (str "2025-01-01T00:00:00.000Z") (fun _ => false) 0 [].

(** A store that holds a record under the first identifier that the random
    source of [fresh_world] draws. *)
Definition occupied_world : World :=
  mkWorld {[ str "aabcdefg" := (str "{}", None) ]} (fun n => (Z.of_nat n # 60)%Q) 0
          (str "2025-01-01T00:00:00.000Z") (fun _ => false) 0 [].

(** A store in which the client has used up the ten requests. *)
Definition limited_world : World :=
  mkWorld {[ rate_key (str "203.0.113.7") := (str "10", Some 3600) ]}
          (fun n => (Z.of_nat n # 60)%Q) 0 (str "2025-01-01T00:00:00.000Z")
          (fun _ => false) 0 [].

Definition post_to_root (request : Request) : Incoming :=
  mkIncoming (str "POST") (str "/") request.

Definition get_path (path : jsstring) : Incoming :=
  mkIncoming (str "GET") path (mkRequest None None [] []).

(** The events of a rewriter that delivers one text node in chunks. *)
Definition text_node (chunks : list jsstring) (last : jsstring) : list rw_event :=
  map (fun c => EvText c false) chunks ++ [EvText last true].

Definition blank_request : Request :=
  mkRequest (Some (str "203.0.113.7")) (Some (str "text/plain"))
            [32; 10; 9; 32] (str "https://share.example").

(* ------------------------------------------------------------------ *)
(** * Properties *)

(** ** The matcher *)

(** The equations of the matcher that the proofs below rewrite with. *)
Lemma m_seq fl r1 r2 k st : m fl (Seq r1 r2) k st = m fl r1 (m fl r2 k) st.
Proof. reflexivity. Qed.

Lemma m_eps fl k st : m fl Eps k st = k st.
Proof. reflexivity. Qed.

Lemma m_bol fl k st : m fl Bol k st = if at_bol fl st then k st else None.
Proof. reflexivity. Qed.

Lemma m_eol fl k st : m fl Eol k st = if at_eol fl st then k st else None.
Proof. reflexivity. Qed.

Lemma m_chr fl a k st : m fl (Chr a) k st = step st (chr_match fl a) k.
Proof. reflexivity. Qed.

Lemma m_class fl neg items k st :
  m fl (Class neg items) k st = step st (class_match fl neg items) k.
Proof. reflexivity. Qed.

Lemma m_quant fl mn mx g r k st :
  m fl (Quant mn mx g r) k st =
  repeat_matcher (m fl r) (groups r) g k (mn + S (length (m_rest st))) mn mx st.
Proof. reflexivity. Qed.

Lemma seqs_cons r rs : seqs (r :: rs) = Seq r (seqs rs).
Proof. reflexivity. Qed.

Lemma lit_cons a w : lit (a :: w) = Seq (Chr a) (lit w).
Proof. reflexivity. Qed.

(** *** The fuel of the quantifier loop *)


Lemma clear_caps_rest gs x : m_rest (clear_caps gs x) = m_rest x.
Proof. reflexivity. Qed.

Lemma repeat_matcher_forward mr gs g fuel :
  forward mr -> forall mn mx, forward (fun k => repeat_matcher mr gs g k fuel mn mx).
Proof.
  intros Hmr. induction fuel as [| fuel IH]; intros mn mx k k' x Hk; [reflexivity |].
  cbn [repeat_matcher].
  assert (Hx : k x = k' x) by (apply Hk; lia).
  assert (Hd : mr (fun y => if Nat.eqb mn 0 &&
                               Nat.eqb (length (m_rest y)) (length (m_rest x))
                            then None
                            else repeat_matcher mr gs g k fuel (Nat.pred mn)
                                                (option_map Nat.pred mx) y)
                  (clear_caps gs x) =
               mr (fun y => if Nat.eqb mn 0 &&
                               Nat.eqb (length (m_rest y)) (length (m_rest x))
                            then None
                            else repeat_matcher mr gs g k' fuel (Nat.pred mn)
                                                (option_map Nat.pred mx) y)
                  (clear_caps gs x)).
  { apply Hmr. intros y Hy. rewrite clear_caps_rest in Hy.
    destruct (_ && _); [reflexivity |].
    apply (IH (Nat.pred mn) (option_map Nat.pred mx) k k' y).
    intros z Hz. apply Hk. lia. }
  rewrite Hd, Hx. reflexivity.
Qed.

Lemma step_forward p : forward (fun k x => step x p k).
Proof.
  intros k k' x Hk. unfold step. destruct (m_rest x) as [| c s] eqn:Hx; [reflexivity |].
  destruct (p c); [| reflexivity]. apply Hk. cbn [m_rest length]. lia.
Qed.

Lemma m_forward fl r : forward (m fl r).
Proof.
  induction r as [| a | | neg items | r1 IH1 r2 IH2 | r1 IH1 r2 IH2
                 | mn mx g r IH | i r IH | | | r IH];
    intros k k' x Hk.
  - rewrite !m_eps. apply Hk. lia.
  - rewrite !m_chr. by apply step_forward.
  - cbn [m]. by apply step_forward.
  - rewrite !m_class. by apply step_forward.
  - rewrite !m_seq. apply IH1. intros y Hy. apply IH2.
    intros z Hz. apply Hk. lia.
  - cbn [m]. rewrite (IH1 k k' x Hk), (IH2 k k' x Hk). reflexivity.
  - rewrite !m_quant. by apply (repeat_matcher_forward _ _ _ _ IH).
  - cbn [m]. apply IH. intros y Hy. apply Hk. cbn [m_rest]. exact Hy.
  - rewrite !m_bol. rewrite (Hk x); [reflexivity | lia].
  - rewrite !m_eol. rewrite (Hk x); [reflexivity | lia].
  - cbn [m]. destruct (m fl r Some x); [| reflexivity]. apply Hk. cbn [m_rest]. lia.
Qed.

(** More fuel than [mn] plus the remaining length changes nothing: the loop
    never ends for lack of fuel. *)
Lemma repeat_matcher_fuel mr gs g k :
  forward mr ->
  forall fuel1 fuel2 mn mx x,
    (mn + length (m_rest x) < fuel1)%nat ->
    (mn + length (m_rest x) < fuel2)%nat ->
    repeat_matcher mr gs g k fuel1 mn mx x = repeat_matcher mr gs g k fuel2 mn mx x.
Proof.
  intros Hmr. induction fuel1 as [| fuel1 IH]; intros fuel2 mn mx x H1 H2; [lia |].
  destruct fuel2 as [| fuel2]; [lia |].
  cbn [repeat_matcher].
  assert (Hd : mr (fun y => if Nat.eqb mn 0 &&
                               Nat.eqb (length (m_rest y)) (length (m_rest x))
                            then None
                            else repeat_matcher mr gs g k fuel1 (Nat.pred mn)
                                                (option_map Nat.pred mx) y)
                  (clear_caps gs x) =
               mr (fun y => if Nat.eqb mn 0 &&
                               Nat.eqb (length (m_rest y)) (length (m_rest x))
                            then None
                            else repeat_matcher mr gs g k fuel2 (Nat.pred mn)
                                                (option_map Nat.pred mx) y)
                  (clear_caps gs x)).
  { apply Hmr. intros y Hy. rewrite clear_caps_rest in Hy.
    destruct (Nat.eqb_spec mn 0) as [-> | Hmn]; cbn [andb].
    - destruct (Nat.eqb_spec (length (m_rest y)) (length (m_rest x))); [reflexivity |].
      apply IH; cbn [Nat.pred]; lia.
    - apply IH; lia. }
  rewrite Hd. reflexivity.
Qed.

Lemma quantifier_fuel_enough fl mn mx g r k st extra :
  repeat_matcher (m fl r) (groups r) g k
                 (mn + S (length (m_rest st)) + extra) mn mx st =
  m fl (Quant mn mx g r) k st.
Proof.
  rewrite m_quant. apply repeat_matcher_fuel; [apply m_forward | lia | lia].
Qed.

(** ** The cleaner on text in normal form *)

(** *** First code units *)


Lemma clear_caps_nil (st : mstate) : clear_caps [] st = st.
Proof.
  destruct st as [p r caps]. unfold clear_caps. cbn [m_prev m_rest m_caps].
  f_equal. induction caps as [| c caps IH]; [reflexivity |].
  simpl. simpl in IH. by rewrite IH.
Qed.

Lemma step_needs_first (p : N -> bool) k st :
  match m_rest st with c :: _ => p c = false | [] => True end ->
  step st p k = None.
Proof. unfold step. destruct (m_rest st) as [| c s]; [done |]. by intros ->. Qed.

Lemma needs_first_chr fl a : needs_first fl (Chr a) (chr_match fl a).
Proof. intros k st. apply step_needs_first. Qed.

Lemma needs_first_class fl neg items :
  needs_first fl (Class neg items) (class_match fl neg items).
Proof. intros k st. apply step_needs_first. Qed.

Lemma needs_first_seq fl r1 r2 p :
  needs_first fl r1 p -> needs_first fl (Seq r1 r2) p.
Proof. intros H1 k st Hst. cbn [m]. by apply H1. Qed.

Lemma needs_first_lit fl a w : needs_first fl (lit (a :: w)) (chr_match fl a).
Proof. apply needs_first_seq, needs_first_chr. Qed.

Lemma needs_first_seqs fl r rs p :
  needs_first fl r p -> needs_first fl (seqs (r :: rs)) p.
Proof. apply needs_first_seq. Qed.

Lemma needs_first_fails fl r p k st :
  needs_first fl r p ->
  match m_rest st with c :: _ => p c = false | [] => True end ->
  m fl r k st = None.
Proof. intros Hr. apply Hr. Qed.

Lemma exec_none fl r prev s :
  m fl r Some (MState prev s []) = None -> exec fl r prev s = None.
Proof. unfold exec. by intros ->. Qed.

(** **** Scanning *)

(** A scan changes nothing when at every position the pattern has no match,
    or matches one code unit that is its own replacement. *)
Lemma replace_go_fixed fl r repl (Q : option N -> jsstring -> Prop) :
  (forall prev c s, Q prev (c :: s) -> Q (Some c) s) ->
  (forall prev s, Q prev s ->
     exec fl r prev s = None \/
     exists c s' caps, s = c :: s' /\ repl = [c] /\
                       exec fl r prev s = Some (1%nat, caps)) ->
  forall s prev, Q prev s -> replace_go fl r repl 0 prev s = s.
Proof.
  intros Hstep Hexec s. induction s as [| c s IH]; intros prev HQ.
  - cbn [replace_go]. destruct (Hexec _ _ HQ) as [-> | (c & s' & caps & [=] & _)].
    reflexivity.
  - cbn [replace_go].
    destruct (Hexec _ _ HQ) as [-> | (c' & s' & caps & [= <- <-] & -> & ->)].
    + f_equal. apply IH. by eapply Hstep.
    + cbn [app]. f_equal. apply IH. by eapply Hstep.
Qed.

Lemma replace_first_go_fixed fl r repl (Q : option N -> jsstring -> Prop) :
  (forall prev c s, Q prev (c :: s) -> Q (Some c) s) ->
  (forall prev s, Q prev s -> exec fl r prev s = None) ->
  forall s prev, Q prev s -> replace_first_go fl r repl prev s = s.
Proof.
  intros Hstep Hexec s. induction s as [| c s IH]; intros prev HQ.
  - cbn [replace_first_go]. by rewrite (Hexec _ _ HQ).
  - cbn [replace_first_go]. rewrite (Hexec _ _ HQ). f_equal.
    apply IH. by eapply Hstep.
Qed.

Lemma normal_from_cons prev c s :
  normal_from prev (c :: s) = true -> normal_from (Some c) s = true.
Proof. cbn [normal_from]. by intros [_ ?]%andb_true_iff. Qed.

Lemma normal_from_position prev s :
  normal_from prev s = true -> position_ok prev s = true.
Proof. destruct s; cbn [normal_from]; by intros [? _]%andb_true_iff. Qed.

(** The two ways a pass is shown to leave normal text alone. *)
Lemma replace_all_normal fl r repl s :
  (forall prev s, normal_from prev s = true ->
     exec fl r prev s = None \/
     exists c s' caps, s = c :: s' /\ repl = [c] /\
                       exec fl r prev s = Some (1%nat, caps)) ->
  normal s = true -> replace_all fl r repl s = s.
Proof.
  intros Hexec Hn. unfold replace_all.
  apply (replace_go_fixed fl r repl (fun prev s => normal_from prev s = true));
    [apply normal_from_cons | exact Hexec | exact Hn].
Qed.

Lemma replace_first_normal fl r repl s :
  (forall prev s, normal_from prev s = true -> exec fl r prev s = None) ->
  normal s = true -> replace_first fl r repl s = s.
Proof.
  intros Hexec Hn. unfold replace_first.
  apply (replace_first_go_fixed fl r repl (fun prev s => normal_from prev s = true));
    [apply normal_from_cons | exact Hexec | exact Hn].
Qed.

Lemma replace_all_needs_first fl r repl p s :
  needs_first fl r p ->
  (forall prev c s', normal_from prev (c :: s') = true -> p c = false) ->
  normal s = true -> replace_all fl r repl s = s.
Proof.
  intros Hr Hp. apply replace_all_normal. intros prev s0 Hn. left.
  apply exec_none, Hr. cbn [m_rest]. destruct s0 as [| c s']; [done |].
  by eapply Hp.
Qed.

(** **** Loops over one code unit *)

Lemma after_nil (x : mstate) : after x [] (m_rest x) = x.
Proof. by destruct x. Qed.

(** What a loop over a one-code-unit body hands to its continuation: it has
    consumed at least [mn] code units, all accepted by the body. *)
Lemma repeat_single_sound mr (p : N -> bool) (g : bool) k fuel :
  (forall d x, mr d x = step x p d) ->
  forall mn x res,
    repeat_matcher mr [] g k fuel mn None x = Some res ->
    exists pre post,
      m_rest x = pre ++ post /\ (mn <= length pre)%nat /\
      forallb p pre = true /\ k (after x pre post) = Some res.
Proof.
  intros Hmr.
  induction fuel as [| fuel IH]; intros mn x res Hm; [discriminate |].
  cbn [repeat_matcher] in Hm. rewrite clear_caps_nil, !Hmr in Hm.
  assert (Hround : forall d,
            (forall y, d y = Some res ->
               (length (m_rest y) <> length (m_rest x)) ->
               repeat_matcher mr [] g k fuel (Nat.pred mn) None y
                 = Some res) ->
            step x p d = Some res ->
            exists pre post,
              m_rest x = pre ++ post /\ (mn <= length pre)%nat /\
              forallb p pre = true /\ k (after x pre post) = Some res).
  { intros d Hd Hs. unfold step in Hs.
    destruct (m_rest x) as [| c s] eqn:Hx; [discriminate |].
    destruct (p c) eqn:Hp; [| discriminate].
    apply Hd in Hs; [| cbn [m_rest length]; lia].
    apply IH in Hs as (pre & post & Hr & Hl & Hall & Hk).
    cbn [m_rest] in Hr. subst s.
    exists (c :: pre), post. split; [reflexivity |].
    split; [cbn [length]; lia |]. split; [cbn [forallb]; by rewrite Hp |].
    exact Hk. }
  assert (Hzero : k x = Some res ->
            mn = 0%nat ->
            exists pre post,
              m_rest x = pre ++ post /\ (mn <= length pre)%nat /\
              forallb p pre = true /\ k (after x pre post) = Some res).
  { intros Hk ->. exists [], (m_rest x). rewrite after_nil. auto. }
  destruct (Nat.eqb_spec mn 0) as [Hmn | Hmn]; cbn [negb andb] in Hm.
  - destruct g.
    + destruct (step x p _) eqn:Hs; cbn [orelse] in Hm.
      * injection Hm as ->. eapply Hround; [| exact Hs].
        intros y Hy Hlen. cbn beta in Hy.
        destruct (Nat.eqb_spec (length (m_rest y)) (length (m_rest x))); [done |].
        exact Hy.
      * by apply Hzero.
    + destruct (k x) eqn:Hk; cbn [orelse] in Hm.
      * injection Hm as ->. by apply Hzero.
      * eapply Hround; [| exact Hm].
        intros y Hy Hlen. cbn beta in Hy.
        destruct (Nat.eqb_spec (length (m_rest y)) (length (m_rest x))); [done |].
        exact Hy.
  - eapply Hround; [| exact Hm]. intros y Hy _. exact Hy.
Qed.

(** A loop that needs a round fails when its body cannot start. *)
Lemma needs_first_repeat fl r p mn g :
  needs_first fl r p -> needs_first fl (Quant (S mn) None g r) p.
Proof.
  intros Hr k st Hst. cbn [m Nat.add repeat_matcher Nat.eqb negb].
  apply Hr. by destruct st.
Qed.

(** A greedy loop over one code unit, with one round to make, at a run of
    length one. *)
Lemma plus_single_run mr (p : N -> bool) prev c s caps :
  (forall d x, mr d x = step x p d) ->
  p c = true ->
  match s with c2 :: _ => p c2 = false | [] => True end ->
  repeat_matcher mr [] true Some
                 (1 + S (length (c :: s))) 1 None (MState prev (c :: s) caps) =
  Some (MState (Some c) s caps).
Proof.
  intros Hmr Hc Hs. cbn [Nat.add length repeat_matcher Nat.eqb negb].
  rewrite clear_caps_nil, Hmr. unfold step at 1. cbn [m_rest m_caps]. rewrite Hc.
  cbn [Nat.eqb andb Nat.pred option_map]. rewrite clear_caps_nil, Hmr.
  unfold step. cbn [m_rest].
  destruct s as [| c2 s']; [reflexivity |]. by rewrite Hs.
Qed.

(** **** Code units of normal text *)

Ltac bools :=
  repeat match goal with
  | H : _ && _ = true |- _ => apply andb_true_iff in H as [? ?]
  | H : _ || _ = false |- _ => apply orb_false_iff in H as [? ?]
  | H : negb _ = true |- _ => apply negb_true_iff in H
  | H : negb _ = false |- _ => apply negb_false_iff in H
  | H : (_ =? _) = true |- _ => apply N.eqb_eq in H
  | H : (_ =? _) = false |- _ => apply N.eqb_neq in H
  | H : (_ <=? _) = true |- _ => apply N.leb_le in H
  | H : (_ <=? _) = false |- _ => apply N.leb_gt in H
  end.

Lemma chr_match_case_sensitive fl a c :
  icase fl = false -> chr_match fl a c = (a =? c).
Proof.
  intros Hi. unfold chr_match, cset_match. rewrite Hi. cbn [andb cset_has].
  apply orb_false_r.
Qed.

(** A pattern character below the letters matches itself only, with or
    without the [i] flag. *)
Lemma chr_match_special fl a c :
  a < 65 -> c <> a -> chr_match fl a c = false.
Proof.
  intros Ha Hc. unfold chr_match, cset_match, cset_has.
  apply orb_false_iff. split; [apply N.eqb_neq; congruence |].
  destruct (icase fl); [| reflexivity]. cbn [andb].
  apply orb_false_iff.
  unfold ascii_lower, ascii_upper, is_upper, is_lower.
  split.
  - destruct ((65 <=? c) && (c <=? 90)) eqn:Hu; apply N.eqb_neq; bools; [lia | congruence].
  - destruct ((97 <=? c) && (c <=? 122)) eqn:Hl; apply N.eqb_neq; bools; [lia | congruence].
Qed.

Lemma position_ok_cons prev c s :
  position_ok prev (c :: s) = true ->
  plain_char c = true /\
  (c = 32 -> solid prev = true /\ solid (head s) = true) /\
  (c = 10 -> prev <> None /\ s <> [] /\ starts_with [10; 10] s = false) /\
  (line_start prev = true -> artefact_start (c :: s) = false) /\
  (c = 60 -> existsb (N.eqb 62) s = false) /\
  (c = 38 -> entity_start (c :: s) = false).
Proof.
  cbn [position_ok]. intros H.
  apply andb_true_iff in H as [H H6]. apply andb_true_iff in H as [H H5].
  apply andb_true_iff in H as [H H4]. apply andb_true_iff in H as [H H3].
  apply andb_true_iff in H as [H1 H2].
  split; [exact H1 |]. split; [| split; [| split; [| split]]].
  - intros ->. change (32 =? 32) with true in H2. cbv iota in H2.
    by apply andb_true_iff in H2.
  - intros ->. change (10 =? 10) with true in H3. cbv iota in H3.
    apply andb_true_iff in H3 as [H3 Hs]. apply andb_true_iff in H3 as [Hp Hn].
    split; [by destruct prev |]. split; [by destruct s |].
    by apply negb_true_iff.
  - intros Hl. rewrite Hl in H4. by apply negb_true_iff.
  - intros ->. change (60 =? 60) with true in H5. cbv iota in H5.
    by apply negb_true_iff.
  - intros ->. change (38 =? 38) with true in H6. cbv iota in H6.
    by apply negb_true_iff.
Qed.

Lemma normal_cons prev c s :
  normal_from prev (c :: s) = true ->
  plain_char c = true /\
  (c = 32 -> solid prev = true /\ solid (head s) = true) /\
  (c = 10 -> prev <> None /\ s <> [] /\ starts_with [10; 10] s = false) /\
  (line_start prev = true -> artefact_start (c :: s) = false) /\
  (c = 60 -> existsb (N.eqb 62) s = false) /\
  (c = 38 -> entity_start (c :: s) = false).
Proof. intros Hn%normal_from_position. by apply position_ok_cons. Qed.

Lemma plain_facts c :
  plain_char c = true ->
  c <> 13 /\ c <> 9 /\ is_zero_width c = false /\
  (is_space c = true -> c = 32 \/ c = 10).
Proof.
  unfold plain_char. intros H.
  apply andb_true_iff in H as [Hz Hs]. apply negb_true_iff in Hz.
  assert (Hsp : is_space c = true -> c = 32 \/ c = 10).
  { intros Hc. rewrite Hc in Hs. cbn [negb orb] in Hs.
    apply orb_true_iff in Hs as [?%N.eqb_eq | ?%N.eqb_eq]; auto. }
  repeat split; auto.
  - intros ->. destruct (Hsp eq_refl); discriminate.
  - intros ->. destruct (Hsp eq_refl); discriminate.
Qed.

Lemma solid_not_space o :
  solid o = true -> exists c, o = Some c /\ is_space c = false.
Proof. destruct o as [c |]; [| discriminate]. cbn. intros ?%negb_true_iff. eauto. Qed.

Lemma line_terminator_space c : is_line_terminator c = true -> is_space c = true.
Proof. unfold is_space. intros ->. apply orb_true_r. Qed.

(** What normal text tells about a position that holds a space. *)
Lemma normal_space prev s :
  normal_from prev (32 :: s) = true ->
  (exists p, prev = Some p /\ is_space p = false) /\
  (exists c s', s = c :: s' /\ is_space c = false).
Proof.
  intros (_ & Hsp & _)%normal_cons. destruct (Hsp eq_refl) as [Hp Hn].
  split; [by apply solid_not_space |].
  destruct (solid_not_space _ Hn) as (c & Hc & Hs).
  destruct s as [| c' s']; [discriminate |]. injection Hc as ->. eauto.
Qed.

Lemma at_bol_line_start fl prev s caps :
  at_bol fl (MState prev s caps) = true -> line_start prev = true.
Proof.
  unfold at_bol. cbn [m_prev]. destruct prev as [p |]; [| done].
  cbn [line_start]. by intros [_ ?]%andb_true_iff.
Qed.

Lemma normal_line_start fl prev s caps :
  normal_from prev s = true -> s <> [] ->
  at_bol fl (MState prev s caps) = true ->
  artefact_start s = false.
Proof.
  intros Hn Hs Hb%at_bol_line_start. destruct s as [| c s]; [done |].
  apply normal_cons in Hn as (_ & _ & _ & Ha & _). by apply Ha.
Qed.

Lemma line_start_not_space prev s :
  normal_from prev (32 :: s) = true -> line_start prev = false.
Proof.
  intros [(p & -> & Hp) _]%normal_space. cbn [line_start].
  destruct (is_line_terminator p) eqn:Hl; [| reflexivity].
  apply line_terminator_space in Hl. congruence.
Qed.

(** **** The passes *)

(** Passes whose pattern starts with a carriage return. *)
Lemma carriage_return_pass fl r repl :
  needs_first fl r (chr_match fl 13) -> fixes (replace_all fl r repl).
Proof.
  intros Hr s Hn. eapply replace_all_needs_first; [exact Hr | | exact Hn].
  intros prev c s' (Hp & _)%normal_cons.
  destruct (plain_facts c Hp) as (H13 & _).
  by apply chr_match_special.
Qed.

(** Where a match leaves off: the continuation that made it succeed was
    called at a later position of the same text. *)
Lemma step_reaches p k st res :
  step st p k = Some res ->
  exists y pre, k y = Some res /\ m_rest st = pre ++ m_rest y.
Proof.
  unfold step. destruct (m_rest st) as [| c s] eqn:Hs; [discriminate |].
  destruct (p c); [| discriminate]. intros Hk.
  eexists _, [c]. split; [exact Hk | reflexivity].
Qed.

Lemma repeat_matcher_reaches mr gs g k fuel :
  (forall d x res, mr d x = Some res ->
     exists y pre, d y = Some res /\ m_rest x = pre ++ m_rest y) ->
  forall mn mx x res,
    repeat_matcher mr gs g k fuel mn mx x = Some res ->
    exists y pre, k y = Some res /\ m_rest x = pre ++ m_rest y.
Proof.
  intros Hmr. induction fuel as [| fuel IH]; intros mn mx x res Hm; [discriminate |].
  cbn [repeat_matcher] in Hm.
  assert (Hhere : k x = Some res ->
            exists y pre, k y = Some res /\ m_rest x = pre ++ m_rest y).
  { intros Hk. exists x, []. auto. }
  assert (Hround : forall d,
            (forall y, d y = Some res ->
               repeat_matcher mr gs g k fuel (Nat.pred mn) (option_map Nat.pred mx) y
                 = Some res) ->
            mr d (clear_caps gs x) = Some res ->
            exists y pre, k y = Some res /\ m_rest x = pre ++ m_rest y).
  { intros d Hd Hs. apply Hmr in Hs as (y & pre & Hy & Hpre).
    apply Hd, IH in Hy as (z & pre' & Hz & Hpre').
    exists z, (pre ++ pre'). split; [exact Hz |].
    rewrite clear_caps_rest in Hpre. by rewrite <- app_assoc, <- Hpre'. }
  assert (Hd : forall y,
            (if Nat.eqb mn 0 && Nat.eqb (length (m_rest y)) (length (m_rest x))
             then None
             else repeat_matcher mr gs g k fuel (Nat.pred mn)
                                 (option_map Nat.pred mx) y) = Some res ->
            repeat_matcher mr gs g k fuel (Nat.pred mn) (option_map Nat.pred mx) y
              = Some res).
  { intros y. by destruct (_ && _). }
  destruct mx as [[| mx] |]; [by apply Hhere | |].
  - destruct (negb (Nat.eqb mn 0)); [by eapply Hround; [apply Hd |] |].
    destruct g.
    + destruct (mr _ _) eqn:Hs; cbn [orelse] in Hm.
      * injection Hm as ->. eapply Hround; [apply Hd | exact Hs].
      * by apply Hhere.
    + destruct (k x) eqn:Hk; cbn [orelse] in Hm.
      * injection Hm as ->. by apply Hhere.
      * eapply Hround; [apply Hd | exact Hm].
  - destruct (negb (Nat.eqb mn 0)); [by eapply Hround; [apply Hd |] |].
    destruct g.
    + destruct (mr _ _) eqn:Hs; cbn [orelse] in Hm.
      * injection Hm as ->. eapply Hround; [apply Hd | exact Hs].
      * by apply Hhere.
    + destruct (k x) eqn:Hk; cbn [orelse] in Hm.
      * injection Hm as ->. by apply Hhere.
      * eapply Hround; [apply Hd | exact Hm].
Qed.

Lemma m_reaches fl r :
  forall k st res,
    m fl r k st = Some res ->
    exists y pre, k y = Some res /\ m_rest st = pre ++ m_rest y.
Proof.
  induction r as [| a | | neg items | r1 IH1 r2 IH2 | r1 IH1 r2 IH2
                 | mn mx g r IH | i r IH | | | r IH];
    intros k st res Hm.
  - rewrite m_eps in Hm. exists st, []. auto.
  - rewrite m_chr in Hm. by apply step_reaches in Hm.
  - cbn [m] in Hm. by apply step_reaches in Hm.
  - rewrite m_class in Hm. by apply step_reaches in Hm.
  - rewrite m_seq in Hm. apply IH1 in Hm as (y & pre & Hy & Hpre).
    apply IH2 in Hy as (z & pre' & Hz & Hpre').
    exists z, (pre ++ pre'). split; [exact Hz |].
    by rewrite <- app_assoc, <- Hpre'.
  - cbn [m] in Hm. destruct (m fl r1 k st) eqn:H1; cbn [orelse] in Hm.
    + injection Hm as ->. by apply IH1 in H1.
    + by apply IH2 in Hm.
  - rewrite m_quant in Hm. by apply (repeat_matcher_reaches _ _ _ _ _ IH) in Hm.
  - cbn [m] in Hm. apply IH in Hm as (y & pre & Hy & Hpre).
    eexists _, pre. split; [exact Hy | exact Hpre].
  - rewrite m_bol in Hm. destruct (at_bol fl st); [| discriminate].
    exists st, []. auto.
  - rewrite m_eol in Hm. destruct (at_eol fl st); [| discriminate].
    exists st, []. auto.
  - cbn [m] in Hm. destruct (m fl r Some st); [| discriminate].
    eexists _, []. split; [exact Hm | reflexivity].
Qed.

Lemma needs_unit_chr fl a : needs_unit fl (Chr a) a.
Proof.
  intros k st Hm. rewrite m_chr in Hm. unfold step in Hm.
  destruct (m_rest st) as [| c s]; [done |]. cbn [existsb].
  destruct (chr_match fl a c); [reflexivity | done].
Qed.

Lemma needs_unit_seq_l fl r1 r2 a : needs_unit fl r1 a -> needs_unit fl (Seq r1 r2) a.
Proof. intros H1 k st Hm. rewrite m_seq in Hm. by apply H1 in Hm. Qed.

Lemma needs_unit_seq_r fl r1 r2 a : needs_unit fl r2 a -> needs_unit fl (Seq r1 r2) a.
Proof.
  intros H2 k st Hm. rewrite m_seq in Hm.
  destruct (m fl r1 (m fl r2 k) st) as [res |] eqn:Hr; [| done].
  apply m_reaches in Hr as (y & pre & Hy & Hpre).
  rewrite Hpre, existsb_app. apply orb_true_iff. right.
  apply (H2 k). by rewrite Hy.
Qed.

Lemma needs_unit_lit fl a w : existsb (N.eqb a) w = true -> needs_unit fl (lit w) a.
Proof.
  induction w as [| c w IH]; [discriminate |]. cbn [existsb].
  intros [Hc | Hw]%orb_true_iff; rewrite lit_cons.
  - apply N.eqb_eq in Hc. subst c. apply needs_unit_seq_l, needs_unit_chr.
  - by apply needs_unit_seq_r, IH.
Qed.

Lemma needs_unit_seqs fl rs a :
  Exists (fun r => needs_unit fl r a) rs -> needs_unit fl (seqs rs) a.
Proof.
  induction 1 as [r rs Hr | r rs _ IH]; rewrite seqs_cons.
  - by apply needs_unit_seq_l.
  - by apply needs_unit_seq_r.
Qed.

(** Passes whose pattern starts with [<] and holds a [>]: no tag is left in
    normal text. *)
Lemma tag_pass fl r repl :
  needs_first fl r (chr_match fl 60) -> needs_unit fl r 62 ->
  fixes (replace_all fl r repl).
Proof.
  intros Hfirst Hunit s Hs. apply replace_all_normal; [| exact Hs]. clear s Hs.
  intros prev s Hn. left. apply exec_none.
  destruct s as [| c s]; [by apply Hfirst |].
  destruct (N.eqb_spec c 60) as [-> | Hc].
  - destruct (m fl r Some _) as [res |] eqn:Hm; [exfalso | reflexivity].
    assert (Hex : existsb (chr_match fl 62) (60 :: s) = true).
    { apply (Hunit Some (MState prev (60 :: s) [])). by rewrite Hm. }
    apply existsb_exists in Hex as (x & Hin & Hx).
    assert (x = 62) as ->.
    { destruct (N.eq_dec x 62) as [-> | Hne]; [reflexivity |].
      rewrite chr_match_special in Hx by (try reflexivity; exact Hne). discriminate. }
    destruct Hin as [[=] | Hin].
    apply normal_cons in Hn as (_ & _ & _ & _ & Hgt & _).
    specialize (Hgt eq_refl).
    assert (existsb (N.eqb 62) s = true); [| congruence].
    apply existsb_exists. exists 62. split; [exact Hin | reflexivity].
  - apply Hfirst. cbn [m_rest]. by apply chr_match_special.
Qed.

Lemma lit_needs_prefix_end fl w k st :
  icase fl = false ->
  starts_with w (m_rest st) = false -> m fl (lit w) k st = None.
Proof.
  intros Hi. revert st. induction w as [| a w IH]; intros st Hw; [discriminate |].
  rewrite lit_cons, m_seq, m_chr.
  unfold step. destruct st as [prev s caps]. cbn [m_rest m_caps] in *.
  destruct s as [| c s]; [reflexivity |].
  rewrite (chr_match_case_sensitive _ _ _ Hi).
  cbn [starts_with] in Hw. destruct (a =? c); [| reflexivity].
  apply IH. exact Hw.
Qed.

(** The passes that decode an entity: none is left in normal text. *)
Lemma entity_pass e :
  In e clean_entities -> fixes (replace_all fl_g (lit (fst e)) (snd e)).
Proof.
  intros He s Hs. apply replace_all_normal; [| exact Hs]. clear s Hs.
  intros prev s Hn. left. apply exec_none.
  apply lit_needs_prefix_end; [reflexivity |]. cbn [m_rest].
  destruct (starts_with (fst e) s) eqn:Hp; [exfalso | reflexivity].
  assert (Hent : entity_start s = true).
  { unfold entity_start. apply existsb_exists. exists e. auto. }
  assert (Hamp : exists s', s = 38 :: s').
  { assert (Hall : forallb (fun e => starts_with [38] (fst e)) clean_entities = true)
      by (vm_compute; reflexivity).
    rewrite forallb_forall in Hall. specialize (Hall e He).
    destruct (fst e) as [| a w]; [discriminate |].
    cbn [starts_with] in Hall. rewrite andb_true_r in Hall.
    apply N.eqb_eq in Hall. subst a.
    destruct s as [| c s']; [discriminate |].
    cbn [starts_with] in Hp. apply andb_true_iff in Hp as [Hc _].
    apply N.eqb_eq in Hc. subst c. eauto. }
  destruct Hamp as [s' ->].
  apply normal_cons in Hn as (_ & _ & _ & _ & _ & Hamp).
  rewrite (Hamp eq_refl) in Hent. discriminate.
Qed.

Lemma starts_with_repeat a n pre post :
  forallb (N.eqb a) pre = true -> (n <= length pre)%nat ->
  starts_with (repeat a n) (pre ++ post) = true.
Proof.
  revert pre. induction n as [| n IH]; intros pre Hall Hl; [reflexivity |].
  destruct pre as [| c pre]; [cbn in Hl; lia |].
  cbn [forallb] in Hall. apply andb_true_iff in Hall as [Hc Hall].
  cbn [repeat app starts_with]. rewrite Hc. cbn [andb].
  apply IH; [exact Hall | cbn in Hl; lia].
Qed.

Lemma forallb_chr_match fl a pre :
  icase fl = false ->
  forallb (chr_match fl a) pre = true -> forallb (N.eqb a) pre = true.
Proof.
  intros Hi. induction pre as [| c pre IH]; [reflexivity |].
  cbn [forallb]. rewrite (chr_match_case_sensitive _ _ _ Hi).
  intros [-> Hall]%andb_true_iff. by rewrite IH.
Qed.

Lemma run_length_app p pre s :
  forallb p pre = true ->
  run_length p (pre ++ s) = (length pre + run_length p s)%nat.
Proof.
  induction pre as [| c pre IH]; [reflexivity |]. cbn [forallb app run_length length].
  intros [-> Hall]%andb_true_iff. by rewrite IH.
Qed.

Lemma run_length_ge p pre s :
  forallb p pre = true -> (length pre <= run_length p (pre ++ s))%nat.
Proof. intros Hall. rewrite run_length_app by exact Hall. lia. Qed.

Lemma digit_class c : class_match fl_gm false [CDigit] c = is_digit c.
Proof.
  unfold class_match, cset_match, cset_has. cbn [existsb xorb icase fl_gm andb].
  by rewrite !orb_false_r.
Qed.

(** Ten or more hyphens followed by ten or more digits start a boundary. *)
Lemma boundary_start_runs pre1 pre2 post :
  forallb (N.eqb 45) pre1 = true -> (10 <= length pre1)%nat ->
  forallb is_digit pre2 = true -> (10 <= length pre2)%nat ->
  boundary_start (pre1 ++ pre2 ++ post) = true.
Proof.
  intros H1 L1 H2 L2. unfold boundary_start.
  assert (Hrun : run_length (N.eqb 45) (pre1 ++ pre2 ++ post) = length pre1).
  { rewrite run_length_app by exact H1.
    destruct pre2 as [| c pre2]; [cbn in L2; lia |].
    cbn [forallb] in H2. apply andb_true_iff in H2 as [Hc _].
    cbn [app run_length].
    destruct (N.eqb_spec 45 c) as [Heq | _].
    { subst c. vm_compute in Hc. discriminate. }
    apply Nat.add_0_r. }
  rewrite Hrun, skipn_app, Nat.sub_diag, skipn_all, skipn_O. cbn [app].
  apply andb_true_iff. split; apply Nat.leb_le; [exact L1 |].
  pose proof (run_length_ge is_digit pre2 post H2). lia.
Qed.

Lemma pass_boundary_line_fixed :
  fixes (replace_all fl_gm
           (seqs [Bol; at_least 10 (Chr 45); at_least 10 digit;
                  Quant 0 (Some 2%nat) true (Chr 45); Eol]) []).
Proof.
  intros s Hs. apply replace_all_normal; [| exact Hs]. clear s Hs.
  intros prev s Hn. left. apply exec_none.
  rewrite seqs_cons, m_seq, m_bol.
  destruct (at_bol fl_gm (MState prev s [])) eqn:Hb; [| reflexivity].
  match goal with |- ?lhs = None => destruct lhs as [res |] eqn:Hm end;
    [exfalso | reflexivity].
  unfold at_least in Hm. rewrite seqs_cons, m_seq, m_quant in Hm.
  apply (repeat_single_sound _ (chr_match fl_gm 45)) in Hm
    as (pre1 & rest & Hr & L1 & H1 & Hk); [| apply m_chr].
  cbn [m_rest] in Hr. subst s.
  apply (forallb_chr_match fl_gm) in H1; [| reflexivity].
  rewrite seqs_cons, m_seq, m_quant in Hk.
  apply (repeat_single_sound _ (class_match fl_gm false [CDigit])) in Hk
    as (pre2 & post & Hr & L2 & H2 & _); [| apply m_class].
  unfold after in Hr. cbn [m_rest] in Hr. subst rest.
  assert (Hne : pre1 ++ pre2 ++ post <> [])
    by (destruct pre1; [cbn in L1; lia | discriminate]).
  pose proof (normal_line_start _ _ _ _ Hn Hne Hb) as Ha.
  unfold artefact_start in Ha. rewrite boundary_start_runs in Ha.
  - by rewrite orb_true_r in Ha.
  - exact H1.
  - exact L1.
  - clear -H2. induction pre2 as [| c pre2 IH]; [reflexivity |].
    cbn [forallb] in *. apply andb_true_iff in H2 as [Hc H2].
    rewrite digit_class in Hc. by rewrite Hc, IH.
  - exact L2.
Qed.

Lemma lit_needs_prefix fl w r k st :
  icase fl = false ->
  starts_with w (m_rest st) = false -> m fl (Seq (lit w) r) k st = None.
Proof.
  intros Hi. revert st. induction w as [| a w IH]; intros st Hw; [discriminate |].
  rewrite lit_cons, !m_seq, m_chr.
  unfold step. destruct st as [prev s caps]. cbn [m_rest m_caps] in *.
  destruct s as [| c s]; [reflexivity |].
  rewrite (chr_match_case_sensitive _ _ _ Hi).
  cbn [starts_with] in Hw. destruct (a =? c); [| reflexivity].
  rewrite <- m_seq. apply IH. exact Hw.
Qed.

(** Passes that delete a line beginning with a fixed word. *)
Lemma pass_header_line_fixed w tail :
  (forall s, starts_with w s = true -> artefact_start s = true) ->
  w <> [] ->
  fixes (replace_all fl_gm (seqs (Bol :: lit w :: tail)) []).
Proof.
  intros Hw Hne s Hs. apply replace_all_normal; [| exact Hs]. clear s Hs.
  intros prev s Hn. left. apply exec_none.
  rewrite seqs_cons, m_seq, m_bol, seqs_cons.
  destruct (at_bol fl_gm (MState prev s [])) eqn:Hb; [| reflexivity].
  apply lit_needs_prefix; [reflexivity |]. cbn [m_rest].
  destruct (starts_with w s) eqn:Hp; [| reflexivity].
  assert (Hs : s <> []) by (destruct s; [by destruct w | discriminate]).
  pose proof (normal_line_start _ _ _ _ Hn Hs Hb) as Ha.
  rewrite (Hw _ Hp) in Ha. discriminate.
Qed.

Lemma pass_line_feeds_fixed :
  fixes (replace_all fl_g (at_least 3 (Chr 10)) [10; 10]).
Proof.
  intros s Hs. apply replace_all_normal; [| exact Hs]. clear s Hs.
  intros prev s Hn. left. apply exec_none.
  match goal with |- ?lhs = None => destruct lhs as [res |] eqn:Hm end;
    [exfalso | reflexivity].
  unfold at_least in Hm. rewrite m_quant in Hm.
  apply (repeat_single_sound _ (chr_match fl_g 10)) in Hm
    as (pre & post & Hr & Hl & Hall & _); [| apply m_chr].
  cbn [m_rest] in Hr. subst s.
  apply (forallb_chr_match fl_g) in Hall; [| reflexivity].
  pose proof (starts_with_repeat 10 3 pre post Hall Hl) as Hp.
  destruct pre as [| c pre]; [cbn in Hl; lia |].
  change ((c :: pre) ++ post) with (c :: (pre ++ post)) in *.
  cbn [repeat starts_with] in Hp.
  apply andb_true_iff in Hp as [Hc Hp]. apply N.eqb_eq in Hc. subst c.
  apply normal_cons in Hn as (_ & _ & Hf & _).
  destruct (Hf eq_refl) as (_ & _ & Hf3). cbn [starts_with] in Hf3.
  congruence.
Qed.

Lemma exec_single fl r prev c s caps :
  m fl r Some (MState prev (c :: s) []) = Some (MState (Some c) s caps) ->
  exec fl r prev (c :: s) = Some (1%nat, caps).
Proof.
  unfold exec. intros ->. cbn [m_rest m_caps length].
  do 2 f_equal. lia.
Qed.

(** Passes that turn a run of white space into one space: on normal text the
    runs are single spaces. *)
Lemma pass_space_run_fixed fl neg items :
  (forall c, plain_char c = true -> class_match fl neg items c = (c =? 32)) ->
  fixes (replace_all fl (plus (Class neg items)) [32]).
Proof.
  intros Hp s Hs. apply replace_all_normal; [| exact Hs]. clear s Hs.
  intros prev s Hn. destruct s as [| c s].
  { left. apply exec_none. unfold plus. rewrite m_quant.
    cbn [Nat.add repeat_matcher Nat.eqb negb]. rewrite m_class. reflexivity. }
  pose proof (normal_cons _ _ _ Hn) as (Hc & _).
  destruct (N.eqb_spec c 32) as [-> | Hne].
  - right. exists 32, s, []. split; [reflexivity |]. split; [reflexivity |].
    apply exec_single. unfold plus. rewrite m_quant.
    change (groups (Class neg items)) with (@nil nat).
    apply (plus_single_run _ (class_match fl neg items)); [apply m_class | |].
    + by rewrite (Hp _ Hc).
    + destruct (normal_space _ _ Hn) as [_ (c2 & s' & -> & Hsp)].
      apply normal_from_cons in Hn.
      pose proof (normal_cons _ _ _ Hn) as (Hc2 & _).
      rewrite (Hp _ Hc2). apply N.eqb_neq. intros ->. discriminate.
  - left. apply exec_none. unfold plus.
    apply (needs_first_fails _ _ (class_match fl neg items));
      [apply needs_first_repeat, needs_first_class |].
    cbn [m_rest]. rewrite (Hp _ Hc). by apply N.eqb_neq.
Qed.

Lemma space_or_tab_plain c :
  plain_char c = true -> class_match fl_g false (map CChar [32; 9]) c = (c =? 32).
Proof.
  intros Hc. destruct (plain_facts c Hc) as (_ & H9 & _).
  unfold class_match, cset_match, cset_has.
  cbn [existsb map xorb icase fl_g andb].
  rewrite !orb_false_r. rewrite (N.eqb_sym 32 c).
  replace (9 =? c) with false by (symmetry; apply N.eqb_neq; congruence).
  apply orb_false_r.
Qed.

Lemma other_space_plain c :
  plain_char c = true ->
  class_match fl_g true [CNotSpace; CChar 10] c = (c =? 32).
Proof.
  intros Hc. destruct (plain_facts c Hc) as (_ & _ & _ & Hsp).
  unfold class_match, cset_match, cset_has.
  cbn [existsb map xorb icase fl_g andb].
  rewrite !orb_false_r.
  destruct (is_space c) eqn:Hs; cbn [negb orb xorb].
  - destruct (Hsp eq_refl) as [-> | ->]; reflexivity.
  - symmetry. apply N.eqb_neq. intros ->. discriminate.
Qed.

Lemma pass_leading_spaces_fixed :
  fixes (replace_all fl_gm (seqs [Bol; plus (Chr 32)]) []).
Proof.
  intros s Hs. apply replace_all_normal; [| exact Hs]. clear s Hs.
  intros prev s Hn. left. apply exec_none.
  rewrite seqs_cons, m_seq, m_bol.
  destruct (at_bol fl_gm (MState prev s [])) eqn:Hb; [| reflexivity].
  apply (needs_first_fails _ _ (chr_match fl_gm 32));
    [apply needs_first_seqs, needs_first_repeat, needs_first_chr |].
  cbn [m_rest]. destruct s as [| c s]; [done |].
  rewrite chr_match_case_sensitive by reflexivity.
  apply N.eqb_neq. intros <-.
  apply at_bol_line_start in Hb. apply line_start_not_space in Hn. congruence.
Qed.

Lemma pass_trailing_spaces_fixed :
  fixes (replace_all fl_gm (seqs [plus (Chr 32); Eol]) []).
Proof.
  intros s Hs. apply replace_all_normal; [| exact Hs]. clear s Hs.
  intros prev s Hn. left. apply exec_none.
  match goal with |- ?lhs = None => destruct lhs as [res |] eqn:Hm end;
    [exfalso | reflexivity].
  unfold plus in Hm. rewrite seqs_cons, m_seq, m_quant in Hm.
  apply (repeat_single_sound _ (chr_match fl_gm 32)) in Hm
    as (pre & post & Hr & Hl & Hall & Hk); [| apply m_chr].
  cbn [m_rest] in Hr. subst s.
  apply (forallb_chr_match fl_gm) in Hall; [| reflexivity].
  rewrite seqs_cons, m_seq, m_eol in Hk.
  destruct (at_eol fl_gm _) eqn:He; [clear Hk | discriminate].
  destruct pre as [| c pre]; [cbn in Hl; lia |].
  cbn [forallb] in Hall. apply andb_true_iff in Hall as [Hc Hall].
  apply N.eqb_eq in Hc. subst c.
  change ((32 :: pre) ++ post) with (32 :: (pre ++ post)) in Hn.
  destruct (normal_space _ _ Hn) as [_ (c2 & s' & Hs' & Hsp)].
  destruct pre as [| c pre].
  - cbn [app] in Hs'. subst post. unfold at_eol, after in He. cbn [m_rest] in He.
    apply andb_true_iff in He as [_ He%line_terminator_space]. congruence.
  - cbn [forallb] in Hall. apply andb_true_iff in Hall as [Hc _].
    apply N.eqb_eq in Hc. subst c. injection Hs' as <- _. discriminate.
Qed.

Lemma pass_first_line_feeds_fixed :
  fixes (replace_first fl_g (seqs [Bol; plus (Chr 10)]) []).
Proof.
  intros s Hs. apply replace_first_normal; [| exact Hs]. clear s Hs.
  intros prev s Hn. apply exec_none.
  rewrite seqs_cons, m_seq, m_bol.
  destruct (at_bol fl_g (MState prev s [])) eqn:Hb; [| reflexivity].
  apply (needs_first_fails _ _ (chr_match fl_g 10));
    [apply needs_first_seqs, needs_first_repeat, needs_first_chr |].
  cbn [m_rest]. destruct s as [| c s]; [done |].
  rewrite chr_match_case_sensitive by reflexivity.
  apply N.eqb_neq. intros <-.
  apply normal_cons in Hn as (_ & _ & Hf & _). destruct (Hf eq_refl) as (Hp & _).
  unfold at_bol in Hb. cbn [m_prev multiline fl_g andb] in Hb.
  by destruct prev.
Qed.

Lemma line_feeds_not_normal pre prev :
  pre <> [] -> forallb (N.eqb 10) pre = true -> normal_from prev pre = true -> False.
Proof.
  revert prev. induction pre as [| c pre IH]; intros prev Hne Hall Hn; [done |].
  cbn [forallb] in Hall. apply andb_true_iff in Hall as [Hc Hall].
  apply N.eqb_eq in Hc. subst c.
  pose proof (normal_cons _ _ _ Hn) as (_ & _ & Hf & _).
  destruct (Hf eq_refl) as (_ & Hpre & _).
  apply (IH (Some 10) Hpre Hall). by apply normal_from_cons in Hn.
Qed.

Lemma pass_last_line_feeds_fixed :
  fixes (replace_first fl_g (seqs [plus (Chr 10); Eol]) []).
Proof.
  intros s Hs. apply replace_first_normal; [| exact Hs]. clear s Hs.
  intros prev s Hn. apply exec_none.
  match goal with |- ?lhs = None => destruct lhs as [res |] eqn:Hm end;
    [exfalso | reflexivity].
  unfold plus in Hm. rewrite seqs_cons, m_seq, m_quant in Hm.
  apply (repeat_single_sound _ (chr_match fl_g 10)) in Hm
    as (pre & post & Hr & Hl & Hall & Hk); [| apply m_chr].
  cbn [m_rest] in Hr. subst s.
  apply (forallb_chr_match fl_g) in Hall; [| reflexivity].
  rewrite seqs_cons, m_seq, m_eol in Hk.
  destruct (at_eol fl_g _) eqn:He; [clear Hk | discriminate].
  unfold at_eol, after in He. cbn [m_rest multiline fl_g andb] in He.
  destruct post; [| discriminate]. rewrite app_nil_r in Hn.
  apply (line_feeds_not_normal pre prev); [| exact Hall | exact Hn].
  destruct pre; [cbn in Hl; lia | discriminate].
Qed.

Lemma pass_zero_width_fixed :
  fixes (replace_all fl_g (Class false [CRange 0x200B 0x200D; CChar 0xFEFF]) []).
Proof.
  intros s Hs. eapply replace_all_needs_first; [apply needs_first_class | | exact Hs].
  intros prev c s' (Hc & _)%normal_cons.
  destruct (plain_facts c Hc) as (_ & _ & Hz & _).
  unfold is_zero_width in Hz. unfold class_match, cset_match, cset_has.
  cbn [existsb map xorb icase fl_g andb].
  rewrite !orb_false_r. rewrite (N.eqb_sym 0xFEFF c). exact Hz.
Qed.

Lemma drop_space_solid c s : is_space c = false -> drop_space (c :: s) = c :: s.
Proof. intros Hc. cbn [drop_space]. by rewrite Hc. Qed.

Lemma normal_last prev pre c :
  normal_from prev (pre ++ [c]) = true -> is_space c = false.
Proof.
  revert prev. induction pre as [| a pre IH]; intros prev Hn.
  - apply normal_from_cons in Hn. cbn in Hn.
    rewrite andb_true_r in Hn. by apply negb_true_iff.
  - apply (IH (Some a)). by apply normal_from_cons in Hn.
Qed.

Lemma normal_first c s : normal (c :: s) = true -> is_space c = false.
Proof.
  unfold normal. intros (Hc & H32 & H10 & _)%normal_cons.
  destruct (plain_facts c Hc) as (_ & _ & _ & Hsp).
  destruct (is_space c) eqn:Hs; [| reflexivity].
  destruct (Hsp eq_refl) as [-> | ->].
  - destruct (H32 eq_refl) as [? _]. discriminate.
  - destruct (H10 eq_refl) as [? _]. done.
Qed.

Lemma pass_trim_fixed : fixes trim.
Proof.
  intros s Hn. unfold trim. destruct s as [| c s]; [reflexivity |].
  rewrite (drop_space_solid c s (normal_first c s Hn)).
  destruct (rev (c :: s)) as [| l t] eqn:Hr.
  { apply (f_equal (@length N)) in Hr. rewrite length_rev in Hr. discriminate. }
  assert (Hs : c :: s = rev t ++ [l]).
  { rewrite <- (rev_involutive (c :: s)), Hr. reflexivity. }
  rewrite drop_space_solid.
  - by rewrite <- Hr, rev_involutive.
  - apply (normal_last None (rev t)). rewrite <- Hs. exact Hn.
Qed.

(** A pattern that starts with [<] and has a [>] as, or at the end of,
    one of its parts. *)
Ltac tag_pattern :=
  apply tag_pass;
  [ unfold re_block;
    first [ exact (needs_first_lit _ 60 _)
          | apply needs_first_seqs; exact (needs_first_lit _ 60 _) ]
  | unfold re_block;
    first [ apply needs_unit_lit; reflexivity
          | apply needs_unit_seqs;
            repeat first [ apply Exists_cons_hd; apply needs_unit_lit; reflexivity
                         | apply Exists_cons_tl ] ] ].

Ltac carriage_return_pattern :=
  apply carriage_return_pass; exact (needs_first_lit _ 13 _).

Lemma clean_passes_fixed : Forall fixes clean_passes.
Proof.
  unfold clean_passes.
  apply Forall_app_2; [| apply Forall_app_2].
  - repeat match goal with |- Forall _ (_ :: _) => constructor end;
      [ exact pass_boundary_line_fixed
      | apply pass_header_line_fixed;
        [unfold artefact_start; intros s ->; reflexivity | discriminate]
      | apply pass_header_line_fixed;
        [unfold artefact_start; intros s ->; rewrite orb_true_r; reflexivity
        | discriminate]
      | tag_pattern | tag_pattern | tag_pattern | tag_pattern
      | tag_pattern | tag_pattern | tag_pattern | tag_pattern
      | tag_pattern | tag_pattern | tag_pattern
      | constructor ].
  - apply Forall_forall. intros pass Hin.
    apply list_elem_of_In, in_map_iff in Hin as (e & <- & He).
    by apply entity_pass.
  - repeat match goal with |- Forall _ (_ :: _) => constructor end;
      [ carriage_return_pattern | carriage_return_pattern
      | exact pass_line_feeds_fixed
      | apply pass_space_run_fixed, space_or_tab_plain
      | exact pass_leading_spaces_fixed
      | exact pass_trailing_spaces_fixed
      | exact pass_first_line_feeds_fixed
      | exact pass_last_line_feeds_fixed
      | exact pass_zero_width_fixed
      | apply pass_space_run_fixed, other_space_plain
      | exact pass_trim_fixed
      | constructor ].
Qed.

Lemma run_passes_fixed ps s :
  Forall fixes ps -> normal s = true -> run_passes ps s = s.
Proof.
  intros Hps Hn. unfold run_passes.
  induction Hps as [| p ps Hp _ IH]; [reflexivity |].
  cbn [fold_left]. by rewrite (Hp s Hn).
Qed.

(** Text in normal form is a fixed point of the cleaner. *)
Lemma clean_normal s : normal s = true -> clean s = s.
Proof.
  intros Hn. unfold clean, cleanHtmlContent.
  destruct s as [| c s]; [reflexivity |].
  change (truthy (VStr (c :: s))) with true. cbv iota.
  apply run_passes_fixed; [apply clean_passes_fixed | exact Hn].
Qed.

(** C3 (amended). Cleaning twice gives what cleaning once gives whenever
    the text cleaned once is in normal form: no [<] with a [>] somewhere after
    it, no [&] that starts an entity of the table, no zero-width character,
    no white space but line feeds and single spaces that stand between two
    characters which are not white space, at most two line feeds in a row and
    none at either end, and no line that begins with [Content-], with
    [boundary=] or with ten hyphens and ten digits. *)
Theorem clean_idempotent_on_normal (x : jsstring) :
  normal (clean x) = true -> clean (clean x) = clean x.
Proof. apply clean_normal. Qed.

Lemma clean_idempotent_on_normal_witness :
  clean (clean (str "<p>Hello   <b>world</b></p><ul><li>one</li><li>two</li></ul> x&nbsp;y")) =
  clean (str "<p>Hello   <b>world</b></p><ul><li>one</li><li>two</li></ul> x&nbsp;y").
Proof.
  apply clean_idempotent_on_normal. vm_compute. reflexivity.
Defined.

(** C3, as stated, fails: entities are decoded after the tags are removed,
    so the text cleaned once can hold an entity (or a tag, or a header line)
    that cleaning again decodes (or removes). *)
Lemma clean_not_idempotent :
  clean (str "&amp;lt;") = str "&lt;" /\
  clean (clean (str "&amp;lt;")) = str "<" /\
  clean (clean (str "&amp;lt;")) <> clean (str "&amp;lt;").
Proof. vm_compute. repeat split. discriminate. Qed.

(** ** The parse cascade *)

Lemma jsstring_eqb_true (a b : jsstring) : jsstring_eqb a b = true <-> a = b.
Proof. unfold jsstring_eqb. apply bool_decide_eq_true. Qed.

Lemma jsstring_eqb_refl (a : jsstring) : jsstring_eqb a a = true.
Proof. by apply jsstring_eqb_true. Qed.

Lemma str_is_VStr (t s : jsstring) : str_is (VStr t) s = bool_decide (t = s).
Proof. reflexivity. Qed.

Lemma conversation_item_valid item f v :
  conversation_item item f v -> valid_item item = true.
Proof.
  intros ([fields ->] & Hf & Hv & Hr).
  unfold valid_item. rewrite Hf, Hv. simpl.
  unfold jsstring_eqb.
  destruct Hr as [-> | [-> | [-> | ->]]]; reflexivity.
Qed.

Lemma conversation_item_message item f v :
  conversation_item item f v ->
  message_of_item item = mkMessage (role_of_label f) (sanitizeHtmlContent (VStr v)).
Proof.
  intros (_ & Hf & Hv & _).
  unfold message_of_item, role_of_label. rewrite Hf, Hv, !str_is_VStr.
  f_equal.
  destruct (decide (f = str "human")) as [-> | Hh]; [reflexivity |].
  destruct (decide (f = str "user")) as [-> | Hu]; [reflexivity |].
  rewrite !bool_decide_eq_false_2; [reflexivity | tauto | done | done].
Qed.

Lemma conversation_item_not_nullish data :
  Forall (fun item => exists f v, conversation_item item f v) data ->
  List.find is_nullish data = None.
Proof.
  induction 1 as [| item data (f & v & ([fields ->] & _)) _ IH]; simpl; auto.
Qed.

(** C1. For a valid conversation JSON array (non-empty, every element an
    object with string fields [from] and [value], [from] a recognised label)
    [parseHtmlContent] returns format [json], a message count equal to the
    length of the array, and the messages in array order: role by the synonym
    table, content the markup-preserving sanitizer applied to [value]. *)
Theorem parse_valid_conversation_json `{Host} (text : jsstring) (data : list jsval) :
  JSON_parse text = inl (VArr data) ->
  data <> [] ->
  Forall (fun item => exists f v, conversation_item item f v) data ->
  format (parseHtmlContent text) = str "json" /\
  messageCount (parseHtmlContent text) = Some (length data) /\
  Forall2 (fun item msg => exists f v,
             conversation_item item f v /\
             role msg = role_of_label f /\
             content msg = sanitizeHtmlContent (VStr v))
          data (messages (parseHtmlContent text)).
Proof.
  intros Hparse Hne Hall.
  assert (Hvalid : isValidConversationJSON text = true).
  { unfold isValidConversationJSON. rewrite Hparse.
    destruct data as [| d data]; [done |].
    apply forallb_forall. intros x Hx.
    rewrite Forall_forall in Hall. apply list_elem_of_In in Hx.
    destruct (Hall x Hx) as (f & v & Hc). by eapply conversation_item_valid. }
  unfold parseHtmlContent, parse_try. rewrite Hvalid.
  unfold parseJSONConversation. rewrite Hparse.
  rewrite (conversation_item_not_nullish data Hall). simpl.
  rewrite length_map. repeat split.
  clear Hparse Hne Hvalid.
  induction Hall as [| item data (f & v & Hc) _ IH]; simpl; constructor; auto.
  exists f, v. rewrite (conversation_item_message item f v Hc). auto.
Qed.

Lemma parse_valid_conversation_json_witness :
  format (@parseHtmlContent plain_host two_turns) = str "json" /\
  messageCount (@parseHtmlContent plain_host two_turns) = Some (length two_turns_data) /\
  Forall2 (fun item msg => exists f v,
             conversation_item item f v /\
             role msg = role_of_label f /\
             content msg = sanitizeHtmlContent (VStr v))
          two_turns_data
          (messages (@parseHtmlContent plain_host two_turns)).
Proof.
  apply (@parse_valid_conversation_json plain_host two_turns two_turns_data).
  - vm_compute. reflexivity.
  - discriminate.
  - repeat constructor.
    + exists (str "human"), (str "hi"). unfold conversation_item, recognised.
      repeat split; eauto.
    + exists (str "gpt"), (str "<b>hello</b>"). unfold conversation_item, recognised.
      repeat split; eauto.
Defined.

(** The scenario of the specification, run. *)
Example parse_two_turns :
  @parseHtmlContent plain_host two_turns =
  {| messages := [mkMessage (str "user") (str "hi");
                  mkMessage (str "assistant") (str "<b>hello</b>")];
     format := str "json"; messageCount := Some 2%nat; error := None |}.
Proof. vm_compute. reflexivity. Qed.

(** C2. The sanitizer makes one pass per pattern, so text that the removal
    of a block joins up is not looked at again: from [nested_script] a whole
    [script] block comes out, from [nested_scheme] a [javascript:] URI, and a
    handler whose value is not quoted is not touched. *)
Theorem sanitize_leaves_dangerous_markup :
  sanitizeHtmlContent (VStr nested_script) = str "<script>alert(1)</script>" /\
  matchAll fl_gi (re_block (str "script"))
           (sanitizeHtmlContent (VStr nested_script)) <> [] /\
  sanitizeHtmlContent (VStr bare_handler) = bare_handler /\
  sanitizeHtmlContent (VStr nested_scheme) = str "<a href=javascript:alert(1)>" /\
  includes (sanitizeHtmlContent (VStr nested_scheme)) (str "javascript:") = true.
Proof. vm_compute. repeat split; discriminate. Qed.

(** On input without the patterns the sanitizer changes nothing: a table and
    a code block come back as they went in. *)
Example sanitize_keeps_table :
  sanitizeHtmlContent
    (VStr (str "<table><tr><td>1</td></tr></table><pre><code>x = 1</code></pre>")) =
  str "<table><tr><td>1</td></tr></table><pre><code>x = 1</code></pre>".
Proof. vm_compute. reflexivity. Qed.

Lemma parseJSONConversation_catch `{Host} (text msg : jsstring) :
  JSON_parse text = inr msg ->
  parseJSONConversation text = fallback_result text msg.
Proof. intros Hp. unfold parseJSONConversation. by rewrite Hp. Qed.

Lemma fallback_result_no_count (raw msg : jsstring) :
  messageCount (fallback_result raw msg) = None /\
  length (messages (fallback_result raw msg)) = 1%nat.
Proof. split; reflexivity. Qed.

(** The object of the [catch] handler of [parseJSONConversation] has one
    message and no [messageCount]; the function gives it for text that is not
    JSON.  [parseHtmlContent], its only caller, hands it no such text. *)
Remark catch_result_has_no_count :
  format (@parseJSONConversation plain_host (str "oops")) = str "fallback" /\
  messages (@parseJSONConversation plain_host (str "oops")) =
    [mkMessage (str "unknown") (str "oops")] /\
  messageCount (@parseJSONConversation plain_host (str "oops")) = None /\
  @isValidConversationJSON plain_host (str "oops") = false.
Proof.
  assert (Hr : @parseJSONConversation plain_host (str "oops") =
               fallback_result (str "oops") (str "Unexpected token in JSON")).
  { apply (@parseJSONConversation_catch plain_host). vm_compute. reflexivity. }
  rewrite Hr.
  split; [reflexivity |]. split; [vm_compute; reflexivity |].
  split; [reflexivity | vm_compute; reflexivity].
Qed.

Lemma valid_items_not_nullish (data : list jsval) :
  forallb valid_item data = true -> List.find is_nullish data = None.
Proof.
  induction data as [| d data IH]; simpl; [done |].
  intros [Hd Hrest]%andb_true_iff. rewrite (IH Hrest).
  destruct d; try done.
Qed.

(** C4. On every string, and whatever the JSON reader and the rewriter of
    the host do, the result of [parseHtmlContent] has [messageCount] equal to
    the length of its message list.  The objects of the [catch] handlers,
    which have an [error] and no count, are not among the results: the [try]
    block of [parseHtmlContent] returns on every string, and
    [parseJSONConversation] is called only on text that
    [isValidConversationJSON] accepts, where its handler is not entered
    either. *)
Theorem parseHtmlContent_returns_counted `{Host} (text : jsstring) :
  (exists r, parse_try text = inl r) /\
  count_invariant (parseHtmlContent text) /\
  error (parseHtmlContent text) = None.
Proof.
  unfold parseHtmlContent, parse_try, count_invariant.
  destruct (isValidConversationJSON text) eqn:Hv.
  - split; [eauto |]. unfold isValidConversationJSON in Hv.
    unfold parseJSONConversation.
    destruct (JSON_parse text) as [[| | | | | data |] | msg]; try done.
    destruct data as [| d data]; [done |].
    rewrite (valid_items_not_nullish _ Hv). split; reflexivity.
  - destruct (structured_tier text) as [r |] eqn:Hs.
    + split; [eauto |]. unfold structured_tier in Hs.
      repeat (match type of Hs with
              | context [match ?c with _ => _ end] => destruct c
              | context [if ?c then _ else _] => destruct c
              end; try done);
        injection Hs as <-; split; reflexivity.
    + split; [eauto | split; reflexivity].
Qed.

Lemma regex_tier_no_match (html : jsstring) :
  no_pattern_match html -> regex_tier patterns html = [].
Proof.
  unfold no_pattern_match. generalize patterns.
  induction 1 as [| [fl r] ps Hm _ IH]; simpl; [done |].
  simpl in Hm. by rewrite Hm.
Qed.

(** C5 (amended). When the text is not valid conversation JSON, the
    structured tier gives nothing and no pattern of the regex tier matches,
    [parseHtmlContent] returns one message with role [unknown] whose content
    is the cleaned text, counted, and the format is [parsed]. *)
Theorem parse_single_blob `{Host} (html : jsstring) :
  isValidConversationJSON html = false ->
  structured_tier html = None ->
  no_pattern_match html ->
  parseHtmlContent html =
  {| messages := [mkMessage (str "unknown") (cleanHtmlContent (VStr html))];
     format := str "parsed";
     messageCount := Some 1%nat;
     error := None |}.
Proof.
  intros Hv Hs Hm. unfold parseHtmlContent, parse_try.
  by rewrite Hv, Hs, (regex_tier_no_match html Hm).
Qed.

Lemma parse_single_blob_witness :
  @parseHtmlContent plain_host (str "hello world") =
  {| messages := [mkMessage (str "unknown")
                            (cleanHtmlContent (VStr (str "hello world")))];
     format := str "parsed";
     messageCount := Some 1%nat;
     error := None |}.
Proof.
  apply (@parse_single_blob plain_host (str "hello world")).
  - vm_compute. reflexivity.
  - vm_compute. reflexivity.
  - unfold no_pattern_match, patterns.
    repeat (constructor; [vm_compute; reflexivity |]). constructor.
Defined.

(** C5, as stated, fails: no tier yields a message on [hello world], and the
    format of the result is not [fallback]. *)
Lemma single_blob_format_not_fallback :
  @isValidConversationJSON plain_host (str "hello world") = false /\
  @structured_tier plain_host (str "hello world") = None /\
  no_pattern_match (str "hello world") /\
  messages (@parseHtmlContent plain_host (str "hello world")) =
    [mkMessage (str "unknown") (str "hello world")] /\
  format (@parseHtmlContent plain_host (str "hello world")) <> str "fallback".
Proof.
  split; [vm_compute; reflexivity |].
  split; [vm_compute; reflexivity |].
  split; [unfold no_pattern_match, patterns;
          repeat (constructor; [vm_compute; reflexivity |]); constructor |].
  split; [vm_compute; reflexivity |].
  vm_compute. discriminate.
Qed.

Lemma message_of_match_labelled (mt : rmatch) (g1 g2 : jsstring) :
  group mt 1 = Some g1 -> group mt 2 = Some g2 -> g1 <> [] -> g2 <> [] ->
  message_of_match mt = [mkMessage (toLowerCase g1) (cleanHtmlContent (VStr g2))].
Proof.
  intros H1 H2 N1 N2. unfold message_of_match. rewrite H1, H2.
  destruct g1; [done |]. destruct g2; [done |]. reflexivity.
Qed.

(** C6. A match of pattern (c) with a body takes the first branch of the
    loop, where the role is the label in lower case: [Human: hi] gives role
    [human] and [AI: hello] gives role [ai]; neither is run through the
    substring check of the second branch. *)
Theorem labelled_line_role_is_label :
  matchAll fl_gmi pattern_c (str "Human: hi") =
    [RMatch (str "Human: hi") [(2%nat, str "hi"); (1%nat, str "Human")]] /\
  messages (@parseHtmlContent plain_host (str "Human: hi")) =
    [mkMessage (str "human") (str "hi")] /\
  messages (@parseHtmlContent plain_host (str "AI: hello")) =
    [mkMessage (str "ai") (str "hello")].
Proof. vm_compute. repeat split. Qed.

(** The scenario of the specification: the labels [User] and [Assistant] in
    lower case are the roles. *)
Example parse_user_assistant_lines :
  @parseHtmlContent plain_host (str "User: hi" ++ [10] ++ str "Assistant: hello") =
  {| messages := [mkMessage (str "user") (str "hi");
                  mkMessage (str "assistant") (str "hello")];
     format := str "parsed"; messageCount := Some 2%nat; error := None |}.
Proof. vm_compute. reflexivity. Qed.

(** *** The identifier allocator *)

Arguments pick : simpl never.


Lemma flat_map_seq_shift {A} (f : nat -> list A) (a n : nat) :
  flat_map f (seq (S a) n) = flat_map (fun j => f (S j)) (seq a n).
Proof.
  revert a. induction n as [| n IH]; intros a; simpl; [done |].
  by rewrite IH.
Qed.

Lemma random_id_run (n : nat) (id : jsstring) (w : World) :
  random_id n id w = (inl (id ++ draws w n), skip_random n w).
Proof.
  revert id w. induction n as [| n IH]; intros id w.
  - simpl. unfold ret, draws, skip_random. simpl.
    rewrite app_nil_r, Nat.add_0_r, app_nil_r. by destruct w.
  - simpl. unfold bind, math_random. rewrite IH. f_equal.
    + f_equal. unfold draws. cbn [seq flat_map drawn].
      rewrite <- app_assoc, Nat.add_0_r. do 2 f_equal.
      rewrite flat_map_seq_shift. apply flat_map_ext. intros j.
      unfold emit. simpl. do 2 f_equal. lia.
    + unfold skip_random, emit. simpl. f_equal; [lia |].
      by rewrite <- app_assoc.
Qed.



Lemma generate_loop_step (n : nat) (w : World) :
  generate_loop (S n) w =
  if kv_fails w (kv_ops w) then (inr kv_error, after_attempt w)
  else if collides w (draws w 8) then generate_loop n (after_attempt w)
  else (inl (draws w 8), after_attempt w).
Proof.
  cbn [generate_loop]. unfold bind at 1. rewrite random_id_run.
  unfold bind, kv_get, kv_op, collides, after_attempt, skip_random, emit.
  cbn [kv random drawn clock kv_fails kv_ops trace app].
  rewrite <- app_assoc.
  destruct (kv_fails w (kv_ops w)); [reflexivity |].
  destruct (truthy_str (fst <$> kv w !! draws w 8)); reflexivity.
Qed.

Lemma after_attempt_new_events (w : World) :
  trace (after_attempt w) = trace w ++ (repeat EvRandom 8 ++ [EvGet (draws w 8)]) /\
  count_gets (repeat EvRandom 8 ++ [EvGet (draws w 8)]) = 1%nat.
Proof. split; reflexivity. Qed.

Lemma count_gets_app (a b : list event) :
  count_gets (a ++ b) = (count_gets a + count_gets b)%nat.
Proof. unfold count_gets. by rewrite List.filter_app, length_app. Qed.

Lemma new_events_app (w w' : World) (evs : list event) :
  trace w' = trace w ++ evs -> new_events w w' = evs.
Proof.
  unfold new_events. intros ->. by rewrite skipn_app, Nat.sub_diag, skipn_all.
Qed.

Lemma allocation_error_not_kv_error : allocation_error <> kv_error.
Proof. vm_compute. discriminate. Qed.

Lemma attempt_events_kind (id : jsstring) :
  Forall (fun e => e = EvRandom \/ exists k, e = EvGet k)
         (repeat EvRandom 8 ++ [EvGet id]).
Proof.
  apply Forall_app_2.
  - apply Forall_forall. intros e He%list_elem_of_In%repeat_spec. by left.
  - constructor; [right; by exists id | constructor].
Qed.

(** What one run of the loop appends, and what each outcome tells. *)
Lemma generate_loop_trace (n : nat) (w : World) :
  exists evs,
    trace (snd (generate_loop n w)) = trace w ++ evs /\
    kv (snd (generate_loop n w)) = kv w /\
    (count_gets evs <= n)%nat /\
    Forall (fun e => e = EvRandom \/ exists k, e = EvGet k) evs /\
    match fst (generate_loop n w) with
    | inl id => (exists d, id = flat_map (fun j => pick (random w (d + j))) (seq 0 8)) /\
                collides w id = false
    | inr e => e = allocation_error -> count_gets evs = n
    end.
Proof.
  revert w. induction n as [| n IH]; intros w.
  - exists []. simpl. rewrite app_nil_r. auto.
  - rewrite generate_loop_step.
    destruct (after_attempt_new_events w) as [Ht Hc].
    destruct (kv_fails w (kv_ops w)).
    { eexists. split; [exact Ht |]. split; [reflexivity |].
      split; [rewrite Hc; lia |]. split; [apply attempt_events_kind |]. simpl.
      intros He. symmetry in He. by apply allocation_error_not_kv_error in He. }
    destruct (collides w (draws w 8)) eqn:Hcol.
    + destruct (IH (after_attempt w)) as (evs & Ht' & Hkv & Hle & Hk & Hres).
      exists ((repeat EvRandom 8 ++ [EvGet (draws w 8)]) ++ evs).
      rewrite Ht', Ht, <- app_assoc. split; [reflexivity |].
      split; [exact Hkv |].
      rewrite count_gets_app, Hc. split; [lia |].
      split; [apply Forall_app_2; [apply attempt_events_kind | exact Hk] |].
      destruct (fst (generate_loop n (after_attempt w))) as [id | e].
      * exact Hres.
      * intros He. rewrite (Hres He). reflexivity.
    + eexists. split; [exact Ht |]. split; [reflexivity |].
      split; [rewrite Hc; lia |]. split; [apply attempt_events_kind |].
      simpl. split; [| exact Hcol].
      exists (drawn w). reflexivity.
Qed.

Lemma checked_app (a b : list event) : checked (a ++ b) = checked a ++ checked b.
Proof. unfold checked. apply flat_map_app. Qed.

Lemma count_gets_checked (evs : list event) : count_gets evs = length (checked evs).
Proof.
  unfold count_gets, checked. induction evs as [| e evs IH]; [reflexivity |].
  destruct e; cbn [List.filter is_get flat_map app length]; by rewrite ?IH.
Qed.

(** The identifier that the loop returns is one it has checked. *)
Lemma generate_loop_returns_checked (n : nat) (w : World) (id : jsstring) :
  fst (generate_loop n w) = inl id ->
  In id (checked (new_events w (snd (generate_loop n w)))).
Proof.
  revert w. induction n as [| n IH]; intros w; [discriminate |].
  rewrite generate_loop_step.
  destruct (after_attempt_new_events w) as [Ht _].
  destruct (kv_fails w (kv_ops w)); [discriminate |].
  destruct (collides w (draws w 8)) eqn:Hcol.
  - intros Hid. specialize (IH _ Hid).
    destruct (generate_loop_trace n (after_attempt w)) as (evs & Ht' & _).
    rewrite (new_events_app _ _ _ Ht') in IH.
    rewrite Ht, <- app_assoc in Ht'. rewrite (new_events_app _ _ _ Ht').
    rewrite checked_app. apply in_or_app. by right.
  - cbn [fst snd]. intros [= <-]. rewrite (new_events_app _ _ _ Ht).
    rewrite checked_app. apply in_or_app. right. by left.
Qed.

(** When no store read throws, the loop returns an identifier or ends with
    the allocation error. *)
Lemma generate_loop_no_faults (n : nat) (w : World) :
  no_faults w ->
  (exists id, fst (generate_loop n w) = inl id) \/
  fst (generate_loop n w) = inr allocation_error.
Proof.
  revert w. induction n as [| n IH]; intros w Hnf; [by right |].
  rewrite generate_loop_step, Hnf.
  destruct (collides w (draws w 8)); [| left; by eexists].
  apply IH. intros i. apply Hnf.
Qed.

Lemma pick_in_chars (x : Q) :
  (0 <= x)%Q -> (x < 1)%Q -> exists c, pick x = [c] /\ In c chars.
Proof.
  intros H0 H1. unfold pick. change (length chars) with 55%nat.
  set (y := (x * inject_Z (Z.of_nat 55))%Q).
  assert (Hy0 : (0 <= y)%Q).
  { unfold y. apply Qmult_le_0_compat; [exact H0 | discriminate]. }
  assert (Hy1 : (y < inject_Z 55)%Q).
  { unfold y. change (inject_Z (Z.of_nat 55)) with (inject_Z 55).
    apply Qlt_le_trans with (1 * inject_Z 55)%Q.
    - apply Qmult_lt_compat_r; [reflexivity | exact H1].
    - rewrite Qmult_1_l. apply Qle_refl. }
  assert (Hf0 : (0 <= Qfloor y)%Z).
  { change 0%Z with (Qfloor 0). by apply Qfloor_resp_le. }
  assert (Hf1 : (Qfloor y < 55)%Z).
  { rewrite Zlt_Qlt. eapply Qle_lt_trans; [apply Qfloor_le | exact Hy1]. }
  destruct (Z.ltb_spec (Qfloor y) 0); [lia |].
  destruct (lookup_lt_is_Some_2 chars (Z.to_nat (Qfloor y))) as [c Hc].
  { change (length chars) with 55%nat. lia. }
  rewrite Hc. exists c. split; [reflexivity |].
  apply list_elem_of_In. by eapply list_elem_of_lookup_2.
Qed.


Lemma picks_in_chars (w : World) (f : nat -> nat) (l : list nat) :
  random_ok w ->
  length (flat_map (fun j => pick (random w (f j))) l) = length l /\
  Forall (fun c => In c chars) (flat_map (fun j => pick (random w (f j))) l).
Proof.
  intros Hr. induction l as [| j l [IHl IHf]]; simpl; [by split |].
  destruct (Hr (f j)) as [H0 H1].
  destruct (pick_in_chars _ H0 H1) as (c & -> & Hc). simpl.
  split; [by rewrite IHl | by constructor].
Qed.

Lemma chars_distinct : NoDup chars.
Proof. apply (bool_decide_unpack _). vm_compute. exact I. Qed.

Lemma chars_without (left_out : jsstring) (c : N) :
  forallb (fun a => negb (existsb (N.eqb a) chars)) left_out = true ->
  In c left_out -> ~ In c chars.
Proof.
  intros Hb Ha Hc. rewrite forallb_forall in Hb. specialize (Hb c Ha).
  apply negb_true_iff in Hb. apply not_true_iff_false in Hb. apply Hb.
  apply existsb_exists. exists c. split; [exact Hc | apply N.eqb_refl].
Qed.

Lemma cycling_world_random_ok : random_ok cycling_world.
Proof.
  intros n. cbn [cycling_world random].
  pose proof (Nat.mod_upper_bound n 64 ltac:(discriminate)) as Hn.
  unfold Qle, Qlt. cbn [Qnum Qden]. lia.
Qed.

(** C7 (amended). The alphabet has 55 distinct characters, all of them
    ASCII letters and digits, none of them one of [0 O 1 l I], nor [o] or [L].
    With a random source that keeps its contract, an identifier that
    [generateUniqueId] returns has 8 characters, all from the alphabet, and
    the store holds no non-empty value under it.  The allocation error comes
    only after exactly 10 existence checks; and when the store answers and
    holds a non-empty value under every identifier that was generated and
    checked, the allocation error does come, after exactly 10 checks. *)
Theorem generateUniqueId_spec (w : World) :
  random_ok w ->
  length chars = 55%nat /\ NoDup chars /\
  forallb is_alnum chars = true /\
  (forall c, In c (ambiguous ++ also_left_out) -> ~ In c chars) /\
  (forall id, fst (generateUniqueId w) = inl id ->
     length id = 8%nat /\ Forall (fun c => In c chars) id /\
     collides w id = false) /\
  (fst (generateUniqueId w) = inr allocation_error ->
     count_gets (new_events w (snd (generateUniqueId w))) = 10%nat) /\
  (no_faults w ->
   forallb (collides w) (checked (new_events w (snd (generateUniqueId w)))) = true ->
   fst (generateUniqueId w) = inr allocation_error /\
   count_gets (new_events w (snd (generateUniqueId w))) = 10%nat).
Proof.
  intros Hr. unfold generateUniqueId, maxAttempts.
  pose proof (generate_loop_returns_checked 10 w) as Hchecked.
  destruct (generate_loop_trace 10 w) as (evs & Ht & _ & _ & _ & Hres).
  rewrite (new_events_app _ _ _ Ht) in *.
  split; [reflexivity |]. split; [apply chars_distinct |].
  split; [vm_compute; reflexivity |].
  split; [intros c; apply chars_without; vm_compute; reflexivity |].
  assert (Hfail : fst (generate_loop 10 w) = inr allocation_error ->
                  count_gets evs = 10%nat).
  { intros He. rewrite He in Hres. by apply Hres. }
  split; [| split; [exact Hfail |]].
  - intros id Hid. rewrite Hid in Hres. destruct Hres as [[d ->] Hfree].
    destruct (picks_in_chars w (fun j => (d + j)%nat) (seq 0 8) Hr) as [Hl Hin].
    rewrite length_seq in Hl. auto.
  - intros Hnf Hcol.
    destruct (generate_loop_no_faults 10 w Hnf) as [[id Hid] | He].
    + exfalso. specialize (Hchecked id Hid).
      rewrite forallb_forall in Hcol. specialize (Hcol id Hchecked).
      rewrite Hid in Hres. destruct Hres as [_ Hfree]. congruence.
    + split; [exact He | by apply Hfail].
Qed.

Lemma generateUniqueId_spec_witness :
  (fst (generateUniqueId cycling_world) = inl (str "ghijkmnn") /\
   length (str "ghijkmnn") = 8%nat /\
   Forall (fun c => In c chars) (str "ghijkmnn") /\
   collides cycling_world (str "ghijkmnn") = false) /\
  (forallb (collides colliding_world)
           (checked (new_events colliding_world (snd (generateUniqueId colliding_world)))) =
     true /\
   fst (generateUniqueId colliding_world) = inr allocation_error /\
   count_gets (new_events colliding_world (snd (generateUniqueId colliding_world))) = 10%nat).
Proof.
  split.
  - assert (Hid : fst (generateUniqueId cycling_world) = inl (str "ghijkmnn"))
      by (vm_compute; reflexivity).
    destruct (generateUniqueId_spec cycling_world cycling_world_random_ok)
      as (_ & _ & _ & _ & Hok & _).
    split; [exact Hid | apply Hok, Hid].
  - assert (Hr : random_ok colliding_world).
    { intros n. split; [apply Qle_refl | reflexivity]. }
    assert (Hall : forallb (collides colliding_world)
                     (checked (new_events colliding_world
                                 (snd (generateUniqueId colliding_world)))) = true)
      by (vm_compute; reflexivity).
    destruct (generateUniqueId_spec colliding_world Hr) as (_ & _ & _ & _ & _ & _ & Hex).
    split; [exact Hall |]. apply Hex; [intros n; reflexivity | exact Hall].
Defined.

(** C7, as stated, fails: the alphabet of the source has 55 characters
    (neither [o] nor [L] is in it), not 56. *)
Lemma alphabet_is_not_56 : length chars <> 56%nat.
Proof. vm_compute. discriminate. Qed.

(** On an empty store the first candidate is returned. *)
Example generateUniqueId_fresh :
  fst (generateUniqueId fresh_world) = inl (str "aabcdefg").
Proof. vm_compute. reflexivity. Qed.

(** *** The rate limiter *)

Arguments parseInt : simpl never.
Arguments String_of_int : simpl never.

Lemma kv_get_run (key : jsstring) (w : World) :
  kv_get key w =
  if kv_fails w (kv_ops w) then (inr kv_error, after_get key w)
  else (inl (fst <$> kv w !! key), after_get key w).
Proof. unfold kv_get, kv_op, after_get, emit. simpl. by destruct (kv_fails w (kv_ops w)). Qed.

Lemma kv_put_run (key value : jsstring) (ttl : option N) (w : World) :
  kv_put key value ttl w =
  if kv_fails w (kv_ops w) then (inr kv_error, after_put key value ttl false w)
  else (inl tt, after_put key value ttl true w).
Proof. unfold kv_put, kv_op, after_put, emit. simpl. by destruct (kv_fails w (kv_ops w)). Qed.

Lemma checkRateLimit_run (ip : jsstring) (w : World) :
  checkRateLimit ip w =
  let key := rate_key ip in
  let w1 := after_get key w in
  let value := String_of_int (count_of (counter w ip) + 1) in
  if kv_fails w (kv_ops w) then (inr kv_error, w1)
  else if limited (counter w ip) then (inr rate_limit_error, w1)
  else if kv_fails w (S (kv_ops w))
       then (inr kv_error, after_put key value (Some 3600) false w1)
       else (inl tt, after_put key value (Some 3600) true w1).
Proof.
  unfold checkRateLimit, bind. rewrite kv_get_run.
  destruct (kv_fails w (kv_ops w)); [reflexivity |].
  cbv zeta. unfold limited, counter, count_of.
  destruct (fst <$> kv w !! rate_key ip) as [c |]; simpl.
  - destruct (parseInt c) as [n |]; simpl.
    + destruct (match c with [] => false | _ :: _ => true end);
        destruct (limit <=? n)%Z; simpl; try reflexivity;
        by rewrite kv_put_run.
    + rewrite andb_false_r. by rewrite kv_put_run.
  - by rewrite kv_put_run.
Qed.

Lemma small_counter (j : nat) :
  (j < 10)%nat ->
  limited (match j with O => None | S _ => Some (String_of_int (Z.of_nat j)) end) = false /\
  count_of (match j with O => None | S _ => Some (String_of_int (Z.of_nat j)) end) = Z.of_nat j.
Proof.
  intros Hj. do 10 (destruct j as [| j]; [vm_compute; split; reflexivity |]). lia.
Qed.

Lemma checkRateLimit_admits (ip : jsstring) (w : World) (j : nat) :
  no_faults w -> counter_is w ip j -> (j < 10)%nat ->
  fst (checkRateLimit ip w) = inl tt /\
  no_faults (snd (checkRateLimit ip w)) /\
  counter_is (snd (checkRateLimit ip w)) ip (S j).
Proof.
  intros Hnf Hc Hj. rewrite checkRateLimit_run. cbv zeta.
  destruct (small_counter j Hj) as [Hl Hn].
  assert (Hcur : counter w ip =
                 match j with O => None | S _ => Some (String_of_int (Z.of_nat j)) end).
  { unfold counter. rewrite Hc. by destruct j. }
  rewrite !Hnf, !Hcur, Hl, Hn. split; [reflexivity |]. split; [exact Hnf |].
  unfold counter_is, after_put. cbn [kv snd]. rewrite lookup_insert_eq.
  do 3 f_equal. lia.
Qed.

Lemma checkRateLimit_rejects (ip : jsstring) (w : World) :
  no_faults w -> counter_is w ip 10 ->
  fst (checkRateLimit ip w) = inr rate_limit_error /\
  kv (snd (checkRateLimit ip w)) = kv w.
Proof.
  intros Hnf Hc. rewrite checkRateLimit_run. cbv zeta.
  assert (Hcur : counter w ip = Some (String_of_int (Z.of_nat 10))).
  { unfold counter. by rewrite Hc. }
  rewrite !Hnf, !Hcur.
  replace (limited (Some (String_of_int (Z.of_nat 10)))) with true
    by (vm_compute; reflexivity).
  split; reflexivity.
Qed.

Lemma admit_many_from (k j : nat) (ip : jsstring) (w : World) :
  no_faults w -> counter_is w ip j -> (j + k <= 10)%nat ->
  fst (admit_many k ip w) = repeat (inl tt) k /\
  no_faults (snd (admit_many k ip w)) /\
  counter_is (snd (admit_many k ip w)) ip (j + k).
Proof.
  revert j w. induction k as [| k IH]; intros j w Hnf Hc Hjk.
  - simpl. rewrite Nat.add_0_r. auto.
  - cbn [admit_many].
    destruct (checkRateLimit_admits ip w j Hnf Hc ltac:(lia)) as (Hr & Hnf' & Hc').
    destruct (checkRateLimit ip w) as [r w1]. simpl in Hr, Hnf', Hc'. subst r.
    destruct (IH (S j) w1 Hnf' Hc' ltac:(lia)) as (Hrs & Hnf'' & Hc'').
    destruct (admit_many k ip w1) as [rs w2]. simpl in *. subst rs.
    split; [reflexivity |]. split; [exact Hnf'' |].
    by replace (j + S k)%nat with (S j + k)%nat by lia.
Qed.

(** C8. A client whose counter is not in the store (a new window) and who
    sends requests one after the other is admitted ten times, the stored
    counter being the number of admitted requests after each, and the
    eleventh request is refused with the rate-limit error and leaves the
    store as it was. *)
Theorem rate_limit_window (w : World) (ip : jsstring) :
  no_faults w ->
  kv w !! rate_key ip = None ->
  (forall k, (1 <= k <= 10)%nat ->
     fst (admit_many k ip w) = repeat (inl tt) k /\
     kv (snd (admit_many k ip w)) !! rate_key ip =
       Some (String_of_int (Z.of_nat k), Some 3600)) /\
  fst (checkRateLimit ip (snd (admit_many 10 ip w))) = inr rate_limit_error /\
  kv (snd (checkRateLimit ip (snd (admit_many 10 ip w)))) =
    kv (snd (admit_many 10 ip w)).
Proof.
  intros Hnf Hc. split.
  - intros k Hk.
    destruct (admit_many_from k 0 ip w Hnf Hc ltac:(lia)) as (Hr & _ & Hc').
    split; [exact Hr |]. unfold counter_is in Hc'. simpl in Hc'.
    destruct k; [lia | exact Hc'].
  - destruct (admit_many_from 10 0 ip w Hnf Hc ltac:(lia)) as (_ & Hnf' & Hc').
    by apply checkRateLimit_rejects.
Qed.

Lemma rate_limit_window_witness :
  fst (admit_many 11 (str "203.0.113.7") fresh_world) =
    repeat (inl tt) 10 ++ [inr rate_limit_error] /\
  fst (checkRateLimit (str "203.0.113.7")
         (snd (admit_many 10 (str "203.0.113.7") fresh_world))) =
    inr rate_limit_error.
Proof.
  split; [vm_compute; reflexivity |].
  apply (rate_limit_window fresh_world (str "203.0.113.7")).
  - intros n. reflexivity.
  - vm_compute. reflexivity.
Defined.


(** *** Submissions *)

Section SubmitProperties.
Context `{Host}.

Lemma handlePost_run (request : Request) (w : World) :
  handlePost request w =
  match checkRateLimit (client_ip request) w with
  | (inr e, w1) => (inr e, w1)
  | (inl _, w1) =>
      match request_content request with
      | inr e => (inr e, w1)
      | inl v =>
          let html := preprocessContent v in
          if Nat.eqb (length html) 0 then (inl no_content, w1)
          else if Nat.ltb max_size (length html) then (inl too_large, w1)
          else
            match generateUniqueId w1 with
            | (inr e, w2) => (inr e, w2)
            | (inl id, w2) =>
                let w3 := emit (EvParse html) w2 in
                let value := JSON_stringify (record_of request w3 id html) in
                if kv_fails w3 (kv_ops w3)
                then (inr kv_error, after_put id value None false w3)
                else (inl (shared request id), after_put id value None true w3)
            end
      end
  end.
Proof.
  unfold handlePost, bind at 1.
  destruct (checkRateLimit (client_ip request) w) as [[[] | e] w1]; [| reflexivity].
  unfold bind at 1, lift.
  destruct (request_content request) as [v | e]; [| reflexivity].
  cbv zeta.
  destruct (Nat.eqb (length (preprocessContent v)) 0); [reflexivity |].
  destruct (Nat.ltb max_size (length (preprocessContent v))); [reflexivity |].
  unfold bind at 1.
  destruct (generateUniqueId w1) as [[id | e] w2]; [| reflexivity].
  unfold bind, call_parse, now. rewrite kv_put_run.
  unfold record_of, emit, ret, shared. cbn [clock kv_fails kv_ops].
  destruct (kv_fails w2 (kv_ops w2)); reflexivity.
Qed.

Lemma checkRateLimit_admitted (ip : jsstring) (w : World) :
  fst (checkRateLimit ip w) = inl tt ->
  snd (checkRateLimit ip w) =
    after_put (rate_key ip) (String_of_int (count_of (counter w ip) + 1))
              (Some 3600) true (after_get (rate_key ip) w) /\
  limited (counter w ip) = false.
Proof.
  rewrite checkRateLimit_run. cbv zeta.
  destruct (kv_fails w (kv_ops w)); [discriminate |].
  destruct (limited (counter w ip)); [discriminate |].
  destruct (kv_fails w (S (kv_ops w))); [discriminate |]. auto.
Qed.

Lemma checkRateLimit_no_faults (ip : jsstring) (w : World) :
  no_faults w ->
  checkRateLimit ip w =
  if limited (counter w ip)
  then (inr rate_limit_error, after_get (rate_key ip) w)
  else (inl tt,
        after_put (rate_key ip) (String_of_int (count_of (counter w ip) + 1))
                  (Some 3600) true (after_get (rate_key ip) w)).
Proof. intros Hnf. rewrite checkRateLimit_run. cbv zeta. by rewrite !Hnf. Qed.

Lemma generate_loop_frame (n : nat) (w : World) :
  clock (snd (generate_loop n w)) = clock w /\
  kv_fails (snd (generate_loop n w)) = kv_fails w.
Proof.
  revert w. induction n as [| n IH]; intros w; [by split |].
  rewrite generate_loop_step.
  destruct (kv_fails w (kv_ops w)); [by split |].
  destruct (collides w (draws w 8)); [| by split].
  destruct (IH (after_attempt w)) as [-> ->]. by split.
Qed.

Lemma pick_no_underscore (x : Q) : ~ In 95 (pick x).
Proof.
  unfold pick. destruct (Qfloor _ <? 0)%Z.
  { vm_compute. intuition discriminate. }
  destruct (chars !! _) as [c |] eqn:Hc.
  - intros [-> | []].
    apply list_elem_of_lookup_2, list_elem_of_In in Hc.
    assert (Hb : forallb (fun a => negb (a =? 95)) chars = true)
      by (vm_compute; reflexivity).
    rewrite forallb_forall in Hb. specialize (Hb _ Hc). discriminate.
  - vm_compute. intuition discriminate.
Qed.

Lemma drawn_id_not_rate_key (w : World) (d : nat) (ip : jsstring) :
  flat_map (fun j => pick (random w (d + j))) (seq 0 8) <> rate_key ip.
Proof.
  intros Heq.
  assert (Hin : In 95 (rate_key ip)).
  { unfold rate_key. apply in_or_app. left. vm_compute. tauto. }
  rewrite <- Heq in Hin. apply in_flat_map in Hin as (j & _ & Hj).
  by apply pick_no_underscore in Hj.
Qed.

(** C10. When the rate-limit check lets a submission through, the counter
    of the client is written once, with the old count plus one, right after
    it was read and before anything else happens; whatever the handler does
    next (an empty or oversized text, an error of the allocator or of the
    store, a stored record), it writes no other value under that key, and
    the store holds the incremented counter at the end. *)
Theorem rate_counter_charged_first (request : Request) (w : World) :
  fst (checkRateLimit (client_ip request) w) = inl tt ->
  exists rest,
    trace (snd (handlePost request w)) =
      trace w ++
      EvGet (rate_key (client_ip request)) ::
      EvPut (rate_key (client_ip request))
            (String_of_int (count_of (counter w (client_ip request)) + 1))
            (Some 3600) :: rest /\
    Forall (fun e => forall k v t, e = EvPut k v t -> k <> rate_key (client_ip request))
           rest /\
    kv (snd (handlePost request w)) !! rate_key (client_ip request) =
      Some (String_of_int (count_of (counter w (client_ip request)) + 1), Some 3600).
Proof.
  intros Hadm. rewrite handlePost_run.
  destruct (checkRateLimit_admitted _ _ Hadm) as [Hw1 _].
  destruct (checkRateLimit (client_ip request) w) as [[[] | e] w1]; [| discriminate].
  cbn [snd] in Hw1. clear Hadm.
  set (key := rate_key (client_ip request)) in *.
  set (value := String_of_int (count_of (counter w (client_ip request)) + 1)) in *.
  assert (Ht1 : trace w1 = trace w ++ [EvGet key; EvPut key value (Some 3600)]).
  { rewrite Hw1. unfold after_put, after_get. cbn [trace]. by rewrite <- app_assoc. }
  assert (Hk1 : kv w1 !! key = Some (value, Some 3600)).
  { rewrite Hw1. unfold after_put, after_get. cbn [kv]. apply lookup_insert_eq. }
  assert (Hstop : exists rest,
             trace w1 = trace w ++ EvGet key :: EvPut key value (Some 3600) :: rest /\
             Forall (fun e => forall k v t, e = EvPut k v t -> k <> key) rest /\
             kv w1 !! key = Some (value, Some 3600)).
  { exists []. split; [exact Ht1 |]. split; [constructor | exact Hk1]. }
  destruct (request_content request) as [v | e]; [| exact Hstop].
  cbv zeta.
  destruct (Nat.eqb (length (preprocessContent v)) 0); [exact Hstop |].
  destruct (Nat.ltb max_size (length (preprocessContent v))); [exact Hstop |].
  clear Hstop. unfold generateUniqueId, maxAttempts.
  destruct (generate_loop_trace 10 w1) as (evs & Ht & Hkv & _ & Hkind & Hres).
  assert (Hevs : Forall (fun e => forall k v t, e = EvPut k v t -> k <> key) evs).
  { eapply Forall_impl; [exact Hkind |].
    intros e [-> | [k' ->]] k v0 t He; discriminate. }
  destruct (generate_loop 10 w1) as [[id | e] w2]; cbn [fst snd] in *.
  - destruct Hres as [[d ->] _].
    set (id := flat_map _ _) in *.
    assert (Hid : id <> key) by apply drawn_id_not_rate_key.
    set (html := preprocessContent v).
    set (w3 := emit (EvParse html) w2).
    set (stored := JSON_stringify _).
    exists (evs ++ [EvParse html; EvPut id stored None]).
    assert (Htr : forall b, trace (after_put id stored None b w3) =
              trace w ++ EvGet key :: EvPut key value (Some 3600) ::
              evs ++ [EvParse html; EvPut id stored None]).
    { intros b. unfold after_put, w3, emit. cbn [trace]. rewrite Ht, Ht1.
      rewrite <- !app_assoc. reflexivity. }
    assert (Hrest : Forall (fun e => forall k v t, e = EvPut k v t -> k <> key)
                           (evs ++ [EvParse html; EvPut id stored None])).
    { apply Forall_app_2; [exact Hevs |].
      constructor; [intros; discriminate |].
      constructor; [| constructor]. intros k v0 t [= <- _ _]. exact Hid. }
    destruct (kv_fails w3 (kv_ops w3)); cbn [snd].
    + split; [apply Htr |]. split; [exact Hrest |].
      unfold after_put, w3, emit. cbn [kv]. by rewrite Hkv.
    + split; [apply Htr |]. split; [exact Hrest |].
      unfold after_put, w3, emit. cbn [kv].
      rewrite lookup_insert_ne by exact Hid. by rewrite Hkv.
  - exists evs. split; [rewrite Ht, Ht1; by rewrite <- app_assoc |].
    split; [exact Hevs | by rewrite Hkv].
Qed.

Lemma no_parse_among (evs : list event) :
  Forall (fun e => e = EvRandom \/ exists k, e = EvGet k) evs ->
  forall html, ~ In (EvParse html) evs.
Proof.
  intros Hk html Hin. rewrite Forall_forall in Hk.
  apply list_elem_of_In in Hin. by destruct (Hk _ Hin) as [? | [? ?]].
Qed.

(** C9 (amended). With a working store, a submission ends in one of six
    ways, told apart in this order: the client is rate-limited (error); the
    body was announced as JSON and cannot be read as an object (error); the
    normalised text is empty (status 400); it is longer than 1 MiB (status
    413); no free identifier is found (error); otherwise the text is handed
    to [parseHtmlContent], the record with the result is stored under the new
    identifier and the response carries it.  Only the last hands anything to
    the parser. *)
Theorem handlePost_outcomes (request : Request) (w : World) :
  no_faults w ->
  let res := handlePost request w in
  let w1 := snd (checkRateLimit (client_ip request) w) in
  (limited (counter w (client_ip request)) = true ->
     fst res = inr rate_limit_error /\ ~ parse_invoked w (snd res)) /\
  (limited (counter w (client_ip request)) = false ->
     (forall e, request_content request = inr e ->
        fst res = inr e /\ ~ parse_invoked w (snd res)) /\
     (forall v, request_content request = inl v ->
        let html := preprocessContent v in
        (html = [] -> fst res = inl no_content /\ ~ parse_invoked w (snd res)) /\
        ((max_size < length html)%nat ->
           fst res = inl too_large /\ ~ parse_invoked w (snd res)) /\
        (html <> [] -> (length html <= max_size)%nat ->
           (forall e, fst (generateUniqueId w1) = inr e ->
              fst res = inr e /\ ~ parse_invoked w (snd res)) /\
           (forall id, fst (generateUniqueId w1) = inl id ->
              fst res = inl (shared request id) /\
              In (EvParse html) (new_events w (snd res)) /\
              kv (snd res) !! id =
                Some (JSON_stringify (record_of request w id html), None))))).
Proof.
  intros Hnf. cbv zeta. rewrite handlePost_run, (checkRateLimit_no_faults _ _ Hnf).
  set (ip := client_ip request).
  set (key := rate_key ip).
  set (value := String_of_int (count_of (counter w ip) + 1)).
  assert (Hget : forall html, ~ In (EvParse html) [EvGet key]).
  { intros html [He | []]. discriminate. }
  split.
  - intros ->. cbn [fst snd]. split; [reflexivity |].
    intros [html Hin]. unfold new_events, after_get in Hin. cbn [trace] in Hin.
    rewrite skipn_app, Nat.sub_diag, skipn_all in Hin. by apply Hget in Hin.
  - intros ->. cbn [fst snd].
    set (w1 := after_put key value (Some 3600) true (after_get key w)).
    assert (Ht1 : trace w1 = trace w ++ [EvGet key; EvPut key value (Some 3600)]).
    { unfold w1, after_put, after_get. cbn [trace]. by rewrite <- app_assoc. }
    assert (Hno1 : ~ parse_invoked w w1).
    { intros [html Hin]. rewrite (new_events_app _ _ _ Ht1) in Hin.
      destruct Hin as [He | [He | []]]; discriminate. }
    split.
    + intros e ->. auto.
    + intros v ->. cbv zeta. set (html := preprocessContent v).
      split; [| split].
      * intros ->. auto.
      * intros Hbig. destruct (Nat.eqb_spec (length html) 0) as [H0 | _]; [lia |].
        destruct (Nat.ltb_spec max_size (length html)); [auto | lia].
      * intros Hne Hle.
        destruct (Nat.eqb_spec (length html) 0) as [H0 | _].
        { destruct html; [done | discriminate]. }
        destruct (Nat.ltb_spec max_size (length html)) as [Hbig | _]; [lia |].
        unfold generateUniqueId, maxAttempts.
        destruct (generate_loop_trace 10 w1) as (evs & Ht & Hkv & _ & Hkind & _).
        destruct (generate_loop_frame 10 w1) as [Hclock Hfails].
        destruct (generate_loop 10 w1) as [[id | e] w2]; cbn [fst snd] in *.
        -- split; [intros e [=] |]. intros id' [= <-].
           assert (Hf3 : kv_fails (emit (EvParse html) w2)
                           (kv_ops (emit (EvParse html) w2)) = false).
           { unfold emit. cbn [kv_fails kv_ops]. rewrite Hfails. apply Hnf. }
           rewrite Hf3. cbn [fst snd]. split; [reflexivity |].
           assert (Ht3 : trace (after_put id
                           (JSON_stringify (record_of request (emit (EvParse html) w2) id html))
                           None true (emit (EvParse html) w2)) =
                         trace w ++ ([EvGet key; EvPut key value (Some 3600)] ++ evs ++
                           [EvParse html;
                            EvPut id (JSON_stringify
                                        (record_of request (emit (EvParse html) w2) id html))
                                  None])).
           { unfold after_put, emit. cbn [trace]. rewrite Ht, Ht1.
             rewrite <- !app_assoc. reflexivity. }
           split.
           ++ rewrite (new_events_app _ _ _ Ht3).
              apply in_or_app. right. apply in_or_app. right. by left.
           ++ unfold after_put. cbn [kv]. rewrite lookup_insert_eq.
              do 3 f_equal. unfold record_of, emit. cbn [clock].
              rewrite Hclock. reflexivity.
        -- split; [| intros id [=]]. intros e' [= <-]. split; [reflexivity |].
           intros [h Hin].
           assert (Ht2 : trace w2 = trace w ++ ([EvGet key; EvPut key value (Some 3600)] ++ evs)).
           { rewrite Ht, Ht1. by rewrite <- app_assoc. }
           rewrite (new_events_app _ _ _ Ht2) in Hin.
           apply in_app_or in Hin as [[He | [He | []]] | Hin]; try discriminate.
           by apply (no_parse_among evs Hkind) in Hin.
Qed.

End SubmitProperties.

Lemma rate_counter_charged_first_witness :
  exists rest,
    trace (snd (@handlePost plain_host bad_json_request fresh_world)) =
      trace fresh_world ++
      EvGet (rate_key (client_ip bad_json_request)) ::
      EvPut (rate_key (client_ip bad_json_request))
            (String_of_int (count_of (counter fresh_world (client_ip bad_json_request)) + 1))
            (Some 3600) :: rest /\
    Forall (fun e => forall k v t, e = EvPut k v t ->
                     k <> rate_key (client_ip bad_json_request)) rest /\
    kv (snd (@handlePost plain_host bad_json_request fresh_world))
       !! rate_key (client_ip bad_json_request) =
      Some (String_of_int (count_of (counter fresh_world (client_ip bad_json_request)) + 1),
            Some 3600).
Proof.
  apply (@rate_counter_charged_first plain_host bad_json_request fresh_world).
  vm_compute. reflexivity.
Defined.

Lemma handlePost_outcomes_witness :
  fst (@handlePost plain_host hello_request fresh_world) =
    inl (shared hello_request (str "aabcdefg")) /\
  In (EvParse (str "hello"))
     (new_events fresh_world (snd (@handlePost plain_host hello_request fresh_world))) /\
  kv (snd (@handlePost plain_host hello_request fresh_world)) !! str "aabcdefg" =
    Some (@JSON_stringify plain_host
            (@record_of plain_host hello_request fresh_world (str "aabcdefg") (str "hello")),
          None).
Proof.
  assert (Hnf : no_faults fresh_world) by (intros n; reflexivity).
  destruct (@handlePost_outcomes plain_host hello_request fresh_world Hnf)
    as [_ Hadm].
  destruct (Hadm ltac:(vm_compute; reflexivity)) as [_ Hok].
  destruct (Hok (VStr (str "hello")) ltac:(vm_compute; reflexivity)) as (_ & _ & Hparse).
  destruct (Hparse ltac:(vm_compute; discriminate)
                   ltac:(apply Nat.leb_le; vm_compute; reflexivity)) as [_ Hid].
  apply (Hid (str "aabcdefg")). vm_compute. reflexivity.
Defined.

(** C9, as stated, fails.  A body announced as JSON that is not JSON is
    refused with the error of the reader, and a submission for which the ten
    identifiers are taken is refused with the error of the allocator: neither
    client is rate-limited, neither text is empty or too long, and in neither
    case is the parser called or a record stored. *)
Lemma rejected_for_other_reasons :
  (limited (counter fresh_world (client_ip bad_json_request)) = false /\
   fst (@handlePost plain_host bad_json_request fresh_world) =
     inr (str "Unexpected token in JSON") /\
   ~ parse_invoked fresh_world
       (snd (@handlePost plain_host bad_json_request fresh_world))) /\
  (limited (counter colliding_world (client_ip hello_request)) = false /\
   @request_content plain_host hello_request = inl (VStr (str "hello")) /\
   preprocessContent (VStr (str "hello")) = str "hello" /\
   fst (@handlePost plain_host hello_request colliding_world) = inr allocation_error /\
   ~ parse_invoked colliding_world
       (snd (@handlePost plain_host hello_request colliding_world))).
Proof.
  split.
  - split; [vm_compute; reflexivity |]. split; [vm_compute; reflexivity |].
    intros [html Hin]. vm_compute in Hin. intuition discriminate.
  - split; [vm_compute; reflexivity |]. split; [vm_compute; reflexivity |].
    split; [vm_compute; reflexivity |]. split; [vm_compute; reflexivity |].
    intros [html Hin]. vm_compute in Hin. intuition discriminate.
Qed.

(** ** Retrieval *)

(** *** The identifier check *)

(** A loop that makes exactly [n] rounds over a one-code-unit body. *)
Lemma repeat_exact_sound mr (p : N -> bool) (g : bool) k :
  (forall d x, mr d x = step x p d) ->
  forall n fuel x res,
    repeat_matcher mr [] g k fuel n (Some n) x = Some res ->
    exists pre post,
      m_rest x = pre ++ post /\ length pre = n /\
      forallb p pre = true /\ k (after x pre post) = Some res.
Proof.
  intros Hmr. induction n as [| n IH]; intros fuel x res Hm.
  - destruct fuel as [| fuel]; [discriminate |]. cbn [repeat_matcher] in Hm.
    exists [], (m_rest x). rewrite after_nil. auto.
  - destruct fuel as [| fuel]; [discriminate |].
    cbn [repeat_matcher Nat.eqb negb andb Nat.pred option_map] in Hm.
    rewrite clear_caps_nil, Hmr in Hm. unfold step in Hm.
    destruct (m_rest x) as [| c s] eqn:Hx; [discriminate |].
    destruct (p c) eqn:Hp; [| discriminate].
    apply IH in Hm as (pre & post & Hr & Hl & Hall & Hk).
    cbn [m_rest] in Hr. subst s.
    exists (c :: pre), post. split; [reflexivity |].
    split; [cbn [length]; by rewrite Hl |].
    split; [cbn [forallb]; by rewrite Hp |]. exact Hk.
Qed.

Lemma repeat_exact_complete mr (p : N -> bool) (g : bool) k :
  (forall d x, mr d x = step x p d) ->
  forall pre fuel prev post caps,
    (length pre < fuel)%nat -> forallb p pre = true ->
    repeat_matcher mr [] g k fuel (length pre) (Some (length pre))
                   (MState prev (pre ++ post) caps) =
    k (after (MState prev (pre ++ post) caps) pre post).
Proof.
  intros Hmr. induction pre as [| c pre IH]; intros fuel prev post caps Hf Hall.
  - destruct fuel as [| fuel]; [cbn in Hf; lia |]. reflexivity.
  - destruct fuel as [| fuel]; [cbn in Hf; lia |].
    cbn [forallb] in Hall. apply andb_true_iff in Hall as [Hc Hall].
    cbn [length repeat_matcher Nat.eqb negb andb Nat.pred option_map].
    rewrite clear_caps_nil, Hmr. unfold step. cbn [m_rest app m_caps]. rewrite Hc.
    rewrite IH; [reflexivity | cbn in Hf; lia | exact Hall].
Qed.

Lemma alnum_class c :
  class_match no_flags false [CRange 97 122; CRange 65 90; CRange 48 57] c = is_alnum c.
Proof.
  unfold class_match, cset_match, cset_has, is_alnum, is_lower, is_upper, is_digit.
  cbn [existsb xorb icase no_flags andb].
  by rewrite !orb_false_r, orb_assoc.
Qed.

Lemma forallb_alnum_class s :
  forallb (class_match no_flags false [CRange 97 122; CRange 65 90; CRange 48 57]) s =
  forallb is_alnum s.
Proof. induction s as [| c s IH]; [reflexivity |]. cbn [forallb]. by rewrite alnum_class, IH. Qed.

(** Without the [m] flag the pattern can match at the start only. *)
Lemma id_pattern_inside c s : test_go no_flags id_pattern (Some c) s = false.
Proof.
  revert c. induction s as [| c' s IH]; intros c; cbn [test_go].
  - unfold exec, id_pattern. by rewrite seqs_cons, m_seq, m_bol.
  - unfold exec at 1, id_pattern at 1. rewrite seqs_cons, m_seq, m_bol.
    cbn [at_bol m_prev multiline no_flags andb]. apply IH.
Qed.

Lemma id_pattern_start id :
  m no_flags id_pattern Some (MState None id []) <> None <->
  length id = 8%nat /\ forallb is_alnum id = true.
Proof.
  unfold id_pattern. rewrite seqs_cons, m_seq, m_bol.
  cbn [at_bol m_prev]. rewrite seqs_cons, m_seq, m_quant.
  split.
  - intros Hm.
    destruct (repeat_matcher _ _ _ _ _ _ _ _) as [res |] eqn:Hr; [| done].
    apply (repeat_exact_sound _ (class_match no_flags false
             [CRange 97 122; CRange 65 90; CRange 48 57])) in Hr
      as (pre & post & Hid & Hl & Hall & Hk); [| apply m_class].
    cbn [m_rest] in Hid. subst id.
    rewrite seqs_cons, m_seq, m_eol in Hk. unfold after, at_eol in Hk.
    cbn [m_rest] in Hk. destruct post as [| c post].
    + rewrite app_nil_r. split; [exact Hl | by rewrite <- forallb_alnum_class].
    + cbn [multiline no_flags andb] in Hk. discriminate.
  - intros [Hl Hall].
    rewrite <- (app_nil_r id) at 2. rewrite <- Hl.
    rewrite (repeat_exact_complete _ (class_match no_flags false
               [CRange 97 122; CRange 65 90; CRange 48 57]));
      [| apply m_class | rewrite Hl; cbn; lia | by rewrite forallb_alnum_class].
    rewrite seqs_cons, m_seq, m_eol. unfold after, at_eol. cbn [m_rest]. discriminate.
Qed.

Lemma test_id_pattern id :
  test no_flags id_pattern id = true <-> well_formed_id id.
Proof.
  unfold well_formed_id. rewrite <- id_pattern_start.
  unfold test. destruct id as [| c s]; cbn [test_go]; unfold exec;
    destruct (m no_flags id_pattern Some _) as [res |]; try rewrite id_pattern_inside;
    split; intros Ht; try done.
Qed.

(** X1. The identifier check of [handleGet] accepts exactly the strings of
    eight ASCII letters and digits. *)
Theorem id_check_accepts_eight_alnum (id : jsstring) :
  test no_flags id_pattern id = true <->
  length id = 8%nat /\ forallb is_alnum id = true.
Proof. apply test_id_pattern. Qed.

(** *** What [handleGet] does to the host *)

Lemma bind_lift {A B} (r : A + jsstring) (f : A -> M B) (w : World) :
  bind (lift r) f w = match r with inl a => f a w | inr e => (inr e, w) end.
Proof. unfold bind, lift. by destruct r. Qed.

Section RetrieveProperties.
Context `{Host} `{Conversions}.

(** The part of [handleGet] that follows the read of the store. *)
Lemma handleGet_run (id : jsstring) (rawMode : bool) (w : World) :
  handleGet id rawMode w =
  if negb (test no_flags id_pattern id)
  then (inl (text_reply 400 (str "Invalid conversation ID")), w)
  else if kv_fails w (kv_ops w) then (inr kv_error, after_get id w)
  else if negb (truthy_str (fst <$> kv w !! id))
  then (inl (text_reply 404 (str "Conversation not found")), after_get id w)
  else
    (match JSON_parse (default [] (fst <$> kv w !! id)) with
     | inr e => inr e
     | inl conversationData =>
         match read conversationData (str "content") with
         | inr e => inr e
         | inl content =>
             if rawMode then
               match read content (str "raw") with
               | inr e => inr e
               | inl raw =>
                   match response_body raw with
                   | inr e => inr e
                   | inl body => inl (mkReply 200 body page_headers)
                   end
               end
             else
               match read content (str "format") with
               | inr e => inr e
               | inl format =>
                   if str_is format (str "raw") then
                     match read content (str "raw") with
                     | inr e => inr e
                     | inl raw =>
                         match response_body raw with
                         | inr e => inr e
                         | inl body => inl (mkReply 200 body page_headers)
                         end
                     end
                   else
                     match generateConversationHtml conversationData with
                     | inr e => inr e
                     | inl page => inl (mkReply 200 (BodyPage page) page_headers)
                     end
               end
         end
     end, after_get id w).
Proof.
  unfold handleGet. destruct (negb (test no_flags id_pattern id)); [reflexivity |].
  unfold bind at 1. rewrite kv_get_run.
  destruct (kv_fails w (kv_ops w)); [reflexivity |].
  destruct (negb (truthy_str (fst <$> kv w !! id))); [reflexivity |].
  rewrite bind_lift. destruct (JSON_parse _) as [cd | e]; [| reflexivity].
  rewrite bind_lift. destruct (read cd (str "content")) as [content | e]; [| reflexivity].
  destruct rawMode.
  - unfold bind at 1, ret at 1. rewrite bind_lift.
    destruct (read content (str "raw")) as [raw | e]; [| reflexivity].
    rewrite bind_lift. destruct (response_body raw); reflexivity.
  - unfold bind at 1. rewrite bind_lift.
    destruct (read content (str "format")) as [fmt | e]; [| reflexivity].
    unfold ret at 1. destruct (str_is fmt (str "raw")); rewrite bind_lift.
    + destruct (read content (str "raw")) as [raw | e]; [| reflexivity].
      rewrite bind_lift. destruct (response_body raw); reflexivity.
    + destruct (generateConversationHtml cd); reflexivity.
Qed.

Lemma handleGet_world (id : jsstring) (rawMode : bool) (w : World) :
  snd (handleGet id rawMode w) =
  if test no_flags id_pattern id then after_get id w else w.
Proof.
  rewrite handleGet_run. destruct (test no_flags id_pattern id); cbn [negb]; [| reflexivity].
  destruct (kv_fails w (kv_ops w)); [reflexivity |].
  destruct (negb (truthy_str (fst <$> kv w !! id))); reflexivity.
Qed.

Lemma after_get_events (key : jsstring) (w : World) :
  new_events w (after_get key w) = [EvGet key].
Proof. apply new_events_app. reflexivity. Qed.

Lemma new_events_same (w : World) : new_events w w = [].
Proof. unfold new_events. apply skipn_all. Qed.

(** X2. [handleGet] answers an identifier that is not made of eight letters
    and digits with status 400 without reading the store; for any other
    identifier it reads the store once, under that identifier, and writes
    nothing. *)
Theorem handleGet_reads_at_most_once (id : jsstring) (rawMode : bool) (w : World) :
  (~ well_formed_id id ->
     handleGet id rawMode w = (inl (text_reply 400 (str "Invalid conversation ID")), w)) /\
  (well_formed_id id ->
     kv (snd (handleGet id rawMode w)) = kv w /\
     new_events w (snd (handleGet id rawMode w)) = [EvGet id]).
Proof.
  split.
  - intros Hid. rewrite handleGet_run.
    destruct (test no_flags id_pattern id) eqn:Ht; [| reflexivity].
    by apply test_id_pattern in Ht.
  - intros Hid%test_id_pattern. rewrite handleGet_world, Hid.
    split; [reflexivity | apply after_get_events].
Qed.

End RetrieveProperties.

Lemma handleGet_reads_at_most_once_witness :
  kv (snd (@handleGet json_host plain_conversions (str "aabcdefg") false fresh_world)) = kv fresh_world /\
  new_events fresh_world (snd (@handleGet json_host plain_conversions (str "aabcdefg") false fresh_world)) =
    [EvGet (str "aabcdefg")].
Proof.
  apply (@handleGet_reads_at_most_once json_host plain_conversions (str "aabcdefg") false fresh_world).
  split; vm_compute; reflexivity.
Defined.

(** *** Identifiers that the allocator hands out *)

Lemma chars_alnum : forallb is_alnum chars = true.
Proof. vm_compute. reflexivity. Qed.

Lemma drawn_id_well_formed (w : World) (d : nat) :
  random_ok w ->
  well_formed_id (flat_map (fun j => pick (random w (d + j))) (seq 0 8)).
Proof.
  intros Hr.
  destruct (picks_in_chars w (fun j => (d + j)%nat) (seq 0 8) Hr) as [Hl Hin].
  rewrite length_seq in Hl. split; [exact Hl |].
  apply forallb_forall. intros c Hc.
  rewrite Forall_forall in Hin. apply list_elem_of_In, Hin in Hc.
  pose proof chars_alnum as Ha. rewrite forallb_forall in Ha. by apply Ha.
Qed.

Lemma generateUniqueId_loop : generateUniqueId = generate_loop 10.
Proof. reflexivity. Qed.

Lemma generated_id_well_formed (w : World) (id : jsstring) :
  random_ok w -> fst (generateUniqueId w) = inl id -> well_formed_id id.
Proof.
  intros Hr Hid. rewrite generateUniqueId_loop in Hid.
  destruct (generate_loop_trace 10 w) as (evs & _ & _ & _ & _ & Hres).
  rewrite Hid in Hres. destruct Hres as [[d ->] _].
  by apply drawn_id_well_formed.
Qed.

(** X3. With a random source that keeps its contract, every identifier
    that [generateUniqueId] returns passes the identifier check of
    [handleGet]. *)
Theorem generated_id_passes_check (w : World) (id : jsstring) :
  random_ok w ->
  fst (generateUniqueId w) = inl id ->
  test no_flags id_pattern id = true.
Proof.
  intros Hr Hid. apply test_id_pattern. by eapply generated_id_well_formed.
Qed.

Lemma generated_id_passes_check_witness :
  fst (generateUniqueId empty_world) = inl (str "aaaaaaaa") /\
  test no_flags id_pattern (str "aaaaaaaa") = true.
Proof.
  split; [vm_compute; reflexivity |].
  apply (generated_id_passes_check empty_world (str "aaaaaaaa")).
  - intros n. split; [apply Qle_refl | reflexivity].
  - vm_compute. reflexivity.
Defined.

(** *** The router *)

Lemma rate_key_not_well_formed (ip : jsstring) : ~ well_formed_id (rate_key ip).
Proof.
  intros [Hl _]. unfold rate_key in Hl. rewrite length_app in Hl.
  change (length (str "rate_limit:")) with 11%nat in Hl. lia.
Qed.

Section RouterProperties.
Context `{Host} `{Conversions}.

Lemma handlePost_replies (request : Request) (w : World) (r : Response) :
  fst (handlePost request w) = inl r ->
  r = no_content \/ r = too_large \/ exists id, r = shared request id.
Proof.
  rewrite handlePost_run.
  destruct (checkRateLimit (client_ip request) w) as [[[] | e] w1]; [| discriminate].
  destruct (request_content request) as [v | e]; [| discriminate]. cbv zeta.
  destruct (Nat.eqb (length (preprocessContent v)) 0); [intros [= <-]; auto |].
  destruct (Nat.ltb max_size (length (preprocessContent v))); [intros [= <-]; auto |].
  destruct (generateUniqueId w1) as [[id | e] w2]; [| discriminate].
  destruct (kv_fails _ _); [discriminate |]. intros [= <-]. eauto.
Qed.

Lemma route_post (request : Request) (w : World) :
  route (post_to_root request) w =
  match handlePost request w with
  | (inl r, w') => (inl (reply_of_post r), w')
  | (inr e, w') => (inr e, w')
  end.
Proof.
  unfold route, post_to_root. cbn [method pathname submission].
  rewrite !jsstring_eqb_refl. cbn [andb]. unfold bind, ret.
  by destruct (handlePost request w) as [[r | e] w'].
Qed.

Lemma handleRequest_post (request : Request) (w : World) :
  handleRequest (post_to_root request) w =
  match handlePost request w with
  | (inl r, w') => (inl (reply_of_post r), w')
  | (inr e, w') => (inl (text_reply 500 (str "Error: " ++ e)), w')
  end.
Proof.
  unfold handleRequest. cbn [method post_to_root].
  replace (jsstring_eqb (str "POST") (str "OPTIONS")) with false by (vm_compute; reflexivity).
  unfold caught. rewrite route_post. by destruct (handlePost request w) as [[r | e] w'].
Qed.

(** X5. A client over the limit who posts to [/] is answered with status
    500 and the text of the rate-limit error; the store is read once and not
    written. *)
Theorem limited_client_gets_500 (request : Request) (w : World) :
  kv_fails w (kv_ops w) = false ->
  limited (counter w (client_ip request)) = true ->
  handleRequest (post_to_root request) w =
    (inl (text_reply 500 (str "Error: Rate limit exceeded. Please try again later.")),
     after_get (rate_key (client_ip request)) w).
Proof.
  intros Hf Hl. rewrite handleRequest_post, handlePost_run, checkRateLimit_run.
  cbv zeta. rewrite Hf, Hl. reflexivity.
Qed.

(** What each route does, by the method and the path. *)
Lemma route_get (request : Incoming) (w : World) :
  method request = str "GET" ->
  route request w =
  if starts_with (str "/raw/") (pathname request)
  then handleGet (skipn 5 (pathname request)) true w
  else if Nat.ltb 1 (length (pathname request))
  then handleGet (skipn 1 (pathname request)) false w
  else if jsstring_eqb (pathname request) (str "/")
  then (inl (mkReply 200 BodyForm form_headers), w)
  else (inl (text_reply 404 (str "Not Found")), w).
Proof.
  intros Hm. unfold route. rewrite Hm, jsstring_eqb_refl.
  replace (jsstring_eqb (str "GET") (str "POST")) with false by (vm_compute; reflexivity).
  cbn [andb].
  destruct (starts_with (str "/raw/") (pathname request)); [reflexivity |].
  destruct (Nat.ltb 1 (length (pathname request))); [reflexivity |].
  destruct (jsstring_eqb (pathname request) (str "/")); reflexivity.
Qed.

Lemma route_other (request : Incoming) (w : World) :
  method request <> str "GET" ->
  ~ (method request = str "POST" /\ pathname request = str "/") ->
  route request w = (inl (text_reply 404 (str "Not Found")), w).
Proof.
  intros Hg Hp. unfold route.
  assert (Hget : jsstring_eqb (method request) (str "GET") = false).
  { apply not_true_iff_false. by rewrite jsstring_eqb_true. }
  assert (Hpost : jsstring_eqb (method request) (str "POST") &&
                  jsstring_eqb (pathname request) (str "/") = false).
  { apply not_true_iff_false. rewrite andb_true_iff, !jsstring_eqb_true. exact Hp. }
  rewrite Hget, Hpost. reflexivity.
Qed.

Lemma handleGet_replies (id : jsstring) (rawMode : bool) (w : World) :
  match fst (handleGet id rawMode w) with
  | inl r => (exists more, reply_headers r = corsHeaders ++ more) /\
             In (reply_status r) [200; 400; 404]
  | inr _ => True
  end.
Proof.
  assert (Htext : forall st t, (exists more, reply_headers (text_reply st t) = corsHeaders ++ more)).
  { intros st t. exists []. by rewrite app_nil_r. }
  assert (Hpage : forall b, (exists more, reply_headers (mkReply 200 b page_headers) = corsHeaders ++ more)).
  { intros b. eexists. reflexivity. }
  rewrite handleGet_run.
  destruct (negb (test no_flags id_pattern id)).
  { cbn [fst]. split; [apply Htext | cbn; auto]. }
  destruct (kv_fails w (kv_ops w)); [exact I |].
  destruct (negb (truthy_str _)).
  { cbn [fst]. split; [apply Htext | cbn; auto]. }
  cbn [fst]. destruct (JSON_parse _) as [cd | e]; [| exact I].
  destruct (read cd (str "content")) as [content | e]; [| exact I].
  destruct rawMode.
  - destruct (read content (str "raw")) as [raw | e]; [| exact I].
    destruct (response_body raw); [| exact I]. split; [apply Hpage | cbn; auto].
  - destruct (read content (str "format")) as [fmt | e]; [| exact I].
    destruct (str_is fmt (str "raw")).
    + destruct (read content (str "raw")) as [raw | e]; [| exact I].
      destruct (response_body raw); [| exact I]. split; [apply Hpage | cbn; auto].
    + destruct (generateConversationHtml cd); [| exact I]. split; [apply Hpage | cbn; auto].
Qed.

(** X6. No exception leaves [handleRequest]: every request is answered,
    with status 200, 400, 404, 413 or 500, and every answer carries the three
    CORS headers. *)
Theorem every_request_is_answered (request : Incoming) (w : World) :
  exists r,
    fst (handleRequest request w) = inl r /\
    (exists more, reply_headers r = corsHeaders ++ more) /\
    In (reply_status r) [200; 400; 404; 413; 500].
Proof.
  assert (Htext : forall st t, (exists more, reply_headers (text_reply st t) = corsHeaders ++ more)).
  { intros st t. exists []. by rewrite app_nil_r. }
  unfold handleRequest.
  destruct (jsstring_eqb (method request) (str "OPTIONS")).
  { eexists. split; [reflexivity |]. split; [exists []; by rewrite app_nil_r | cbn; auto]. }
  assert (Hwrap : forall c : M Reply,
            match fst (c w) with
            | inl r => (exists more, reply_headers r = corsHeaders ++ more) /\
                       In (reply_status r) [200; 400; 404; 413]
            | inr _ => True
            end ->
            exists r,
              fst (caught c w) = inl r /\
              (exists more, reply_headers r = corsHeaders ++ more) /\
              In (reply_status r) [200; 400; 404; 413; 500]).
  { intros c Hres. unfold caught. destruct (c w) as [[r | e] w']; cbn [fst] in *.
    - exists r. split; [reflexivity |]. destruct Hres as [Hh Hs]. split; [exact Hh |].
      clear Hh. cbn in Hs |- *. tauto.
    - eexists. split; [reflexivity |]. split; [apply Htext | cbn; tauto]. }
  apply Hwrap.
  destruct (decide (method request = str "GET")) as [Hg | Hg].
  - rewrite (route_get _ _ Hg).
    assert (Hget : forall id raw,
              match fst (handleGet id raw w) with
              | inl r => (exists more, reply_headers r = corsHeaders ++ more) /\
                         In (reply_status r) [200; 400; 404; 413]
              | inr _ => True
              end).
    { intros id raw. pose proof (handleGet_replies id raw w) as Hr.
      destruct (fst (handleGet id raw w)); [| exact I].
      destruct Hr as [Hh Hs]. split; [exact Hh |]. clear Hh. cbn in Hs |- *. tauto. }
    destruct (starts_with _ _); [apply Hget |].
    destruct (Nat.ltb _ _); [apply Hget |].
    destruct (jsstring_eqb _ _); cbn [fst].
    + split; [eexists; reflexivity | cbn; auto].
    + split; [apply Htext | cbn; auto].
  - destruct (decide (method request = str "POST" /\ pathname request = str "/"))
      as [[Hm Hp] | Hp].
    + replace request with (post_to_root (submission request))
        by (destruct request; cbn in *; by subst).
      rewrite route_post.
      pose proof (handlePost_replies (submission request) w) as Hr.
      destruct (handlePost (submission request) w) as [[r | e] w']; cbn [fst] in *; [| exact I].
      destruct (Hr r eq_refl) as [-> | [-> | [id ->]]].
      * split; [apply Htext | cbn; auto].
      * split; [apply Htext | cbn; auto].
      * split; [eexists; reflexivity | cbn; auto].
    + rewrite (route_other _ _ Hg Hp). cbn [fst]. split; [apply Htext | cbn; auto].
Qed.

(** X7. Only a POST to [/] can change the store: any other request leaves
    it as it is, draws no random number and reads the store at most once,
    under an identifier of eight letters and digits. *)
Theorem only_submissions_write (request : Incoming) (w : World) :
  ~ (method request = str "POST" /\ pathname request = str "/") ->
  kv (snd (handleRequest request w)) = kv w /\
  (new_events w (snd (handleRequest request w)) = [] \/
   exists id, well_formed_id id /\
              new_events w (snd (handleRequest request w)) = [EvGet id]).
Proof.
  intros Hp. unfold handleRequest.
  destruct (jsstring_eqb (method request) (str "OPTIONS")).
  { cbn [snd ret]. split; [reflexivity | left; apply new_events_same]. }
  assert (Hsnd : forall c : M Reply, snd (caught c w) = snd (c w)).
  { intros c. unfold caught. by destruct (c w) as [[r | e] w']. }
  rewrite Hsnd.
  assert (Hget : forall id raw,
            kv (snd (handleGet id raw w)) = kv w /\
            (new_events w (snd (handleGet id raw w)) = [] \/
             exists id', well_formed_id id' /\
                         new_events w (snd (handleGet id raw w)) = [EvGet id'])).
  { intros id raw. rewrite handleGet_world.
    destruct (test no_flags id_pattern id) eqn:Ht.
    - split; [reflexivity |]. right. exists id.
      split; [by apply test_id_pattern | apply after_get_events].
    - split; [reflexivity | left; apply new_events_same]. }
  destruct (decide (method request = str "GET")) as [Hg | Hg].
  - rewrite (route_get _ _ Hg).
    destruct (starts_with _ _); [apply Hget |].
    destruct (Nat.ltb _ _); [apply Hget |].
    destruct (jsstring_eqb _ _); cbn [snd];
      (split; [reflexivity | left; apply new_events_same]).
  - rewrite (route_other _ _ Hg Hp). cbn [snd].
    split; [reflexivity | left; apply new_events_same].
Qed.

(** X4. The counters of the rate limiter cannot be retrieved: a GET for
    the key of a counter, with or without the [/raw/] prefix, is answered
    with status 400 without reading the store. *)
Theorem rate_counters_are_not_served (ip : jsstring) (w : World) :
  handleRequest (get_path (str "/" ++ rate_key ip)) w =
    (inl (text_reply 400 (str "Invalid conversation ID")), w) /\
  handleRequest (get_path (str "/raw/" ++ rate_key ip)) w =
    (inl (text_reply 400 (str "Invalid conversation ID")), w).
Proof.
  assert (Hbad : forall raw, handleGet (rate_key ip) raw w =
                   (inl (text_reply 400 (str "Invalid conversation ID")), w)).
  { intros raw. rewrite handleGet_run.
    destruct (test no_flags id_pattern (rate_key ip)) eqn:Ht; [| reflexivity].
    apply test_id_pattern in Ht. by apply rate_key_not_well_formed in Ht. }
  unfold handleRequest. cbn [method get_path].
  replace (jsstring_eqb (str "GET") (str "OPTIONS")) with false by (vm_compute; reflexivity).
  unfold caught. split.
  - rewrite route_get by reflexivity. cbn [pathname].
    change (starts_with (str "/raw/") (str "/" ++ rate_key ip)) with false.
    change (Nat.ltb 1 (length (str "/" ++ rate_key ip))) with true.
    change (skipn 1 (str "/" ++ rate_key ip)) with (rate_key ip).
    by rewrite Hbad.
  - rewrite route_get by reflexivity. cbn [pathname].
    change (starts_with (str "/raw/") (str "/raw/" ++ rate_key ip)) with true.
    change (skipn 5 (str "/raw/" ++ rate_key ip)) with (rate_key ip).
    by rewrite Hbad.
Qed.

End RouterProperties.

Lemma limited_client_gets_500_witness :
  @handleRequest json_host plain_conversions (post_to_root hello_request) limited_world =
    (inl (text_reply 500 (str "Error: Rate limit exceeded. Please try again later.")),
     after_get (rate_key (client_ip hello_request)) limited_world).
Proof.
  apply (@limited_client_gets_500 json_host plain_conversions hello_request limited_world);
    vm_compute; reflexivity.
Defined.

Lemma only_submissions_write_witness :
  kv (snd (@handleRequest json_host plain_conversions (get_path (str "/aaaaaaaa")) empty_world)) = kv empty_world /\
  (new_events empty_world
     (snd (@handleRequest json_host plain_conversions (get_path (str "/aaaaaaaa")) empty_world)) = [] \/
   exists id, well_formed_id id /\
     new_events empty_world
       (snd (@handleRequest json_host plain_conversions (get_path (str "/aaaaaaaa")) empty_world)) = [EvGet id]).
Proof.
  apply (@only_submissions_write json_host plain_conversions (get_path (str "/aaaaaaaa")) empty_world).
  intros [Hm _]. vm_compute in Hm. discriminate.
Defined.

(** *** What the parser returns *)

Lemma parse_shape `{Host} (html : jsstring) :
  messages (parseHtmlContent html) <> [] /\
  messageCount (parseHtmlContent html) = Some (length (messages (parseHtmlContent html))) /\
  error (parseHtmlContent html) = None /\
  (format (parseHtmlContent html) = str "json" \/
   format (parseHtmlContent html) = str "htmlrewriter" \/
   format (parseHtmlContent html) = str "parsed").
Proof.
  unfold parseHtmlContent, parse_try.
  destruct (isValidConversationJSON html) eqn:Hv.
  - unfold isValidConversationJSON in Hv. unfold parseJSONConversation.
    destruct (JSON_parse html) as [[| | | | | data |] | msg]; try done.
    destruct data as [| d data]; [done |].
    rewrite (valid_items_not_nullish _ Hv). cbn [messages messageCount error format].
    split; [done |]. auto.
  - destruct (structured_tier html) as [r |] eqn:Hs.
    + unfold structured_tier in Hs.
      destruct (_ || _); [| done].
      destruct (parseWithHTMLRewriter html) as [res |]; [| done].
      destruct (truthy_str (res userTexts) || truthy_str (res assistantTexts)); [| done].
      set (found := _ ++ _) in Hs. clearbody found.
      destruct found as [| m0 found]; [done |].
      injection Hs as <-. cbn [messages messageCount error format].
      split; [done | auto].
    + cbn [messages messageCount error format]. split; [| auto].
      destruct (regex_tier patterns html) as [| m0 found]; cbn; discriminate.
Qed.

(** X21. On every string, and whatever the rewriter and the JSON reader of
    the host do, [parseHtmlContent] returns at least one message, the count
    of the messages, no error, and one of the formats [json], [htmlrewriter]
    and [parsed]. *)
Theorem parse_result_shape `{Host} (html : jsstring) :
  (1 <= length (messages (parseHtmlContent html)))%nat /\
  messageCount (parseHtmlContent html) = Some (length (messages (parseHtmlContent html))) /\
  error (parseHtmlContent html) = None /\
  In (format (parseHtmlContent html)) [str "json"; str "htmlrewriter"; str "parsed"].
Proof.
  destruct (parse_shape html) as (Hne & Hc & He & Hf).
  split; [destruct (messages (parseHtmlContent html)); [done | cbn; lia] |].
  split; [exact Hc |]. split; [exact He |].
  destruct Hf as [Hf | [Hf | Hf]]; rewrite Hf;
    [left | right; left | right; right; left]; reflexivity.
Qed.

(** *** What a submission does to the store *)

Lemma generate_loop_random (n : nat) (w : World) :
  random (snd (generate_loop n w)) = random w.
Proof.
  revert w. induction n as [| n IH]; intros w; [reflexivity |].
  rewrite generate_loop_step.
  destruct (kv_fails w (kv_ops w)); [reflexivity |].
  destruct (collides w (draws w 8)); [| reflexivity].
  by rewrite IH.
Qed.

Section StoreProperties.
Context `{Host}.

(** The store after [handlePost]: as it was (the check of the rate limiter
    failed or refused), with the counter of the client charged, or with the
    counter charged and the record put under an identifier that was free. *)
Lemma handlePost_store (request : Request) (w : World) :
  let key := rate_key (client_ip request) in
  let charged :=
    <[key := (String_of_int (count_of (counter w (client_ip request)) + 1), Some 3600)]>
      (kv w) in
  let w' := snd (handlePost request w) in
  (kv w' = kv w /\ (forall r, fst (handlePost request w) <> inl r)) \/
  (kv w' = charged /\ (forall id, fst (handlePost request w) <> inl (shared request id))) \/
  (exists v id d,
     request_content request = inl v /\
     id = flat_map (fun j => pick (random w (d + j))) (seq 0 8) /\
     truthy_str (fst <$> charged !! id) = false /\
     kv w' = <[id := (JSON_stringify (record_of request w id (preprocessContent v)), None)]>
               charged /\
     fst (handlePost request w) = inl (shared request id) /\
     kv_fails w' = kv_fails w /\ random w' = random w /\
     (1 <= length (preprocessContent v) <= max_size)%nat).
Proof.
  cbv zeta. rewrite handlePost_run, checkRateLimit_run. cbv zeta.
  set (key := rate_key (client_ip request)).
  set (value := String_of_int (count_of (counter w (client_ip request)) + 1)).
  destruct (kv_fails w (kv_ops w)); [left; split; [reflexivity | discriminate] |].
  destruct (limited (counter w (client_ip request)));
    [left; split; [reflexivity | discriminate] |].
  destruct (kv_fails w (S (kv_ops w))); [left; split; [reflexivity | discriminate] |].
  set (w1 := after_put key value (Some 3600) true (after_get key w)).
  assert (Hshared : forall id, no_content <> shared request id /\ too_large <> shared request id).
  { intros id. split; discriminate. }
  destruct (request_content request) as [v | e];
    [| right; left; split; [reflexivity | discriminate]].
  destruct (Nat.eqb_spec (length (preprocessContent v)) 0) as [| Hne].
  { right; left. split; [reflexivity |]. intros id [= Heq]. }
  destruct (Nat.ltb_spec max_size (length (preprocessContent v))) as [| Hle].
  { right; left. split; [reflexivity |]. intros id [= Heq]. }
  rewrite generateUniqueId_loop.
  destruct (generate_loop_trace 10 w1) as (evs & _ & Hkv & _ & _ & Hres).
  destruct (generate_loop_frame 10 w1) as [Hclock Hfails].
  pose proof (generate_loop_random 10 w1) as Hrandom.
  destruct (generate_loop 10 w1) as [[id | e] w2]; cbn [fst snd] in *.
  - destruct Hres as [[d Hid] Hfree].
    destruct (kv_fails _ _) eqn:Hf.
    + right; left. cbn [snd fst]. split; [| discriminate].
      unfold after_put, emit. cbn [kv]. by rewrite Hkv.
    + right; right. exists v, id, d. cbn [fst snd].
      split; [reflexivity |]. split; [exact Hid |]. split; [exact Hfree |].
      split; [| split; [| split]].
      * unfold after_put, emit. cbn [kv]. rewrite Hkv.
        unfold record_of, emit. cbn [clock]. rewrite Hclock. reflexivity.
      * reflexivity.
      * unfold after_put, emit. cbn [kv_fails]. exact Hfails.
      * split; [unfold after_put, emit; cbn [random]; exact Hrandom | lia].
  - right; left. split; [by rewrite Hkv | discriminate].
Qed.

End StoreProperties.

Section KeptProperties.
Context `{Host}.

(** X12. A submission never overwrites or removes a stored value: a key
    that holds a non-empty value and is not the counter of the client holds
    the same value after [handlePost], whatever the outcome. *)
Theorem stored_values_are_kept (request : Request) (w : World) (k : jsstring) :
  k <> rate_key (client_ip request) ->
  collides w k = true ->
  kv (snd (handlePost request w)) !! k = kv w !! k.
Proof.
  intros Hk Hc.
  destruct (handlePost_store request w)
    as [[-> _] | [[-> _] | (v & id & d & _ & _ & Hfree & -> & _)]].
  - reflexivity.
  - by rewrite lookup_insert_ne.
  - assert (Hid : id <> k).
    { intros ->. rewrite lookup_insert_ne in Hfree by done.
      unfold collides in Hc. congruence. }
    rewrite lookup_insert_ne by exact Hid. by rewrite lookup_insert_ne.
Qed.

(** X13. A submission of one client leaves the counter of every other
    client as it is. *)
Theorem other_counters_are_untouched (request : Request) (w : World) (ip : jsstring) :
  ip <> client_ip request ->
  counter (snd (handlePost request w)) ip = counter w ip.
Proof.
  intros Hip. unfold counter.
  assert (Hk : rate_key (client_ip request) <> rate_key ip).
  { unfold rate_key. intros Heq%app_inv_head. congruence. }
  destruct (handlePost_store request w)
    as [[-> _] | [[-> _] | (v & id & d & _ & Hid & _ & -> & _)]].
  - reflexivity.
  - by rewrite lookup_insert_ne.
  - assert (Hne : id <> rate_key ip).
    { rewrite Hid. apply drawn_id_not_rate_key. }
    rewrite lookup_insert_ne by exact Hne. by rewrite lookup_insert_ne.
Qed.

End KeptProperties.

Lemma stored_values_are_kept_witness :
  fst (@handlePost json_host hello_request occupied_world) =
    inl (shared hello_request (str "hijkmmnp")) /\
  kv occupied_world !! str "aabcdefg" = Some (str "{}", None) /\
  kv (snd (@handlePost json_host hello_request occupied_world)) !! str "aabcdefg" =
    kv occupied_world !! str "aabcdefg".
Proof.
  split; [vm_compute; reflexivity |]. split; [vm_compute; reflexivity |].
  apply (@stored_values_are_kept json_host hello_request occupied_world (str "aabcdefg")).
  - intros Heq. vm_compute in Heq. discriminate.
  - vm_compute. reflexivity.
Defined.

Lemma other_counters_are_untouched_witness :
  counter (snd (@handlePost json_host blank_request limited_world)) (str "198.51.100.1") =
  counter limited_world (str "198.51.100.1").
Proof.
  apply (@other_counters_are_untouched json_host blank_request limited_world
           (str "198.51.100.1")).
  intros Heq. vm_compute in Heq. discriminate.
Defined.

(** *** From a submission to its retrieval *)

Lemma get_prop_hit (k : jsstring) (v : jsval) (fs : list (jsstring * jsval)) :
  get_prop (VObj ((k, v) :: fs)) k = v.
Proof. unfold get_prop. cbn [assoc]. by rewrite jsstring_eqb_refl. Qed.

Lemma get_prop_miss (k k' : jsstring) (v : jsval) (fs : list (jsstring * jsval)) :
  k' <> k -> get_prop (VObj ((k', v) :: fs)) k = get_prop (VObj fs) k.
Proof.
  intros Hk. unfold get_prop. cbn [assoc].
  destruct (jsstring_eqb k' k) eqn:He; [| reflexivity].
  by apply jsstring_eqb_true in He.
Qed.

Ltac other_key := let H := fresh in intros H; vm_compute in H; discriminate.

Lemma record_content (d : ConversationData) :
  read (record_value d) (str "content") = inl (content_value d).
Proof.
  unfold read, record_value. cbn [is_nullish].
  rewrite get_prop_miss by other_key. by rewrite get_prop_hit.
Qed.

Lemma content_raw (d : ConversationData) :
  read (content_value d) (str "raw") = inl (VStr (cd_raw d)).
Proof.
  unfold read, content_value. cbn [is_nullish].
  rewrite get_prop_miss by other_key. by rewrite get_prop_hit.
Qed.

Lemma content_format (d : ConversationData) :
  read (content_value d) (str "format") = inl (VStr (cd_format d)).
Proof.
  unfold read, content_value. cbn [is_nullish].
  rewrite !get_prop_miss by other_key. by rewrite get_prop_hit.
Qed.

Lemma message_blocks_values (msgs : list Message) (acc : jsstring) :
  message_blocks (map message_value msgs) acc =
  inl (acc ++ flat_map (fun m => message_html (jsstring_eqb (role m) (str "user"))
                                              (sanitizeHtmlContent (VStr (content m))))
                       msgs).
Proof.
  revert acc. induction msgs as [| m msgs IH]; intros acc.
  - cbn [map message_blocks flat_map]. by rewrite app_nil_r.
  - cbn [map message_blocks flat_map].
    assert (Hb : message_block (message_value m) =
                 inl (message_html (jsstring_eqb (role m) (str "user"))
                                   (sanitizeHtmlContent (VStr (content m))))).
    { unfold message_block, message_value. cbn [is_nullish].
      rewrite get_prop_hit, get_prop_miss by other_key. by rewrite get_prop_hit. }
    rewrite Hb, IH. by rewrite <- app_assoc.
Qed.

(** The page of a stored record: one block for each message, in order. *)
Lemma page_of_record `{Conversions} (d : ConversationData) (date kb : jsstring) :
  Date_toLocaleString (VStr (cd_created d)) = inl date ->
  Math_round_kb (nat_value (cd_size d)) = inl kb ->
  generateConversationHtml (record_value d) =
  inl {| page_id := cd_id d;
         page_messages := blocks_of (cd_parsed d);
         page_created := date;
         page_count := length (messages (cd_parsed d));
         page_kb := kb |}.
Proof.
  intros Hdate Hkb.
  unfold generateConversationHtml. rewrite record_content.
  unfold content_value at 1. cbn [is_nullish].
  assert (Hparsed : get_prop (content_value d) (str "parsed") = parsed_value (cd_parsed d)).
  { unfold content_value. by rewrite get_prop_hit. }
  assert (Hmeta : get_prop (content_value d) (str "metadata") = metadata_value d).
  { unfold content_value. rewrite !get_prop_miss by other_key. by rewrite get_prop_hit. }
  cbv zeta. rewrite Hparsed, Hmeta.
  assert (Hmsgs : read (parsed_value (cd_parsed d)) (str "messages") =
                  inl (VArr (map message_value (messages (cd_parsed d))))).
  { unfold read, parsed_value. cbn [is_nullish app]. by rewrite get_prop_hit. }
  rewrite Hmsgs. cbn [truthy iterate]. rewrite message_blocks_values, length_map.
  assert (Hid : get_prop (record_value d) (str "id") = VStr (cd_id d)).
  { unfold record_value. by rewrite get_prop_hit. }
  rewrite Hid. cbn [to_text].
  assert (Hcreated : read (metadata_value d) (str "created") = inl (VStr (cd_created d))).
  { unfold read, metadata_value. cbn [is_nullish]. by rewrite get_prop_hit. }
  assert (Hsize : get_prop (metadata_value d) (str "size") = nat_value (cd_size d)).
  { unfold metadata_value. rewrite get_prop_miss by other_key. by rewrite get_prop_hit. }
  rewrite Hcreated, Hdate, Hsize, Hkb. reflexivity.
Qed.

Lemma starts_with_app (p s : jsstring) : starts_with p (p ++ s) = true.
Proof. induction p as [| a p IH]; [reflexivity |]. cbn. by rewrite N.eqb_refl. Qed.

Lemma slash_id_is_not_raw (id : jsstring) :
  well_formed_id id -> starts_with (str "/raw/") (str "/" ++ id) = false.
Proof.
  intros [Hl Hall].
  destruct id as [| c1 [| c2 [| c3 [| c4 id]]]]; try (cbn in Hl; lia).
  cbn [forallb] in Hall. apply andb_true_iff in Hall as [_ Hall].
  apply andb_true_iff in Hall as [_ Hall]. apply andb_true_iff in Hall as [_ Hall].
  apply andb_true_iff in Hall as [H4 _].
  change (str "/" ++ c1 :: c2 :: c3 :: c4 :: id) with (47 :: c1 :: c2 :: c3 :: c4 :: id).
  change (str "/raw/") with [47; 114; 97; 119; 47]. cbn [starts_with].
  destruct (N.eqb_spec 47 c4) as [<- | _]; [discriminate H4 |].
  by rewrite !andb_false_r.
Qed.

Section RoundTrip.
Context `{Host} `{Conversions}.

(** What [handleGet] answers when the store holds the text of a record. *)
Lemma handleGet_stored_raw (id : jsstring) (d : ConversationData) (ttl : option N)
    (w : World) :
  well_formed_id id ->
  kv_fails w (kv_ops w) = false ->
  kv w !! id = Some (JSON_stringify d, ttl) ->
  reads_back d ->
  fst (handleGet id true w) =
  inl (mkReply 200 (BodyOf (BodyText (cd_raw d))) page_headers).
Proof.
  intros Hid%test_id_pattern Hf Hkv [Hne Hback]. rewrite handleGet_run, Hid, Hf, Hkv.
  assert (Ht : truthy_str (Some (JSON_stringify d)) = true)
    by (destruct (JSON_stringify d); [done | reflexivity]).
  change (fst <$> Some (JSON_stringify d, ttl)) with (Some (JSON_stringify d)).
  rewrite Ht. change (default [] (Some (JSON_stringify d))) with (JSON_stringify d).
  cbn [negb fst]. by rewrite Hback, record_content, content_raw.
Qed.

Lemma handleGet_stored_page (id : jsstring) (d : ConversationData) (ttl : option N)
    (w : World) (date kb : jsstring) :
  well_formed_id id ->
  kv_fails w (kv_ops w) = false ->
  kv w !! id = Some (JSON_stringify d, ttl) ->
  reads_back d ->
  jsstring_eqb (cd_format d) (str "raw") = false ->
  Date_toLocaleString (VStr (cd_created d)) = inl date ->
  Math_round_kb (nat_value (cd_size d)) = inl kb ->
  fst (handleGet id false w) =
  inl (mkReply 200
         (BodyPage {| page_id := cd_id d;
                      page_messages := blocks_of (cd_parsed d);
                      page_created := date;
                      page_count := length (messages (cd_parsed d));
                      page_kb := kb |})
         page_headers).
Proof.
  intros Hid%test_id_pattern Hf Hkv [Hne Hback] Hfmt Hdate Hkb.
  rewrite handleGet_run, Hid, Hf, Hkv.
  assert (Ht : truthy_str (Some (JSON_stringify d)) = true)
    by (destruct (JSON_stringify d); [done | reflexivity]).
  change (fst <$> Some (JSON_stringify d, ttl)) with (Some (JSON_stringify d)).
  rewrite Ht. change (default [] (Some (JSON_stringify d))) with (JSON_stringify d).
  cbn [negb fst]. rewrite Hback, record_content, content_format. cbn [str_is].
  by rewrite Hfmt, (page_of_record d date kb Hdate Hkb).
Qed.

(** What a successful POST to [/] leaves in the store. *)
Lemma posted_record (request : Request) (w : World) (id url : jsstring) (v : jsval) :
  random_ok w ->
  request_content request = inl v ->
  fst (handleRequest (post_to_root request) w) =
    inl (mkReply 200 (BodyOf (BodyShare id url)) json_headers) ->
  well_formed_id id /\
  kv (snd (handleRequest (post_to_root request) w)) !! id =
    Some (JSON_stringify (record_of request w id (preprocessContent v)), None).
Proof.
  intros Hr Hv Hpost. rewrite handleRequest_post in Hpost |- *.
  pose proof (handlePost_replies request w) as Hreplies.
  destruct (handlePost_store request w)
    as [[_ Hno] | [[_ Hno] | (v' & id' & d & Hv' & Hid & _ & Hkv & Hres & _)]].
  - destruct (handlePost request w) as [[r | e] w']; cbn [fst] in *; [| discriminate].
    by destruct (Hno r).
  - destruct (handlePost request w) as [[r | e] w']; cbn [fst] in *; [| discriminate].
    destruct (Hreplies r eq_refl) as [-> | [-> | [id' ->]]]; try discriminate.
    by destruct (Hno id').
  - rewrite Hv in Hv'. injection Hv' as <-.
    destruct (handlePost request w) as [[r | e] w']; cbn [fst snd] in *; [| discriminate].
    injection Hres as ->. injection Hpost as <- _.
    split; [rewrite Hid; by apply drawn_id_well_formed |].
    rewrite Hkv. apply lookup_insert_eq.
Qed.

Lemma handleRequest_get_raw (id : jsstring) (w : World) :
  fst (handleRequest (get_path (str "/raw/" ++ id)) w) =
  match fst (handleGet id true w) with
  | inl r => inl r
  | inr e => inl (text_reply 500 (str "Error: " ++ e))
  end.
Proof.
  unfold handleRequest. cbn [method get_path].
  replace (jsstring_eqb (str "GET") (str "OPTIONS")) with false by (vm_compute; reflexivity).
  unfold caught. rewrite route_get by reflexivity. cbn [pathname get_path].
  rewrite starts_with_app.
  change (skipn 5 (str "/raw/" ++ id)) with id.
  by destruct (handleGet id true w) as [[r | e] w'].
Qed.

Lemma handleRequest_get_page (id : jsstring) (w : World) :
  well_formed_id id ->
  fst (handleRequest (get_path (str "/" ++ id)) w) =
  match fst (handleGet id false w) with
  | inl r => inl r
  | inr e => inl (text_reply 500 (str "Error: " ++ e))
  end.
Proof.
  intros Hid. unfold handleRequest. cbn [method get_path].
  replace (jsstring_eqb (str "GET") (str "OPTIONS")) with false by (vm_compute; reflexivity).
  unfold caught. rewrite route_get by reflexivity. cbn [pathname get_path].
  rewrite (slash_id_is_not_raw id Hid).
  change (length (str "/" ++ id)) with (S (length id)).
  destruct Hid as [Hl _]. rewrite Hl.
  change (Nat.ltb 1 9) with true. cbv iota.
  change (skipn 1 (str "/" ++ id)) with id.
  by destruct (handleGet id false w) as [[r | e] w'].
Qed.

(** X9. The text comes back as it was stored.  When a POST to [/] is
    answered with the identifier [id], the random source keeps its contract
    and the serialiser its own at the stored record, a GET of [/raw/id],
    answered by a store that does not fail, returns the normalised text of
    the submission with status 200. *)
Theorem posted_text_is_served_raw (request : Request) (w : World)
    (id url : jsstring) (v : jsval) :
  random_ok w ->
  request_content request = inl v ->
  fst (handleRequest (post_to_root request) w) =
    inl (mkReply 200 (BodyOf (BodyShare id url)) json_headers) ->
  reads_back (record_of request w id (preprocessContent v)) ->
  kv_fails (snd (handleRequest (post_to_root request) w))
           (kv_ops (snd (handleRequest (post_to_root request) w))) = false ->
  fst (handleRequest (get_path (str "/raw/" ++ id))
                     (snd (handleRequest (post_to_root request) w))) =
    inl (mkReply 200 (BodyOf (BodyText (preprocessContent v))) page_headers).
Proof.
  intros Hr Hv Hpost Hback Hf.
  destruct (posted_record request w id url v Hr Hv Hpost) as [Hid Hkv].
  rewrite handleRequest_get_raw.
  by rewrite (handleGet_stored_raw id _ None _ Hid Hf Hkv Hback).
Qed.

(** X10. The page shows what the parser found.  Under the same conditions,
    and when the host can show the time of the call and the size of the text,
    a GET of [/id] returns the conversation page filled with the identifier,
    one block for each message that [parseHtmlContent] returned for the
    normalised text, in order, labelled as the user's exactly when the role is
    [user] and holding the sanitised content, the time, the number of
    messages and the size. *)
Theorem posted_conversation_is_rendered (request : Request) (w : World)
    (id url : jsstring) (v : jsval) (date kb : jsstring) :
  random_ok w ->
  request_content request = inl v ->
  fst (handleRequest (post_to_root request) w) =
    inl (mkReply 200 (BodyOf (BodyShare id url)) json_headers) ->
  reads_back (record_of request w id (preprocessContent v)) ->
  kv_fails (snd (handleRequest (post_to_root request) w))
           (kv_ops (snd (handleRequest (post_to_root request) w))) = false ->
  Date_toLocaleString (VStr (clock w)) = inl date ->
  Math_round_kb (nat_value (length (preprocessContent v))) = inl kb ->
  fst (handleRequest (get_path (str "/" ++ id))
                     (snd (handleRequest (post_to_root request) w))) =
    inl (mkReply 200
           (BodyPage
              {| page_id := id;
                 page_messages := blocks_of (parseHtmlContent (preprocessContent v));
                 page_created := date;
                 page_count := length (messages (parseHtmlContent (preprocessContent v)));
                 page_kb := kb |})
           page_headers).
Proof.
  intros Hr Hv Hpost Hback Hf Hdate Hkb.
  destruct (posted_record request w id url v Hr Hv Hpost) as [Hid Hkv].
  rewrite (handleRequest_get_page id _ Hid).
  rewrite (handleGet_stored_page id _ None _ date kb Hid Hf Hkv Hback);
    [reflexivity | | exact Hdate | exact Hkb].
  unfold record_of. cbn [cd_format].
  destruct (parse_shape (preprocessContent v)) as (_ & _ & _ & Hfmt).
  destruct Hfmt as [-> | [-> | ->]]; vm_compute; reflexivity.
Qed.

End RoundTrip.

Lemma posted_text_is_served_raw_witness :
  fst (@handleRequest json_host plain_conversions (get_path (str "/raw/aaaaaaaa"))
         (snd (@handleRequest json_host plain_conversions (post_to_root hello_request) empty_world))) =
  inl (mkReply 200 (BodyOf (BodyText (str "hello"))) page_headers).
Proof.
  apply (@posted_text_is_served_raw json_host plain_conversions hello_request empty_world
           (str "aaaaaaaa") (str "https://share.example/aaaaaaaa") (VStr (str "hello"))).
  - intros n. split; [apply Qle_refl | reflexivity].
  - vm_compute. reflexivity.
  - vm_compute. reflexivity.
  - split; [vm_compute; discriminate | vm_compute; reflexivity].
  - vm_compute. reflexivity.
Defined.

Lemma posted_conversation_is_rendered_witness :
  fst (@handleRequest json_host plain_conversions (get_path (str "/aaaaaaaa"))
         (snd (@handleRequest json_host plain_conversions
                 (post_to_root hello_request) empty_world))) =
  inl (mkReply 200
         (BodyPage
            {| page_id := str "aaaaaaaa";
               page_messages := message_html false (str "hello");
               page_created := str "2025-01-01T00:00:00.000Z";
               page_count := 1;
               page_kb := str "0" |})
         page_headers).
Proof.
  assert (Hpage := @posted_conversation_is_rendered json_host plain_conversions
           hello_request empty_world
           (str "aaaaaaaa") (str "https://share.example/aaaaaaaa") (VStr (str "hello"))
           (str "2025-01-01T00:00:00.000Z") (str "0")).
  etransitivity; [apply Hpage |].
  - intros n. split; [apply Qle_refl | reflexivity].
  - vm_compute. reflexivity.
  - vm_compute. reflexivity.
  - split; [vm_compute; discriminate | vm_compute; reflexivity].
  - vm_compute. reflexivity.
  - reflexivity.
  - vm_compute. reflexivity.
  - vm_compute. reflexivity.
Defined.

(** ** The text functions on every input *)

(** *** Passes that only delete *)

Lemma replace_go_deletes fl r (s : jsstring) :
  forall skip prev, sublist (replace_go fl r [] skip prev s) s.
Proof.
  induction s as [| c s IH]; intros skip prev.
  - destruct skip; cbn [replace_go]; [| constructor].
    destruct (exec fl r prev []) as [[[| n] caps] |]; constructor.
  - destruct skip as [| skip]; cbn [replace_go].
    + destruct (exec fl r prev (c :: s)) as [[[| n] caps] |]; cbn [app].
      * apply sublist_skip, IH.
      * apply sublist_cons, IH.
      * apply sublist_skip, IH.
    + apply sublist_cons, IH.
Qed.

Lemma replace_all_deleting fl r : deleting (replace_all fl r []).
Proof. intros s. apply replace_go_deletes. Qed.

Lemma run_passes_deleting (ps : list (jsstring -> jsstring)) :
  Forall deleting ps -> deleting (run_passes ps).
Proof.
  unfold run_passes. induction 1 as [| p ps Hp _ IH]; intros s; cbn [fold_left].
  - reflexivity.
  - etransitivity; [apply IH | apply Hp].
Qed.

(** X18. The sanitiser only deletes: what it returns is a subsequence of
    the text it was given, so it is never longer and holds no code unit that
    was not there. *)
Theorem sanitizer_only_deletes (s : jsstring) :
  sublist (sanitizeHtmlContent (VStr s)) s /\
  (length (sanitizeHtmlContent (VStr s)) <= length s)%nat.
Proof.
  assert (Hsub : sublist (sanitizeHtmlContent (VStr s)) s).
  { unfold sanitizeHtmlContent. destruct (truthy (VStr s)); [| apply sublist_nil_l].
    apply run_passes_deleting. unfold sanitize_passes.
    repeat (constructor; [apply replace_all_deleting |]). constructor. }
  split; [exact Hsub | by apply sublist_length].
Qed.

(** *** Passes that never lengthen *)

Lemma repeat_matcher_consumes mr gs g k fuel (b : nat) :
  (forall d x res, mr d x = Some res ->
     exists y pre, d y = Some res /\ m_rest x = pre ++ m_rest y /\ (b <= length pre)%nat) ->
  forall mn mx x res,
    repeat_matcher mr gs g k fuel mn mx x = Some res ->
    exists y pre, k y = Some res /\ m_rest x = pre ++ m_rest y /\
                  (least_rounds mn mx * b <= length pre)%nat.
Proof.
  intros Hmr.
  assert (Hreach : forall d x res, mr d x = Some res ->
            exists y pre, d y = Some res /\ m_rest x = pre ++ m_rest y).
  { intros d x res Hm. apply Hmr in Hm as (y & pre & Hy & Hpre & _). eauto. }
  induction fuel as [| fuel IH]; intros mn mx x res Hm; [discriminate |].
  destruct (Nat.eq_dec (least_rounds mn mx) 0%nat) as [Hz | Hnz].
  { apply (repeat_matcher_reaches _ _ _ _ _ Hreach) in Hm as (y & pre & Hy & Hpre).
    exists y, pre. rewrite Hz. split; [exact Hy |]. split; [exact Hpre | lia]. }
  destruct mn as [| mn]; [by destruct mx |].
  destruct mx as [[| mx] |]; [done | |];
    cbn [repeat_matcher Nat.eqb negb andb Nat.pred option_map] in Hm;
    apply Hmr in Hm as (y & pre & Hy & Hpre & Hb);
    apply IH in Hy as (z & pre' & Hz & Hpre' & Hb');
    rewrite clear_caps_rest in Hpre;
    exists z, (pre ++ pre');
    (split; [exact Hz |]); (split; [by rewrite <- app_assoc, <- Hpre' |]);
    rewrite length_app; cbn [least_rounds] in *; nia.
Qed.

Lemma step_consumes p k st res :
  step st p k = Some res ->
  exists y pre, k y = Some res /\ m_rest st = pre ++ m_rest y /\ (1 <= length pre)%nat.
Proof.
  unfold step. destruct (m_rest st) as [| c s] eqn:Hs; [discriminate |].
  destruct (p c); [| discriminate]. intros Hk.
  eexists _, [c]. split; [exact Hk |]. split; [reflexivity | cbn; lia].
Qed.

(** A match of a pattern takes at least [min_length] code units. *)
Lemma m_consumes fl r :
  forall k st res,
    m fl r k st = Some res ->
    exists y pre, k y = Some res /\ m_rest st = pre ++ m_rest y /\
                  (min_length r <= length pre)%nat.
Proof.
  induction r as [| a | | neg items | r1 IH1 r2 IH2 | r1 IH1 r2 IH2
                 | mn mx g r IH | i r IH | | | r IH];
    intros k st res Hm; cbn [min_length].
  - rewrite m_eps in Hm. exists st, []. cbn. auto with lia.
  - rewrite m_chr in Hm. by apply step_consumes in Hm.
  - cbn [m] in Hm. by apply step_consumes in Hm.
  - rewrite m_class in Hm. by apply step_consumes in Hm.
  - rewrite m_seq in Hm. apply IH1 in Hm as (y & pre & Hy & Hpre & Hb).
    apply IH2 in Hy as (z & pre' & Hz & Hpre' & Hb').
    exists z, (pre ++ pre'). split; [exact Hz |].
    split; [by rewrite <- app_assoc, <- Hpre' | rewrite length_app; lia].
  - cbn [m] in Hm. destruct (m fl r1 k st) eqn:H1; cbn [orelse] in Hm.
    + injection Hm as ->. apply IH1 in H1 as (y & pre & Hy & Hpre & Hb).
      exists y, pre. split; [exact Hy |]. split; [exact Hpre | lia].
    + apply IH2 in Hm as (y & pre & Hy & Hpre & Hb).
      exists y, pre. split; [exact Hy |]. split; [exact Hpre | lia].
  - rewrite m_quant in Hm.
    by apply (repeat_matcher_consumes _ _ _ _ _ _ IH) in Hm.
  - cbn [m] in Hm. apply IH in Hm as (y & pre & Hy & Hpre & Hb).
    eexists _, pre. split; [exact Hy |]. split; [exact Hpre | exact Hb].
  - rewrite m_bol in Hm. destruct (at_bol fl st); [| discriminate].
    exists st, []. cbn. auto with lia.
  - rewrite m_eol in Hm. destruct (at_eol fl st); [| discriminate].
    exists st, []. cbn. auto with lia.
  - cbn [m] in Hm. destruct (m fl r Some st); [| discriminate].
    eexists _, []. split; [exact Hm |]. split; [reflexivity | cbn; lia].
Qed.

Lemma exec_length fl r prev s n caps :
  exec fl r prev s = Some (n, caps) ->
  (min_length r <= n)%nat /\ (n <= length s)%nat.
Proof.
  unfold exec. destruct (m fl r Some (MState prev s [])) as [y |] eqn:Hm; [| discriminate].
  intros [= <- _].
  apply m_consumes in Hm as (z & pre & [= <-] & Hpre & Hb). cbn [m_rest] in Hpre.
  rewrite Hpre, length_app. lia.
Qed.

Lemma replace_go_shrinks fl r repl :
  (length repl <= min_length r)%nat ->
  forall s skip prev,
    (length (replace_go fl r repl skip prev s) <= length s - skip)%nat.
Proof.
  intros Hrepl. induction s as [| c s IH]; intros skip prev.
  - destruct skip; cbn [replace_go]; [| cbn; lia].
    destruct (exec fl r prev []) as [[n caps] |] eqn:He; [| cbn; lia].
    apply exec_length in He as [Hmin Hmax]. cbn [length] in Hmax.
    destruct n; [| lia]. rewrite app_nil_r. cbn [length]. lia.
  - destruct skip as [| skip]; cbn [replace_go].
    + destruct (exec fl r prev (c :: s)) as [[n caps] |] eqn:He.
      * apply exec_length in He as [Hmin Hmax]. cbn [length] in Hmax.
        destruct n as [| n]; rewrite length_app.
        -- specialize (IH 0%nat (Some c)). cbn [length]. lia.
        -- specialize (IH n (Some c)). cbn [length]. lia.
      * specialize (IH 0%nat (Some c)). cbn [length]. lia.
    + specialize (IH skip (Some c)). cbn [length]. lia.
Qed.

Lemma replace_all_shrinking fl r repl :
  (length repl <= min_length r)%nat -> shrinking (replace_all fl r repl).
Proof.
  intros Hrepl s. unfold replace_all.
  pose proof (replace_go_shrinks fl r repl Hrepl s 0%nat None). lia.
Qed.

Lemma replace_first_shrinking fl r repl :
  (length repl <= min_length r)%nat -> shrinking (replace_first fl r repl).
Proof.
  intros Hrepl s. unfold replace_first. generalize (@None N).
  induction s as [| c s IH]; intros prev; cbn [replace_first_go].
  - destruct (exec fl r prev []) as [[n caps] |] eqn:He; [| cbn; lia].
    apply exec_length in He as [Hmin Hmax]. rewrite length_app, length_skipn. lia.
  - destruct (exec fl r prev (c :: s)) as [[n caps] |] eqn:He.
    + apply exec_length in He as [Hmin Hmax]. rewrite length_app, length_skipn. lia.
    + specialize (IH (Some c)). cbn [length]. lia.
Qed.

Lemma drop_space_length s : (length (drop_space s) <= length s)%nat.
Proof.
  induction s as [| c s IH]; [reflexivity |]. cbn [drop_space].
  destruct (is_space c); cbn [length]; lia.
Qed.

Lemma trim_shrinking : shrinking trim.
Proof.
  intros s. unfold trim. rewrite length_rev.
  etransitivity; [apply drop_space_length |]. rewrite length_rev.
  apply drop_space_length.
Qed.

Lemma run_passes_shrinking (ps : list (jsstring -> jsstring)) :
  Forall shrinking ps -> shrinking (run_passes ps).
Proof.
  unfold run_passes. induction 1 as [| p ps Hp _ IH]; intros s; cbn [fold_left].
  - reflexivity.
  - etransitivity; [apply IH | apply Hp].
Qed.

Ltac shrinking_pass :=
  first [ exact trim_shrinking
        | apply replace_all_shrinking; apply Nat.leb_le; vm_compute; reflexivity
        | apply replace_first_shrinking; apply Nat.leb_le; vm_compute; reflexivity ].

Lemma preprocess_passes_shrinking : Forall shrinking preprocess_passes.
Proof.
  unfold preprocess_passes.
  repeat match goal with |- Forall _ (_ :: _) => constructor; [shrinking_pass |] end.
  constructor.
Qed.

Lemma clean_passes_shrinking : Forall shrinking clean_passes.
Proof.
  unfold clean_passes.
  apply Forall_app_2; [| apply Forall_app_2].
  - repeat match goal with |- Forall _ (_ :: _) => constructor; [shrinking_pass |] end.
    constructor.
  - apply Forall_forall. intros pass Hin.
    apply list_elem_of_In, in_map_iff in Hin as (e & <- & He).
    apply replace_all_shrinking.
    assert (Hall : forallb (fun e => Nat.leb (length (snd e)) (min_length (lit (fst e))))
                           clean_entities = true) by (vm_compute; reflexivity).
    rewrite forallb_forall in Hall. apply Nat.leb_le. by apply Hall.
  - repeat match goal with |- Forall _ (_ :: _) => constructor; [shrinking_pass |] end.
    constructor.
Qed.

Lemma preprocess_length (s : jsstring) :
  (length (preprocessContent (VStr s)) <= length s)%nat.
Proof.
  unfold preprocessContent. destruct (truthy (VStr s)); [| cbn; lia].
  apply run_passes_shrinking, preprocess_passes_shrinking.
Qed.


(** X19. Cleaning never lengthens: every pass of [cleanHtmlContent]
    replaces a match by a text that is not longer, so the cleaned text has at
    most as many code units as the text it was made from. *)
Theorem clean_never_lengthens (s : jsstring) :
  (length (cleanHtmlContent (VStr s)) <= length s)%nat.
Proof.
  unfold cleanHtmlContent. destruct (truthy (VStr s)); [| cbn; lia].
  apply run_passes_shrinking, clean_passes_shrinking.
Qed.

Section SizeProperties.
Context `{Host}.

(** X15. A body that is not announced as JSON and has at most 1 MiB of
    code units is never answered with status 413. *)
Theorem text_within_limit_is_accepted (request : Request) (w : World) :
  includes (or_default (content_type request) []) (str "application/json") = false ->
  (length (body request) <= max_size)%nat ->
  forall r, fst (handlePost request w) = inl r -> status r <> 413.
Proof.
  intros Hct Hlen r. rewrite handlePost_run.
  destruct (checkRateLimit (client_ip request) w) as [[[] | e] w1]; [| discriminate].
  unfold request_content. rewrite Hct. cbv zeta.
  pose proof (preprocess_length (body request)) as Hpre.
  destruct (Nat.eqb (length (preprocessContent (VStr (body request)))) 0);
    [intros [= <-]; discriminate |].
  destruct (Nat.ltb_spec max_size (length (preprocessContent (VStr (body request)))));
    [lia |].
  destruct (generateUniqueId w1) as [[id | e] w2]; [| discriminate].
  destruct (kv_fails _ _); [discriminate |]. intros [= <-]. discriminate.
Qed.

End SizeProperties.

Lemma text_within_limit_is_accepted_witness :
  status (shared hello_request (str "aabcdefg")) <> 413.
Proof.
  apply (@text_within_limit_is_accepted json_host hello_request fresh_world).
  - vm_compute. reflexivity.
  - apply Nat.leb_le. vm_compute. reflexivity.
  - vm_compute. reflexivity.
Defined.

(** *** What cleaned text looks like *)

Lemma run_length_le p (s : jsstring) : (run_length p s <= length s)%nat.
Proof.
  induction s as [| c s IH]; [reflexivity |]. cbn [run_length length].
  destruct (p c); lia.
Qed.

(** A greedy loop over a one-code-unit body, followed by nothing, takes the
    whole run. *)
Lemma greedy_run mr (p : N -> bool) :
  (forall d x, mr d x = step x p d) ->
  forall s fuel mn prev caps,
    (mn + length s < fuel)%nat ->
    repeat_matcher mr [] true Some fuel mn None (MState prev s caps) =
    if Nat.leb mn (run_length p s)
    then Some (after (MState prev s caps) (firstn (run_length p s) s)
                     (skipn (run_length p s) s))
    else None.
Proof.
  intros Hmr. induction s as [| c s IH]; intros fuel mn prev caps Hfuel.
  - destruct fuel as [| fuel]; [lia |].
    cbn [repeat_matcher]. rewrite clear_caps_nil, Hmr. unfold step. cbn [m_rest].
    destruct mn; reflexivity.
  - destruct fuel as [| fuel]; [lia |].
    cbn [repeat_matcher]. rewrite clear_caps_nil, Hmr. unfold step.
    cbn [m_rest m_caps run_length]. cbn [length] in Hfuel.
    destruct (p c) eqn:Hp.
    + destruct mn as [| mn]; cbn [Nat.eqb negb andb Nat.pred option_map length].
      * replace (Nat.eqb (length s) (S (length s))) with false
          by (symmetry; apply Nat.eqb_neq; lia).
        rewrite IH by lia. cbn [Nat.leb orelse firstn skipn]. reflexivity.
      * rewrite IH by lia. cbn [Nat.leb firstn skipn]. reflexivity.
    + destruct mn; reflexivity.
Qed.

Lemma exec_plus_class fl neg items prev (s : jsstring) :
  exec fl (plus (Class neg items)) prev s =
  match run_length (class_match fl neg items) s with
  | O => None
  | S n => Some (S n, [])
  end.
Proof.
  unfold exec, plus. rewrite m_quant.
  rewrite (greedy_run _ (class_match fl neg items)); [| apply m_class | cbn; lia].
  pose proof (run_length_le (class_match fl neg items) s) as Hle.
  destruct (run_length (class_match fl neg items) s) as [| n] eqn:Hrun; [reflexivity |].
  cbn [Nat.leb after m_rest m_caps]. rewrite length_skipn. do 2 f_equal. lia.
Qed.

Lemma exec_class fl neg items prev (s : jsstring) :
  exec fl (Class neg items) prev s =
  match s with
  | c :: _ => if class_match fl neg items c then Some (1%nat, []) else None
  | [] => None
  end.
Proof.
  unfold exec. rewrite m_class. unfold step. cbn [m_rest m_caps].
  destruct s as [| c s]; [reflexivity |].
  destruct (class_match fl neg items c); [| reflexivity].
  cbn [m_rest m_caps length]. do 2 f_equal. lia.
Qed.

(** Deleting the code units of a set. *)
Lemma replace_all_class fl neg items (s : jsstring) :
  replace_all fl (Class neg items) [] s =
  List.filter (fun c => negb (class_match fl neg items c)) s.
Proof.
  unfold replace_all. generalize (@None N).
  induction s as [| c s IH]; intros prev; cbn [replace_go List.filter];
    rewrite exec_class; [reflexivity |].
  destruct (class_match fl neg items c); cbn [negb app]; by rewrite IH.
Qed.

(** Turning the runs of a set into single spaces. *)
Lemma replace_go_squeeze fl neg items (s : jsstring) :
  forall prev,
    replace_go fl (plus (Class neg items)) [32] 0 prev s =
      squeeze (class_match fl neg items) false s /\
    replace_go fl (plus (Class neg items)) [32]
               (run_length (class_match fl neg items) s) prev s =
      squeeze (class_match fl neg items) true s.
Proof.
  induction s as [| c s IH]; intros prev.
  - cbn [run_length replace_go squeeze]. by rewrite exec_plus_class.
  - assert (Hhere : replace_go fl (plus (Class neg items)) [32] 0 prev (c :: s) =
                    squeeze (class_match fl neg items) false (c :: s)).
    { cbn [replace_go squeeze]. rewrite exec_plus_class. cbn [run_length].
      destruct (class_match fl neg items c).
      - cbn [app]. f_equal. apply IH.
      - f_equal. apply IH. }
    split; [exact Hhere |].
    cbn [run_length]. destruct (class_match fl neg items c) eqn:Hc.
    + cbn [replace_go squeeze]. rewrite Hc. apply IH.
    + rewrite Hhere. cbn [squeeze]. by rewrite Hc.
Qed.

Lemma replace_all_squeeze fl neg items (s : jsstring) :
  replace_all fl (plus (Class neg items)) [32] s =
  squeeze (class_match fl neg items) false s.
Proof. apply replace_go_squeeze. Qed.

Lemma squeeze_chars p b (s : jsstring) :
  Forall (fun c => c = 32 \/ (p c = false /\ In c s)) (squeeze p b s).
Proof.
  revert b. induction s as [| c s IH]; intros b; cbn [squeeze]; [constructor |].
  assert (Hmono : forall b', Forall (fun x => x = 32 \/ (p x = false /\ In x (c :: s)))
                                    (squeeze p b' s)).
  { intros b'. eapply Forall_impl; [apply IH |].
    intros x [-> | [Hx Hin]]; [by left | right; split; [exact Hx | by right]]. }
  destruct (p c) eqn:Hc.
  - destruct b; [apply Hmono |]. constructor; [by left | apply Hmono].
  - constructor; [right; split; [exact Hc | by left] | apply Hmono].
Qed.

Lemma single_spaced_cons a b (s : jsstring) :
  single_spaced (a :: b :: s) =
  negb ((a =? 32) && (b =? 32)) && single_spaced (b :: s).
Proof. reflexivity. Qed.

Lemma squeeze_single_spaced p (s : jsstring) :
  p 32 = true ->
  forall b, single_spaced (squeeze p b s) = true /\
            head (squeeze p true s) <> Some 32.
Proof.
  intros H32. induction s as [| c s IH]; intros b; [by split |].
  destruct (IH true) as [Ht Hh]. destruct (IH false) as [Hf _].
  assert (Hcons : forall x t, head t <> Some 32 -> single_spaced t = true ->
                              single_spaced (x :: t) = true).
  { intros x [| y t] Hy Hs; [reflexivity |]. rewrite single_spaced_cons.
    rewrite Hs, andb_true_r. cbn [head] in Hy.
    destruct (N.eqb_spec y 32) as [-> | _]; [done | by rewrite andb_false_r]. }
  assert (Hsolid : forall x t, x <> 32 -> single_spaced t = true ->
                               single_spaced (x :: t) = true).
  { intros x [| y t] Hx Hs; [reflexivity |]. rewrite single_spaced_cons.
    rewrite Hs, andb_true_r.
    destruct (N.eqb_spec x 32) as [-> | _]; [done | reflexivity]. }
  cbn [squeeze]. destruct (p c) eqn:Hc.
  - split; [| exact Hh]. destruct b; [exact Ht | by apply Hcons].
  - assert (Hne : c <> 32) by congruence.
    split; [by apply Hsolid | cbn [head]; congruence].
Qed.

(** [trim] keeps a stretch of the text that neither begins nor ends with
    white space. *)
Lemma drop_space_suffix (s : jsstring) : exists a, s = a ++ drop_space s.
Proof.
  induction s as [| c s [a IH]]; [by exists [] |]. cbn [drop_space].
  destruct (is_space c); [| by exists []].
  exists (c :: a). cbn [app]. by rewrite <- IH.
Qed.

Lemma drop_space_head (s : jsstring) c :
  head (drop_space s) = Some c -> is_space c = false.
Proof.
  induction s as [| x s IH]; [discriminate |]. cbn [drop_space].
  destruct (is_space x) eqn:Hx; [exact IH |]. by intros [= <-].
Qed.

Lemma last_of_rev (s : jsstring) : last (rev s) = head s.
Proof. destruct s as [| c s]; [reflexivity |]. cbn [rev head]. apply last_snoc. Qed.

Lemma trim_infix (s : jsstring) : exists a b, s = a ++ trim s ++ b.
Proof.
  unfold trim. destruct (drop_space_suffix s) as [a Ha].
  destruct (drop_space_suffix (rev (drop_space s))) as [b Hb].
  exists a, (rev b). rewrite <- rev_app_distr, <- Hb, rev_involutive. exact Ha.
Qed.

Lemma trim_ends (s : jsstring) c :
  head (trim s) = Some c \/ last (trim s) = Some c -> is_space c = false.
Proof.
  unfold trim. set (t := drop_space s).
  destruct (drop_space_suffix (rev t)) as [b Hb].
  intros [Hh | Hl].
  - assert (Ht : t = rev (drop_space (rev t)) ++ rev b).
    { by rewrite <- rev_app_distr, <- Hb, rev_involutive. }
    destruct (rev (drop_space (rev t))) as [| x u] eqn:Hu; [discriminate |].
    cbn [head] in Hh. injection Hh as ->.
    apply (drop_space_head s). fold t. by rewrite Ht.
  - rewrite last_of_rev in Hl. by apply drop_space_head in Hl.
Qed.

Lemma single_spaced_tail c (s : jsstring) :
  single_spaced (c :: s) = true -> single_spaced s = true.
Proof. destruct s as [| b s]; [done |]. rewrite single_spaced_cons. by intros [_ ?]%andb_true_iff. Qed.

Lemma single_spaced_infix (a t b : jsstring) :
  single_spaced (a ++ t ++ b) = true -> single_spaced t = true.
Proof.
  induction a as [| x a IH]; cbn [app].
  - clear. revert b. induction t as [| x t IH]; intros b Hs; [reflexivity |].
    destruct t as [| y t]; [reflexivity |].
    cbn [app] in Hs. rewrite single_spaced_cons in Hs |- *.
    apply andb_true_iff in Hs as [-> Hs]. cbn [andb]. by apply (IH b).
  - intros Hs%single_spaced_tail. by apply IH.
Qed.

Lemma other_space_class c :
  class_match fl_g true [CNotSpace; CChar 10] c = is_space c && negb (c =? 10).
Proof.
  unfold class_match, cset_match, cset_has. cbn [existsb xorb icase fl_g andb].
  rewrite !orb_false_r, N.eqb_sym. by destruct (is_space c), (c =? 10).
Qed.

Lemma zero_width_class c :
  class_match fl_g false [CRange 0x200B 0x200D; CChar 0xFEFF] c = is_zero_width c.
Proof.
  unfold class_match, cset_match, cset_has, is_zero_width.
  cbn [existsb xorb icase fl_g andb]. by rewrite !orb_false_r, (N.eqb_sym 0xFEFF).
Qed.

(** X20. Whatever the text, what [cleanHtmlContent] returns holds no
    zero-width character and no white space other than the space and the
    line feed, has no two spaces in a row, and neither begins nor ends with
    white space. *)
Theorem cleaned_text_is_tidy (x : jsstring) :
  Forall (fun c => plain_char c = true) (cleanHtmlContent (VStr x)) /\
  single_spaced (cleanHtmlContent (VStr x)) = true /\
  (forall c, head (cleanHtmlContent (VStr x)) = Some c -> is_space c = false) /\
  (forall c, last (cleanHtmlContent (VStr x)) = Some c -> is_space c = false).
Proof.
  unfold cleanHtmlContent. destruct (truthy (VStr x)); [| by repeat split].
  unfold run_passes, clean_passes. rewrite !fold_left_app. cbn [fold_left].
  match goal with
  | |- context [replace_all fl_g (Class false [CRange 0x200B 0x200D; CChar 0xFEFF]) [] ?t] =>
      generalize t
  end.
  intros t. rewrite replace_all_squeeze, replace_all_class.
  set (u := List.filter _ t).
  set (p := class_match fl_g true [CNotSpace; CChar 10]).
  assert (Hp32 : p 32 = true) by reflexivity.
  assert (Hchars : Forall (fun c => plain_char c = true) (squeeze p false u)).
  { eapply Forall_impl; [apply squeeze_chars |].
    intros c [-> | [Hc Hin]]; [reflexivity |].
    unfold p in Hc. rewrite other_space_class in Hc.
    apply filter_In in Hin as [_ Hz]. rewrite zero_width_class in Hz.
    unfold plain_char. rewrite Hz. cbn [andb].
    destruct (is_space c), (c =? 10), (c =? 32); done. }
  destruct (squeeze_single_spaced p u Hp32 false) as [Hsingle _].
  destruct (trim_infix (squeeze p false u)) as (a & b & Htrim).
  split; [| split; [| split]].
  - rewrite Htrim in Hchars.
    apply Forall_app in Hchars as [_ Hchars]. by apply Forall_app in Hchars as [Hchars _].
  - rewrite Htrim in Hsingle. by apply single_spaced_infix in Hsingle.
  - intros c Hc. apply (trim_ends (squeeze p false u)). by left.
  - intros c Hc. apply (trim_ends (squeeze p false u)). by right.
Qed.

(** *** Normalising *)

(** X17. Normalising never lengthens, and what it returns neither begins
    nor ends with white space. *)
Theorem preprocessed_text_is_trimmed (s : jsstring) :
  (length (preprocessContent (VStr s)) <= length s)%nat /\
  (forall c, head (preprocessContent (VStr s)) = Some c -> is_space c = false) /\
  (forall c, last (preprocessContent (VStr s)) = Some c -> is_space c = false).
Proof.
  split; [apply preprocess_length |].
  unfold preprocessContent. destruct (truthy (VStr s)); [| by split].
  unfold run_passes, preprocess_passes. cbn [fold_left].
  split; intros c Hc; eapply trim_ends; eauto.
Qed.

(** A greedy loop over text that its body accepts to the end hands the end
    to what follows. *)
Lemma greedy_all mr (p : N -> bool) k :
  (forall d x, mr d x = step x p d) ->
  forall s fuel prev caps res,
    (length s < fuel)%nat -> forallb p s = true ->
    k (after (MState prev s caps) s []) = Some res ->
    repeat_matcher mr [] true k fuel 0 None (MState prev s caps) = Some res.
Proof.
  intros Hmr. induction s as [| c s IH]; intros fuel prev caps res Hfuel Hall Hk.
  - destruct fuel as [| fuel]; [cbn in Hfuel; lia |].
    cbn [repeat_matcher Nat.eqb negb]. rewrite clear_caps_nil, Hmr. unfold step.
    cbn [m_rest orelse]. exact Hk.
  - destruct fuel as [| fuel]; [cbn in Hfuel; lia |].
    cbn [forallb] in Hall. apply andb_true_iff in Hall as [Hc Hall].
    cbn [repeat_matcher Nat.eqb negb]. rewrite clear_caps_nil, Hmr. unfold step.
    cbn [m_rest m_caps andb length Nat.pred option_map]. rewrite Hc.
    replace (Nat.eqb (length s) (S (length s))) with false
      by (symmetry; apply Nat.eqb_neq; lia).
    rewrite (IH fuel (Some c) caps res); [reflexivity | cbn in Hfuel; lia | exact Hall |].
    exact Hk.
Qed.

Lemma space_class c : class_match fl_gm false [CSpace] c = is_space c.
Proof.
  unfold class_match, cset_match, cset_has. cbn [existsb xorb icase fl_gm andb].
  by rewrite !orb_false_r.
Qed.

Lemma exec_blank_line (s : jsstring) :
  forallb is_space s = true ->
  exec fl_gm (seqs [Bol; star space; Eol]) None s = Some (length s, []).
Proof.
  intros Hall. unfold exec.
  rewrite seqs_cons, m_seq, m_bol. cbn [at_bol m_prev].
  rewrite seqs_cons, m_seq. unfold star, space. rewrite m_quant.
  rewrite (greedy_all _ (class_match fl_gm false [CSpace]) _ (m_class _ _ _) s _ None []
             (MState (fold_left (fun _ c => Some c) s None) [] [])).
  - cbn [m_rest m_caps length]. do 2 f_equal. lia.
  - cbn. lia.
  - rewrite <- Hall. clear. induction s as [| c s IH]; [reflexivity |].
    cbn [forallb]. by rewrite space_class, IH.
  - rewrite seqs_cons, m_seq, m_eol. reflexivity.
Qed.

Lemma replace_go_skip_all fl r (s : jsstring) prev :
  replace_go fl r [] (length s) prev s = [].
Proof.
  revert prev. induction s as [| c s IH]; intros prev; cbn [length replace_go].
  - by destruct (exec fl r prev []) as [[[| n] caps] |].
  - apply IH.
Qed.

Lemma blank_lines_pass (s : jsstring) :
  forallb is_space s = true ->
  replace_all fl_gm (seqs [Bol; star space; Eol]) [] s = [].
Proof.
  intros Hall. unfold replace_all. destruct s as [| c s].
  - cbn [replace_go]. by rewrite (exec_blank_line [] Hall).
  - cbn [replace_go]. rewrite (exec_blank_line (c :: s) Hall). cbn [length app].
    apply replace_go_skip_all.
Qed.

(** A pass that deletes lines beginning with a code unit that is not white
    space leaves blank text alone. *)
Lemma header_pass_on_blank X tail (a : N) repl (s : jsstring) :
  needs_first fl_gm X (chr_match fl_gm a) ->
  is_space a = false ->
  forallb is_space s = true ->
  replace_all fl_gm (seqs (Bol :: X :: tail)) repl s = s.
Proof.
  intros HX Ha Hall. unfold replace_all.
  apply (replace_go_fixed fl_gm _ repl (fun _ t => forallb is_space t = true));
    [| | exact Hall].
  - intros prev c t Ht. cbn [forallb] in Ht. by apply andb_true_iff in Ht as [_ ?].
  - intros prev t Ht. left. apply exec_none.
    rewrite seqs_cons, m_seq, m_bol.
    destruct (at_bol fl_gm _); [| reflexivity].
    rewrite seqs_cons, m_seq. apply HX. cbn [m_rest].
    destruct t as [| c t]; [exact I |].
    cbn [forallb] in Ht. apply andb_true_iff in Ht as [Hc _].
    rewrite chr_match_case_sensitive by reflexivity.
    apply N.eqb_neq. intros ->. congruence.
Qed.

Lemma preprocess_blank (s : jsstring) :
  forallb is_space s = true -> preprocessContent (VStr s) = [].
Proof.
  intros Hall. unfold preprocessContent. destruct (truthy (VStr s)); [| reflexivity].
  unfold run_passes, preprocess_passes. cbn [fold_left].
  rewrite (header_pass_on_blank _ _ 45 [] s);
    [| unfold at_least; apply needs_first_repeat, needs_first_chr | reflexivity | exact Hall].
  rewrite (header_pass_on_blank _ _ 67 [] s);
    [| exact (needs_first_lit _ 67 _) | reflexivity | exact Hall].
  rewrite (header_pass_on_blank _ _ 67 [] s);
    [| exact (needs_first_lit _ 67 _) | reflexivity | exact Hall].
  rewrite (header_pass_on_blank _ _ 67 [] s);
    [| exact (needs_first_lit _ 67 _) | reflexivity | exact Hall].
  rewrite (header_pass_on_blank _ _ 98 [] s);
    [| exact (needs_first_lit _ 98 _) | reflexivity | exact Hall].
  rewrite (header_pass_on_blank _ _ 110 [] s);
    [| exact (needs_first_lit _ 110 _) | reflexivity | exact Hall].
  rewrite (blank_lines_pass s Hall). reflexivity.
Qed.

Section BlankProperties.
Context `{Host}.

(** X16. Text that is only white space normalises to the empty string,
    and a body of such text that is not announced as JSON is answered with
    status 400, after the counter of the client has been charged. *)
Theorem blank_text_is_refused (request : Request) (w : World) :
  includes (or_default (content_type request) []) (str "application/json") = false ->
  forallb is_space (body request) = true ->
  fst (checkRateLimit (client_ip request) w) = inl tt ->
  preprocessContent (VStr (body request)) = [] /\
  handlePost request w = (inl no_content, snd (checkRateLimit (client_ip request) w)).
Proof.
  intros Hct Hall Hadm. split; [by apply preprocess_blank |].
  rewrite handlePost_run.
  destruct (checkRateLimit (client_ip request) w) as [[[] | e] w1]; [| discriminate].
  unfold request_content. rewrite Hct. cbv zeta.
  by rewrite (preprocess_blank _ Hall).
Qed.

End BlankProperties.

Lemma blank_text_is_refused_witness :
  preprocessContent (VStr (body blank_request)) = [] /\
  @handlePost json_host blank_request fresh_world =
    (inl no_content, snd (checkRateLimit (client_ip blank_request) fresh_world)).
Proof.
  apply (@blank_text_is_refused json_host blank_request fresh_world);
    vm_compute; reflexivity.
Defined.

(** *** The structured extractor *)

Lemma rw_chunks (chunks : list jsstring) res (buffer : jsstring) (t : track) :
  fold_left rw_step (map (fun c => EvText c false) chunks)
            (mkRw res buffer true (Some t)) =
  mkRw res (buffer ++ concat chunks) true (Some t).
Proof.
  revert buffer. induction chunks as [| c chunks IH]; intros buffer.
  - cbn [map fold_left concat]. by rewrite app_nil_r.
  - cbn [map fold_left concat]. unfold rw_step at 2.
    cbn [rw_doOnText rw_buffer rw_result rw_onText]. rewrite IH. by rewrite <- app_assoc.
Qed.

(** X23. The extractor keeps one text for each track.  When an element of
    a track is met between text nodes and a text node follows, delivered in
    any number of chunks, the result for the track is the decoded text of
    that node, whatever was found for the track before. *)
Theorem rewriter_keeps_last_text_node (before : list rw_event) (t : track)
    (chunks : list jsstring) (last_chunk : jsstring) :
  rw_buffer (fold_left rw_step before rw_init) = [] ->
  rw_run (before ++ EvElement t :: text_node chunks last_chunk) t =
    Some (decodeHtmlEntities (concat chunks ++ last_chunk)).
Proof.
  intros Hbuf. unfold rw_run, text_node.
  rewrite fold_left_app. cbn [fold_left].
  destruct (fold_left rw_step before rw_init) as [res buffer armed owner].
  cbn [rw_buffer] in Hbuf. subst buffer.
  unfold rw_step at 2. cbn [rw_result rw_buffer].
  rewrite fold_left_app, rw_chunks. cbn [fold_left rw_step rw_doOnText rw_buffer
    rw_onText rw_result app].
  unfold rw_set. by rewrite bool_decide_eq_true_2.
Qed.

Lemma rewriter_keeps_last_text_node_witness :
  rw_run ([EvElement userTexts; EvText (str "first") true] ++
          EvElement userTexts :: text_node [str "a &amp; "] (str "b")) userTexts =
    Some (decodeHtmlEntities (concat [str "a &amp; "] ++ str "b")).
Proof.
  apply (rewriter_keeps_last_text_node
           [EvElement userTexts; EvText (str "first") true] userTexts
           [str "a &amp; "] (str "b")).
  reflexivity.
Defined.

Lemma rw_node (chunks : list jsstring) (last_chunk : jsstring) (st : rw_state)
    (t : track) :
  fold_left rw_step (EvElement t :: text_node chunks last_chunk) st =
  mkRw (rw_set (rw_result st) t
               (decodeHtmlEntities (rw_buffer st ++ concat chunks ++ last_chunk)))
       [] false (Some t).
Proof.
  destruct st as [res buffer armed owner]. unfold text_node.
  cbn [fold_left]. unfold rw_step at 2. cbn [rw_result rw_buffer].
  rewrite fold_left_app, rw_chunks.
  cbn [fold_left rw_step rw_doOnText rw_buffer rw_onText rw_result].
  by rewrite <- app_assoc.
Qed.

Lemma rw_unarmed (later : list (jsstring * bool)) (st : rw_state) :
  rw_doOnText st = false ->
  fold_left rw_step (map (fun p => EvText (fst p) (snd p)) later) st = st.
Proof.
  intros Hst. induction later as [| p later IH]; [reflexivity |].
  cbn [map fold_left]. unfold rw_step at 2. rewrite Hst. exact IH.
Qed.

(** X24. Of the text inside an element the extractor records the first
    text node only: the text nodes that follow it, up to the next element
    of a track, change nothing; and the node changes the result of no track
    but the one of the element. *)
Theorem rewriter_drops_later_text (before : list rw_event) (t t' : track)
    (chunks : list jsstring) (last_chunk : jsstring) (later : list (jsstring * bool)) :
  rw_run (before ++ (EvElement t :: text_node chunks last_chunk) ++
          map (fun p => EvText (fst p) (snd p)) later) t' =
    rw_run (before ++ EvElement t :: text_node chunks last_chunk) t' /\
  (t' <> t ->
   rw_run (before ++ EvElement t :: text_node chunks last_chunk) t' = rw_run before t').
Proof.
  unfold rw_run. rewrite !fold_left_app, rw_node. split.
  - by rewrite rw_unarmed.
  - intros Ht. cbn [rw_result]. unfold rw_set. by rewrite bool_decide_eq_false_2.
Qed.

Lemma rewriter_drops_later_text_witness :
  rw_run ([EvElement assistantTexts; EvText (str "reply") true] ++
          (EvElement userTexts :: text_node [str "Hello "] (str "there")) ++
          map (fun p => EvText (fst p) (snd p)) [(str "world", true); (str "!", true)])
         assistantTexts =
    rw_run ([EvElement assistantTexts; EvText (str "reply") true] ++
            EvElement userTexts :: text_node [str "Hello "] (str "there")) assistantTexts /\
  rw_run ([EvElement assistantTexts; EvText (str "reply") true] ++
          EvElement userTexts :: text_node [str "Hello "] (str "there")) assistantTexts =
    rw_run [EvElement assistantTexts; EvText (str "reply") true] assistantTexts.
Proof.
  destruct (rewriter_drops_later_text
              [EvElement assistantTexts; EvText (str "reply") true] userTexts assistantTexts
              [str "Hello "] (str "there") [(str "world", true); (str "!", true)])
    as [Hlater Hother].
  split; [exact Hlater | apply Hother; discriminate].
Defined.

(** *** The entity decoder *)

Lemma replace_all_absent fl (w repl : jsstring) (a : N) (s : jsstring) :
  icase fl = false -> head w = Some a -> ~ In a s ->
  replace_all fl (lit w) repl s = s.
Proof.
  intros Hi Hw Hs. unfold replace_all.
  apply (replace_go_fixed fl (lit w) repl (fun _ s => ~ In a s)); [| | exact Hs].
  - intros _ c s0 Hc Hin. apply Hc. by right.
  - intros prev s0 Hs0. left. apply exec_none, lit_needs_prefix_end; [exact Hi |].
    cbn [m_rest]. destruct w as [| a' w]; [discriminate |].
    cbn [head] in Hw. injection Hw as ->.
    destruct s0 as [| c s0]; [reflexivity |]. cbn [starts_with].
    destruct (a =? c) eqn:Hc; [| reflexivity].
    apply N.eqb_eq in Hc. subst c. exfalso. apply Hs0. by left.
Qed.

(** X25. [decodeHtmlEntities] never lengthens a text, and it returns a
    text without an ampersand as it is. *)
Theorem decoder_keeps_text_without_ampersand (text : jsstring) :
  (length (decodeHtmlEntities text) <= length text)%nat /\
  (~ In 38 text -> decodeHtmlEntities text = text).
Proof.
  split.
  - apply run_passes_shrinking.
    repeat match goal with |- Forall _ (_ :: _) => constructor; [shrinking_pass |] end.
    constructor.
  - intros Hs. unfold decodeHtmlEntities, run_passes. cbn [fold_left].
    by rewrite !(replace_all_absent fl_g _ _ 38 text) by (reflexivity || exact Hs).
Qed.

Lemma decoder_keeps_text_without_ampersand_witness :
  ~ In 38 (str "a < b; c") /\
  decodeHtmlEntities (str "a < b; c") = str "a < b; c".
Proof.
  assert (Hs : ~ In 38 (str "a < b; c")) by (vm_compute; intuition discriminate).
  split; [exact Hs |].
  apply (decoder_keeps_text_without_ampersand (str "a < b; c")). exact Hs.
Defined.

(** *** More on the store *)

Section RecordProperties.
Context `{Host}.

(** X11. What a successful submission stores.  When [handlePost] answers
    with an identifier, the request had a content to normalise, the normalised
    text has between 1 and [max_size] code units, the address in the answer is
    the origin followed by the identifier, and the store holds under the
    identifier, without expiry, the serialised record made of the identifier,
    the result of [parseHtmlContent] for the normalised text, that text as
    [raw], the format of the result, the time of the call, the length of the
    text as the size, and the address of the client. *)
Theorem stored_record_is_consistent (request : Request) (w : World) (id url : jsstring) :
  fst (handlePost request w) = inl (mkResponse 200 (BodyShare id url)) ->
  exists v,
    request_content request = inl v /\
    (1 <= length (preprocessContent v) <= max_size)%nat /\
    url = origin request ++ str "/" ++ id /\
    kv (snd (handlePost request w)) !! id =
      Some (JSON_stringify
              {| cd_id := id;
                 cd_parsed := parseHtmlContent (preprocessContent v);
                 cd_raw := preprocessContent v;
                 cd_format := format (parseHtmlContent (preprocessContent v));
                 cd_created := clock w;
                 cd_size := length (preprocessContent v);
                 cd_ip := client_ip request |}, None).
Proof.
  intros Hres.
  destruct (handlePost_store request w)
    as [[_ Hno] | [[_ Hno] | (v & id' & d & Hv & Hid & _ & Hkv & Hfst & _ & _ & Hlen)]].
  - by destruct (Hno _ Hres).
  - pose proof (handlePost_replies request w _ Hres) as [Hr | [Hr | [id' Hr]]];
      try discriminate.
    rewrite Hr in Hres. by destruct (Hno id').
  - rewrite Hres in Hfst. injection Hfst as -> ->.
    exists v. split; [exact Hv |]. split; [exact Hlen |]. split; [reflexivity |].
    rewrite Hkv, lookup_insert_eq. unfold record_of.
    destruct (parse_shape (preprocessContent v)) as (_ & _ & _ & [-> | [-> | ->]]);
      reflexivity.
Qed.

End RecordProperties.

Lemma stored_record_is_consistent_witness :
  exists v,
    @request_content json_host hello_request = inl v /\
    (1 <= length (preprocessContent v) <= max_size)%nat /\
    str "https://share.example/aabcdefg" = origin hello_request ++ str "/" ++ str "aabcdefg" /\
    kv (snd (@handlePost json_host hello_request fresh_world)) !! str "aabcdefg" =
      Some (@JSON_stringify json_host
              {| cd_id := str "aabcdefg";
                 cd_parsed := @parseHtmlContent json_host (preprocessContent v);
                 cd_raw := preprocessContent v;
                 cd_format := format (@parseHtmlContent json_host (preprocessContent v));
                 cd_created := clock fresh_world;
                 cd_size := length (preprocessContent v);
                 cd_ip := client_ip hello_request |}, None).
Proof.
  apply (@stored_record_is_consistent json_host hello_request fresh_world
           (str "aabcdefg") (str "https://share.example/aabcdefg")).
  vm_compute. reflexivity.
Defined.

Section MissingProperties.
Context `{Host} `{Conversions}.

(** X8. A well-formed identifier that the store does not hold, or holds
    with an empty text, is answered with status 404 on both routes; the store
    is read once. *)
Theorem missing_conversation_gets_404 (id : jsstring) (w : World) :
  well_formed_id id ->
  kv_fails w (kv_ops w) = false ->
  truthy_str (fst <$> kv w !! id) = false ->
  handleRequest (get_path (str "/" ++ id)) w =
    (inl (text_reply 404 (str "Conversation not found")), after_get id w) /\
  handleRequest (get_path (str "/raw/" ++ id)) w =
    (inl (text_reply 404 (str "Conversation not found")), after_get id w).
Proof.
  intros Hid Hf Hkv.
  assert (Hget : forall raw, handleGet id raw w =
                   (inl (text_reply 404 (str "Conversation not found")), after_get id w)).
  { intros raw. rewrite handleGet_run, Hf, Hkv.
    apply test_id_pattern in Hid as ->. reflexivity. }
  unfold handleRequest. cbn [method get_path].
  replace (jsstring_eqb (str "GET") (str "OPTIONS")) with false by (vm_compute; reflexivity).
  unfold caught. rewrite !route_get by reflexivity. cbn [pathname get_path].
  rewrite (slash_id_is_not_raw id Hid), starts_with_app.
  change (length (str "/" ++ id)) with (S (length id)).
  destruct Hid as [Hl _]. rewrite Hl.
  change (Nat.ltb 1 9) with true. cbv iota.
  change (skipn 1 (str "/" ++ id)) with id.
  change (skipn 5 (str "/raw/" ++ id)) with id.
  by rewrite !Hget.
Qed.

End MissingProperties.

Lemma missing_conversation_gets_404_witness :
  @handleRequest json_host plain_conversions (get_path (str "/" ++ str "aaaaaaaa")) empty_world =
    (inl (text_reply 404 (str "Conversation not found")),
     after_get (str "aaaaaaaa") empty_world) /\
  @handleRequest json_host plain_conversions (get_path (str "/raw/" ++ str "aaaaaaaa")) empty_world =
    (inl (text_reply 404 (str "Conversation not found")),
     after_get (str "aaaaaaaa") empty_world).
Proof.
  apply (@missing_conversation_gets_404 json_host plain_conversions (str "aaaaaaaa") empty_world).
  - split; vm_compute; reflexivity.
  - reflexivity.
  - vm_compute. reflexivity.
Defined.

(** *** The limit holds however many requests follow *)

Lemma admit_many_app (a b : nat) (ip : jsstring) (w : World) :
  admit_many (a + b) ip w =
  (fst (admit_many a ip w) ++ fst (admit_many b ip (snd (admit_many a ip w))),
   snd (admit_many b ip (snd (admit_many a ip w)))).
Proof.
  revert w. induction a as [| a IH]; intros w.
  - cbn [Nat.add admit_many fst snd app]. by destruct (admit_many b ip w).
  - cbn [Nat.add admit_many]. destruct (checkRateLimit ip w) as [r w1].
    rewrite IH. destruct (admit_many a ip w1) as [rs w2]. cbn [fst snd].
    by destruct (admit_many b ip w2).
Qed.

Lemma refused_many (k : nat) (ip : jsstring) (w : World) :
  no_faults w -> limited (counter w ip) = true ->
  fst (admit_many k ip w) = repeat (inr rate_limit_error) k /\
  kv (snd (admit_many k ip w)) = kv w.
Proof.
  revert w. induction k as [| k IH]; intros w Hnf Hl; [by split |].
  cbn [admit_many]. rewrite (checkRateLimit_no_faults _ _ Hnf), Hl.
  destruct (IH (after_get (rate_key ip) w) Hnf Hl) as [Hr Hkv].
  destruct (admit_many k ip (after_get (rate_key ip) w)) as [rs w2].
  cbn [fst snd repeat] in *. by rewrite Hr, Hkv.
Qed.

(** X14. The limit holds however many requests follow.  Of [n] requests
    that a client sends one after the other, starting without a counter, the
    first ten are admitted and all the others are refused; the counter stays at
    ten. *)
Theorem only_ten_are_admitted (w : World) (ip : jsstring) (n : nat) :
  no_faults w ->
  kv w !! rate_key ip = None ->
  fst (admit_many n ip w) =
    repeat (inl tt) (Nat.min n 10) ++ repeat (inr rate_limit_error) (n - 10) /\
  ((10 <= n)%nat ->
   kv (snd (admit_many n ip w)) !! rate_key ip = Some (str "10", Some 3600)).
Proof.
  intros Hnf Hc.
  destruct (Nat.le_gt_cases n 10) as [Hle | Hgt].
  - destruct (admit_many_from n 0 ip w Hnf Hc ltac:(lia)) as (Hr & _ & Hk).
    replace (Nat.min n 10) with n by lia. replace (n - 10)%nat with 0%nat by lia.
    cbn [repeat]. rewrite app_nil_r. split; [exact Hr |].
    intros Hn. assert (n = 10%nat) as -> by lia. exact Hk.
  - destruct (admit_many_from 10 0 ip w Hnf Hc ltac:(lia)) as (Hr & Hnf' & Hk).
    assert (Hn : exists m, n = (10 + m)%nat) by (exists (n - 10)%nat; lia).
    destruct Hn as [m ->]. clear Hgt.
    replace (Nat.min (10 + m) 10) with 10%nat by lia.
    replace (10 + m - 10)%nat with m by lia.
    rewrite admit_many_app. cbn [fst snd].
    assert (Hl : limited (counter (snd (admit_many 10 ip w)) ip) = true).
    { unfold counter. cbn [Nat.add] in Hk. unfold counter_is in Hk. rewrite Hk.
      vm_compute. reflexivity. }
    destruct (refused_many m ip _ Hnf' Hl) as [Hr' Hkv].
    rewrite Hr, Hr'. split; [reflexivity |]. intros _. rewrite Hkv. exact Hk.
Qed.

Lemma only_ten_are_admitted_witness :
  fst (admit_many 13 (str "203.0.113.7") fresh_world) =
    repeat (inl tt) (Nat.min 13 10) ++ repeat (inr rate_limit_error) (13 - 10) /\
  ((10 <= 13)%nat ->
   kv (snd (admit_many 13 (str "203.0.113.7") fresh_world)) !! rate_key (str "203.0.113.7") =
     Some (str "10", Some 3600)).
Proof.
  apply (only_ten_are_admitted fresh_world (str "203.0.113.7") 13).
  - intros n. reflexivity.
  - vm_compute. reflexivity.
Defined.

(** ** The roles of parsed messages *)

(** *** What a match tells about its captures *)

Lemma caps_from_refl fl r caps : caps_from fl r caps caps.
Proof. intros i g Hin. by left. Qed.

Lemma caps_from_trans fl r old mid new :
  caps_from fl r old mid -> caps_from fl r mid new -> caps_from fl r old new.
Proof.
  intros H1 H2 i g Hin. destruct (H2 i g Hin) as [Hmid | Hg]; [by apply H1 | by right].
Qed.

Lemma caps_from_sub fl r r2 old new :
  (forall p, In p (subgroups r) -> In p (subgroups r2)) ->
  caps_from fl r old new -> caps_from fl r2 old new.
Proof.
  intros Hsub H1 i g Hin. destruct (H1 i g Hin) as [Hold | (r' & Hr' & Hl)]; [by left |].
  right. exists r'. split; [by apply Hsub | exact Hl].
Qed.

Lemma step_sound p k st res :
  step st p k = Some res ->
  exists c s, m_rest st = c :: s /\ p c = true /\
              k (MState (Some c) s (m_caps st)) = Some res.
Proof.
  unfold step. destruct (m_rest st) as [| c s]; [discriminate |].
  destruct (p c) eqn:Hp; [| discriminate]. intros Hk. by exists c, s.
Qed.

Lemma repeat_matcher_sound fl r' g k fuel :
  (forall d x res, m fl r' d x = Some res ->
     exists y pre, d y = Some res /\ m_rest x = pre ++ m_rest y /\
                   lang fl r' pre /\ caps_from fl r' (m_caps x) (m_caps y)) ->
  forall mn mx x res,
    repeat_matcher (m fl r') (groups r') g k fuel mn mx x = Some res ->
    exists y pre, k y = Some res /\ m_rest x = pre ++ m_rest y /\
                  (exists ts, pre = concat ts /\ Forall (lang fl r') ts) /\
                  caps_from fl r' (m_caps x) (m_caps y).
Proof.
  intros Hmr. induction fuel as [| fuel IH]; intros mn mx x res Hm; [discriminate |].
  cbn [repeat_matcher] in Hm.
  assert (Hhere : k x = Some res ->
            exists y pre, k y = Some res /\ m_rest x = pre ++ m_rest y /\
                          (exists ts, pre = concat ts /\ Forall (lang fl r') ts) /\
                          caps_from fl r' (m_caps x) (m_caps y)).
  { intros Hk. exists x, []. split; [exact Hk |]. split; [reflexivity |].
    split; [by exists [] | apply caps_from_refl]. }
  assert (Hround : forall d,
            (forall y, d y = Some res ->
               repeat_matcher (m fl r') (groups r') g k fuel (Nat.pred mn)
                              (option_map Nat.pred mx) y = Some res) ->
            m fl r' d (clear_caps (groups r') x) = Some res ->
            exists y pre, k y = Some res /\ m_rest x = pre ++ m_rest y /\
                          (exists ts, pre = concat ts /\ Forall (lang fl r') ts) /\
                          caps_from fl r' (m_caps x) (m_caps y)).
  { intros d Hd Hs. apply Hmr in Hs as (y & pre & Hy & Hpre & Hl & Hc).
    apply Hd, IH in Hy as (z & pre' & Hz & Hpre' & (ts & -> & Hts) & Hc').
    exists z, (pre ++ concat ts). split; [exact Hz |].
    rewrite clear_caps_rest in Hpre.
    split; [by rewrite <- app_assoc, <- Hpre' |].
    split; [exists (pre :: ts); split; [reflexivity | by constructor] |].
    eapply caps_from_trans; [| exact Hc'].
    intros i c Hin. destruct (Hc i c Hin) as [Hold | Hg]; [left | by right].
    unfold clear_caps in Hold. cbn [m_caps] in Hold.
    by apply filter_In in Hold as [Hold _]. }
  assert (Hd : forall y,
            (if Nat.eqb mn 0 && Nat.eqb (length (m_rest y)) (length (m_rest x))
             then None
             else repeat_matcher (m fl r') (groups r') g k fuel (Nat.pred mn)
                                 (option_map Nat.pred mx) y) = Some res ->
            repeat_matcher (m fl r') (groups r') g k fuel (Nat.pred mn)
                           (option_map Nat.pred mx) y = Some res).
  { intros y. by destruct (_ && _). }
  destruct mx as [[| mx] |]; [by apply Hhere | |].
  - destruct (negb (Nat.eqb mn 0)); [by eapply Hround; [apply Hd |] |].
    destruct g.
    + destruct (m fl r' _ _) eqn:Hs; cbn [orelse] in Hm.
      * injection Hm as ->. eapply Hround; [apply Hd | exact Hs].
      * by apply Hhere.
    + destruct (k x) eqn:Hk; cbn [orelse] in Hm.
      * injection Hm as ->. by apply Hhere.
      * eapply Hround; [apply Hd | exact Hm].
  - destruct (negb (Nat.eqb mn 0)); [by eapply Hround; [apply Hd |] |].
    destruct g.
    + destruct (m fl r' _ _) eqn:Hs; cbn [orelse] in Hm.
      * injection Hm as ->. eapply Hround; [apply Hd | exact Hs].
      * by apply Hhere.
    + destruct (k x) eqn:Hk; cbn [orelse] in Hm.
      * injection Hm as ->. by apply Hhere.
      * eapply Hround; [apply Hd | exact Hm].
Qed.

(** The matcher is sound for the texts of a pattern: what it consumes is a
    text of the pattern, and the captures it adds are texts of the groups. *)
Lemma m_sound fl r :
  forall k st res,
    m fl r k st = Some res ->
    exists y pre, k y = Some res /\ m_rest st = pre ++ m_rest y /\
                  lang fl r pre /\ caps_from fl r (m_caps st) (m_caps y).
Proof.
  induction r as [| a | | neg items | r1 IH1 r2 IH2 | r1 IH1 r2 IH2
                 | mn mx g r IH | i r IH | | | r IH];
    intros k st res Hm.
  - rewrite m_eps in Hm. exists st, []. split; [exact Hm |].
    split; [reflexivity |]. split; [reflexivity | apply caps_from_refl].
  - rewrite m_chr in Hm. apply step_sound in Hm as (c & s & Hs & Hp & Hk).
    eexists _, [c]. split; [exact Hk |]. split; [exact Hs |].
    split; [by exists c | apply caps_from_refl].
  - cbn [m] in Hm. apply step_sound in Hm as (c & s & Hs & Hp & Hk).
    eexists _, [c]. split; [exact Hk |]. split; [exact Hs |].
    split; [exists c; split; [reflexivity | by apply negb_true_iff] | apply caps_from_refl].
  - rewrite m_class in Hm. apply step_sound in Hm as (c & s & Hs & Hp & Hk).
    eexists _, [c]. split; [exact Hk |]. split; [exact Hs |].
    split; [by exists c | apply caps_from_refl].
  - rewrite m_seq in Hm. apply IH1 in Hm as (y & pre & Hy & Hpre & Hl & Hc).
    apply IH2 in Hy as (z & pre' & Hz & Hpre' & Hl' & Hc').
    exists z, (pre ++ pre'). split; [exact Hz |].
    split; [by rewrite <- app_assoc, <- Hpre' |].
    split; [by exists pre, pre' |].
    eapply caps_from_trans.
    + eapply caps_from_sub; [| exact Hc]. intros p Hp. cbn [subgroups].
      apply in_or_app. by left.
    + eapply caps_from_sub; [| exact Hc']. intros p Hp. cbn [subgroups].
      apply in_or_app. by right.
  - cbn [m] in Hm. destruct (m fl r1 k st) eqn:H1; cbn [orelse] in Hm.
    + injection Hm as ->. apply IH1 in H1 as (y & pre & Hy & Hpre & Hl & Hc).
      exists y, pre. split; [exact Hy |]. split; [exact Hpre |].
      split; [by left |]. eapply caps_from_sub; [| exact Hc].
      intros p Hp. cbn [subgroups]. apply in_or_app. by left.
    + apply IH2 in Hm as (y & pre & Hy & Hpre & Hl & Hc).
      exists y, pre. split; [exact Hy |]. split; [exact Hpre |].
      split; [by right |]. eapply caps_from_sub; [| exact Hc].
      intros p Hp. cbn [subgroups]. apply in_or_app. by right.
  - rewrite m_quant in Hm.
    apply (repeat_matcher_sound _ _ _ _ _ IH) in Hm as (y & pre & Hy & Hpre & Hl & Hc).
    exists y, pre. split; [exact Hy |]. split; [exact Hpre |]. split; [exact Hl |].
    exact Hc.
  - cbn [m] in Hm. apply IH in Hm as (y & pre & Hy & Hpre & Hl & Hc).
    eexists _, pre. split; [exact Hy |]. split; [exact Hpre |].
    split; [exact Hl |].
    intros j c Hin. cbn [m_caps] in Hin. destruct Hin as [[= <- <-] | Hin].
    + right. exists r. split; [by left |].
      unfold between. rewrite Hpre, length_app, Nat.add_sub, firstn_app, Nat.sub_diag.
      rewrite firstn_all. cbn [firstn]. by rewrite app_nil_r.
    + apply filter_In in Hin as [Hin _].
      destruct (Hc j c Hin) as [Hold | (r' & Hr' & Hg)]; [by left |].
      right. exists r'. split; [by right | exact Hg].
  - rewrite m_bol in Hm. destruct (at_bol fl st); [| discriminate].
    exists st, []. split; [exact Hm |]. split; [reflexivity |].
    split; [reflexivity | apply caps_from_refl].
  - rewrite m_eol in Hm. destruct (at_eol fl st); [| discriminate].
    exists st, []. split; [exact Hm |]. split; [reflexivity |].
    split; [reflexivity | apply caps_from_refl].
  - cbn [m] in Hm. destruct (m fl r Some st) as [y0 |] eqn:Hin; [| discriminate].
    apply IH in Hin as (y & pre & [= ->] & _ & _ & Hc).
    eexists _, []. split; [exact Hm |]. split; [reflexivity |].
    split; [reflexivity | exact Hc].
Qed.

Lemma exec_caps fl r prev (s : jsstring) n caps :
  exec fl r prev s = Some (n, caps) ->
  forall i g, In (i, g) caps -> exists r', In (i, r') (subgroups r) /\ lang fl r' g.
Proof.
  unfold exec. destruct (m fl r Some (MState prev s [])) as [y |] eqn:Hm; [| discriminate].
  intros [= _ <-] i g Hin.
  apply m_sound in Hm as (z & pre & [= <-] & _ & _ & Hc).
  destruct (Hc i g Hin) as [[] | Hg]. exact Hg.
Qed.

Lemma matchAll_caps fl r (s : jsstring) :
  forall skip prev mt,
    In mt (matchAll_go fl r skip prev s) ->
    forall i g, In (i, g) (m_groups mt) ->
      exists r', In (i, r') (subgroups r) /\ lang fl r' g.
Proof.
  induction s as [| c s IH]; intros skip prev mt Hin.
  - destruct skip; cbn [matchAll_go] in Hin; [| done].
    destruct (exec fl r prev []) as [[n caps] |] eqn:He; [| done].
    destruct Hin as [<- | []]. cbn [m_groups]. by eapply exec_caps.
  - destruct skip as [| skip]; cbn [matchAll_go] in Hin; [| by eapply IH].
    destruct (exec fl r prev (c :: s)) as [[n caps] |] eqn:He; [| by eapply IH].
    destruct Hin as [<- | Hin]; [| by eapply IH].
    cbn [m_groups]. by eapply exec_caps.
Qed.

Lemma group_in (mt : rmatch) (i : nat) (g : jsstring) :
  group mt (S i) = Some g -> In (S i, g) (m_groups mt).
Proof.
  cbn [group]. destruct (List.find _ (m_groups mt)) as [[j c] |] eqn:Hf; [| discriminate].
  intros [= <-]. apply find_some in Hf as [Hin Hj]. cbn [fst] in Hj.
  apply Nat.eqb_eq in Hj. by subst j.
Qed.

(** *** The labels *)

Lemma chr_match_lower fl a c : chr_match fl a c = true -> ascii_lower c = ascii_lower a.
Proof.
  unfold chr_match, cset_match, cset_has.
  intros [Hc | [_ [Hc | Hc]%orb_true_iff]%andb_true_iff]%orb_true_iff;
    apply N.eqb_eq in Hc; subst a; [reflexivity | |];
    unfold ascii_lower, ascii_upper, is_upper, is_lower;
    destruct (N.leb_spec 65 c), (N.leb_spec c 90), (N.leb_spec 97 c), (N.leb_spec c 122);
    cbn [andb];
    repeat match goal with
           | |- context [?x <=? ?y] => destruct (N.leb_spec x y); cbn [andb]
           end; lia.
Qed.

Lemma lang_lit_lower fl (w t : jsstring) :
  lang fl (lit w) t -> toLowerCase t = toLowerCase w.
Proof.
  revert t. induction w as [| a w IH]; intros t Hl.
  - cbn in Hl. by subst t.
  - rewrite lit_cons in Hl. cbn [lang] in Hl.
    destruct Hl as (t1 & t2 & -> & (c & -> & Hc) & Hw).
    cbn [app toLowerCase map]. unfold toLowerCase in IH.
    by rewrite (IH t2 Hw), (chr_match_lower _ _ _ Hc).
Qed.

Lemma role_labels_lower fl (t : jsstring) :
  lang fl role_labels t ->
  In (toLowerCase t) [str "user"; str "human"; str "assistant"; str "ai"].
Proof.
  unfold role_labels.
  intros [Hl | [Hl | [Hl | Hl]]];
    [apply (lang_lit_lower fl (str "User")) in Hl
    | apply (lang_lit_lower fl (str "Human")) in Hl
    | apply (lang_lit_lower fl (str "Assistant")) in Hl
    | apply (lang_lit_lower fl (str "AI")) in Hl];
    rewrite Hl; cbn; auto.
Qed.

Lemma message_of_match_roles (mt : rmatch) :
  (forall g1 g2, group mt 1 = Some g1 -> group mt 2 = Some g2 ->
     In (toLowerCase g1) known_roles) ->
  Forall (fun m => In (role m) known_roles) (message_of_match mt).
Proof.
  intros Hg. unfold message_of_match.
  assert (Hsecond : forall body : jsstring,
            In (if includes (toLowerCase (m_text mt)) (str "user") ||
                   includes (toLowerCase (m_text mt)) (str "human")
                then str "user" else str "assistant") known_roles).
  { intros _. destruct (_ || _); cbn; auto. }
  destruct (group mt 1) as [[| c g1] |] eqn:H1; [constructor | | constructor].
  destruct (group mt 2) as [[| c2 g2] |] eqn:H2.
  - constructor; [by apply Hsecond | constructor].
  - constructor; [| constructor]. cbn [role]. by eapply Hg.
  - constructor; [by apply Hsecond | constructor].
Qed.

Lemma subgroups_pattern_a :
  subgroups pattern_a =
  [(1%nat, Alt (lit (str "user")) (lit (str "assistant"))); (2%nat, lazy_star any_char)].
Proof. reflexivity. Qed.

Lemma subgroups_pattern_b : subgroups pattern_b = [(1%nat, lazy_star any_char)].
Proof. reflexivity. Qed.

Lemma subgroups_pattern_c :
  subgroups pattern_c = [(1%nat, role_labels); (2%nat, lazy_star any_char)].
Proof. reflexivity. Qed.

Lemma pattern_roles (fl : flags) (r : regex) (html : jsstring) :
  In (fl, r) patterns ->
  Forall (fun m => In (role m) known_roles) (flat_map message_of_match (matchAll fl r html)).
Proof.
  intros Hp. apply Forall_flat_map, Forall_forall. intros mt Hmt%list_elem_of_In.
  apply message_of_match_roles. intros g1 g2 H1%group_in H2%group_in.
  pose proof (matchAll_caps fl r html 0 None mt Hmt) as Hcaps.
  destruct (Hcaps _ _ H1) as (r1 & Hr1 & Hl1).
  destruct (Hcaps _ _ H2) as (r2 & Hr2 & Hl2).
  assert (Hlabel : forall t, In (toLowerCase t) [str "user"; str "human"; str "assistant"; str "ai"] ->
                             In (toLowerCase t) known_roles).
  { intros t Ht. cbn in Ht |- *. intuition. }
  destruct Hp as [[= <- <-] | [[= <- <-] | [[= <- <-] | []]]].
  - rewrite subgroups_pattern_a in Hr1.
    destruct Hr1 as [[= <-] | [[=] | []]].
    destruct Hl1 as [Hl | Hl];
      [apply (lang_lit_lower fl_gi (str "user")) in Hl
      | apply (lang_lit_lower fl_gi (str "assistant")) in Hl];
      rewrite Hl; cbn; auto.
  - rewrite subgroups_pattern_b in Hr2.
    destruct Hr2 as [[=] | []].
  - rewrite subgroups_pattern_c in Hr1.
    destruct Hr1 as [[= <-] | [[=] | []]].
    by apply Hlabel, (role_labels_lower fl_gmi).
Qed.

(** X22. Every message that [parseHtmlContent] returns has one of the
    roles [user], [assistant], [human], [ai] and [unknown]. *)
Theorem parsed_roles_are_known `{Host} (html : jsstring) :
  Forall (fun m => In (role m) known_roles) (messages (parseHtmlContent html)).
Proof.
  unfold parseHtmlContent, parse_try.
  destruct (isValidConversationJSON html) eqn:Hv.
  - unfold parseJSONConversation.
    destruct (JSON_parse html) as [[| | | | | data |] | msg];
      try (cbn [fallback_result messages]; constructor; [cbn; auto 6 | constructor]).
    destruct (List.find is_nullish data);
      [cbn [fallback_result messages]; constructor; [cbn; auto 6 | constructor] |].
    cbn [messages]. apply Forall_map, Forall_forall. intros item _.
    unfold message_of_item. cbn [role]. destruct (_ || _); cbn; auto.
  - destruct (structured_tier html) as [r |] eqn:Hs.
    + unfold structured_tier in Hs.
      destruct (_ || _); [| done].
      destruct (parseWithHTMLRewriter html) as [res |]; [| done].
      destruct (truthy_str (res userTexts) || truthy_str (res assistantTexts)); [| done].
      destruct (Nat.ltb 0 _); [| done]. injection Hs as <-. cbn [messages].
      apply Forall_app_2.
      * destruct (truthy_str (res userTexts)); [| constructor].
        constructor; [cbn; auto | constructor].
      * destruct (truthy_str (res assistantTexts)); [| constructor].
        constructor; [cbn; auto | constructor].
    + cbn [messages].
      assert (Hfound : Forall (fun m => In (role m) known_roles) (regex_tier patterns html)).
      { assert (Hall : forall ps, (forall p, In p ps -> In p patterns) ->
                  Forall (fun m => In (role m) known_roles) (regex_tier ps html)).
        { induction ps as [| [fl r] ps IH]; intros Hps; [constructor |].
          cbn [regex_tier]. destruct (matchAll fl r html) as [| mt ms] eqn:Hm.
          - apply IH. intros p Hp. apply Hps. by right.
          - rewrite <- Hm. apply pattern_roles. apply Hps. by left. }
        by apply Hall. }
      destruct (Nat.eqb (length (regex_tier patterns html)) 0); [| exact Hfound].
      constructor; [cbn; auto 6 | constructor].
Qed.

